(** * The reliable framed transport of [remote_dawn/echo_test_server.py]

    A shallow embedding of the packet codec, the handshake, the verified
    receiver, the retrying sender, the WAV validation and repair helpers and
    the connection handler, followed by the properties of the design
    document stated and settled on that embedding.

    Conventions.
    - Python [bytes] and [bytearray] values are [list byte].
    - Python integers are [Z]; lengths and loop counters that never go
      negative are [nat] where that keeps the recursion structural.
    - A socket is the record [conn]: the scripted incoming side, the
      scripted verdicts of the outgoing side, the log of what was written,
      the log of the pauses taken, and whether it has been closed.
    - The module-level dictionary [client_sequences] is a [gmap] from the
      client identity string to a [session] record, threaded explicitly.
    - A Python exception that escapes a function is a dedicated result
      value ([None] of an [option], or a constructor such as [SendRaised]). *)

From Stdlib Require Import ZArith Lia.
From Stdlib Require Import Strings.Byte.
From stdpp Require Import gmap strings list pretty.

Local Open Scope Z_scope.

(** ** Bytes *)

Abbreviation bytes := (list byte).

#[global] Instance byte_eq_dec : EqDecision byte := Byte.byte_eq_dec.

(** The value of a byte, as iterating over a [bytes] object yields it. *)
Definition byte_val (b : byte) : Z := Z.of_N (Byte.to_N b).

(** The byte holding the low eight bits of an integer. *)
Definition byte_of (z : Z) : byte :=
  default x00 (Byte.of_N (Z.to_N (z mod 256))).

(** ** [struct.pack] and [struct.unpack] for unsigned fields *)

(** The [n] low bytes of [v], least significant first. *)
Fixpoint le_bytes (n : nat) (v : Z) : bytes :=
  match n with
  | O => []
  | S n' => byte_of v :: le_bytes n' (v / 256)
  end.

(** The unsigned value of a byte string read least significant first. *)
Fixpoint le_value (bs : bytes) : Z :=
  match bs with
  | [] => 0
  | b :: rest => byte_val b + 256 * le_value rest
  end.

Definition be_bytes (n : nat) (v : Z) : bytes := reverse (le_bytes n v).
Definition be_value (bs : bytes) : Z := le_value (reverse bs).

(** [struct.pack] of one unsigned field of [n] bytes: [struct.error] (here
    [None]) when the value does not fit. *)
Definition pack_le (n : nat) (v : Z) : option bytes :=
  if bool_decide (0 <= v < 256 ^ Z.of_nat n) then Some (le_bytes n v) else None.

Definition pack_be (n : nat) (v : Z) : option bytes :=
  if bool_decide (0 <= v < 256 ^ Z.of_nat n) then Some (be_bytes n v) else None.

(** ** Protocol configuration

    The constants are assigned twice at module level; the second
    assignment (with [PACKET_MAX_SIZE = 8192]) is the one in force when any
    function runs. *)

Definition PROTOCOL_VERSION : Z := 1.
Definition PACKET_HEADER_SIZE : nat := 8.
Definition PACKET_MAX_SIZE : Z := 8192.
Definition PACKET_TYPE_HANDSHAKE : Z := 1.
Definition PACKET_TYPE_DATA : Z := 2.
Definition PACKET_TYPE_DATA_END : Z := 3.
Definition PACKET_TYPE_ACK : Z := 4.
Definition PACKET_TYPE_NACK : Z := 5.
Definition PACKET_TYPE_RETRY : Z := 6.

(** ** Checksum *)

(** The [for byte in data] loop of [calculate_checksum], with the two
    running sums as accumulators. *)
Fixpoint checksum_loop (data : bytes) (sum1 sum2 : Z) : Z * Z :=
  match data with
  | [] => (sum1, sum2)
  | byte :: rest =>
      let sum1 := (sum1 + byte_val byte) mod 255 in
      let sum2 := (sum2 + sum1) mod 255 in
      checksum_loop rest sum1 sum2
  end.

Definition calculate_checksum (data : bytes) : Z :=
  let '(sum1, sum2) := checksum_loop data 0 0 in
  Z.lor (Z.shiftl sum2 8) sum1.

(** The reference definition, in the words of the design document: a pair
    of running sums seeded at 0 and folded over the payload in order. *)
Definition reference_step (acc : Z * Z) (b : byte) : Z * Z :=
  let sum1 := (acc.1 + byte_val b) mod 255 in
  (sum1, (acc.2 + sum1) mod 255).

Definition reference_checksum (p : bytes) : Z :=
  let acc := fold_left reference_step p (0, 0) in
  Z.lor (Z.shiftl acc.2 8) acc.1.

(** ** Packet headers *)

Record header_info := HeaderInfo {
  h_length : Z;
  h_version : Z;
  h_type : Z;
  h_checksum : Z;
}.

(** [struct.pack(">IBBH", data_length, PROTOCOL_VERSION, packet_type,
    checksum)]; [None] is [struct.error]. *)
Definition build_packet_header (data_length packet_type checksum : Z)
  : option bytes :=
  l ← pack_be 4 data_length;
  v ← pack_be 1 PROTOCOL_VERSION;
  t ← pack_be 1 packet_type;
  c ← pack_be 2 checksum;
  Some (l ++ v ++ t ++ c).

Definition parse_packet_header (header : bytes) : option header_info :=
  if bool_decide (length header ≠ PACKET_HEADER_SIZE) then None
  else
    let data_length := be_value (take 4 header) in
    let version := be_value (take 1 (drop 4 header)) in
    let packet_type := be_value (take 1 (drop 5 header)) in
    let checksum := be_value (take 2 (drop 6 header)) in
    if bool_decide (version ≠ PROTOCOL_VERSION) then None
    else Some (HeaderInfo data_length version packet_type checksum).

(** ** Sockets

    The incoming side of a connection is a script: the bytes the peer
    delivers, in order, interleaved with the moments at which a blocking
    read gives up (a timeout, a reset or any other socket error).  The end
    of the script is the peer closing the connection. *)

Inductive rx :=
  | RxByte (b : byte)
  | RxFail.

Record conn := Conn {
  inbox : list rx;          (* what the peer delivers, in order *)
  tx_script : list bool;    (* verdict of each coming [sendall]; none left: success *)
  outbox : list bytes;      (* the buffers written so far, one per [sendall] *)
  slept : list Z;           (* the pauses taken so far, in milliseconds *)
  closed : bool;
}.

Definition set_inbox (c : conn) (i : list rx) : conn :=
  Conn i (tx_script c) (outbox c) (slept c) (closed c).

(** The peer delivering the byte string [bs]. *)
Definition rx_bytes (bs : bytes) : list rx := RxByte <$> bs.

(** [read_exact] on the script: [n] bytes, or [None] as soon as the peer has
    closed or the read fails; what was read before that is lost. *)
Fixpoint read_script (n : nat) (i : list rx) : option bytes * list rx :=
  match n with
  | O => (Some [], i)
  | S n' =>
      match i with
      | [] => (None, [])
      | RxFail :: rest => (None, rest)
      | RxByte b :: rest =>
          let '(r, rest') := read_script n' rest in
          (cons b <$> r, rest')
      end
  end.

Definition read_exact (c : conn) (n : nat) : option bytes * conn :=
  let '(r, i) := read_script n (inbox c) in (r, set_inbox c i).

(** [conn.sendall(data)]: [true] when the write went through, [false] when
    it raised. *)
Definition sendall (c : conn) (data : bytes) : bool * conn :=
  match tx_script c with
  | false :: s => (false, Conn (inbox c) s (outbox c) (slept c) (closed c))
  | true :: s => (true, Conn (inbox c) s (outbox c ++ [data]) (slept c) (closed c))
  | [] => (true, Conn (inbox c) [] (outbox c ++ [data]) (slept c) (closed c))
  end.

(** [time.sleep], with the pause in milliseconds. *)
Definition sleep (c : conn) (ms : Z) : conn :=
  Conn (inbox c) (tx_script c) (outbox c) (slept c ++ [ms]) (closed c).

Definition close (c : conn) : conn :=
  Conn (inbox c) (tx_script c) (outbox c) (slept c) true.

(** Python's [not x] for the result of [read_exact]: [None] and the empty
    byte string are both false. *)
Definition falsy (r : option bytes) : bool :=
  match r with
  | None | Some [] => true
  | Some (_ :: _) => false
  end.

(** The two control headers; both sets of arguments fit their fields. *)
Definition ack_header : bytes :=
  default [] (build_packet_header 0 PACKET_TYPE_ACK 0).
Definition nack_header : bytes :=
  default [] (build_packet_header 0 PACKET_TYPE_NACK 0).

Definition send_ack (c : conn) : bool * conn := sendall c ack_header.
Definition send_nack (c : conn) : bool * conn := sendall c nack_header.

(** ** Sessions *)

Record session := Session {
  send : Z;
  receive : Z;
}.

Abbreviation sessions := (gmap string session).

Definition addr : Type := string * N.

(** [f"{addr[0]}:{addr[1]}"] *)
Definition client_ip (a : addr) : string := a.1 +:+ ":" +:+ pretty a.2.

(** [if client_ip not in client_sequences: client_sequences[client_ip] =
    {"send": 0, "receive": 0}] *)
Definition ensure_session (ip : string) (cs : sessions) : sessions :=
  match cs !! ip with
  | Some _ => cs
  | None => <[ip := Session 0 0]> cs
  end.

(** [client_sequences[client_ip]["receive"] = v]; the entry exists wherever
    this is used, [ensure_session] having run first. *)
Definition set_receive (ip : string) (v : Z) (cs : sessions) : sessions :=
  alter (λ s, Session (send s) v) ip cs.

Definition set_send (ip : string) (v : Z) (cs : sessions) : sessions :=
  alter (λ s, Session v (receive s)) ip cs.

Definition get_receive (ip : string) (cs : sessions) : Z :=
  default 0 (receive <$> cs !! ip).

Definition get_send (ip : string) (cs : sessions) : Z :=
  default 0 (send <$> cs !! ip).

(** ** Handshake *)

Definition expected_magic : bytes := [xa5; x5a; xb2; x2b].

Definition handle_handshake (c : conn) (a : addr) (cs : sessions)
  : bool * conn * sessions :=
  let ip := client_ip a in
  let '(header_data, c) := read_exact c PACKET_HEADER_SIZE in
  if falsy header_data then (false, c, cs) else
  match parse_packet_header (default [] header_data) with
  | None => (false, c, cs)
  | Some header_info =>
      if bool_decide (h_type header_info ≠ PACKET_TYPE_HANDSHAKE)
      then (false, c, cs) else
      let '(handshake_data, c) := read_exact c (Z.to_nat (h_length header_info)) in
      if falsy handshake_data then (false, c, cs) else
      let handshake_data := default [] handshake_data in
      let actual_checksum := calculate_checksum handshake_data in
      if bool_decide (actual_checksum ≠ h_checksum header_info)
      then (false, c, cs) else
      if bool_decide (handshake_data ≠ expected_magic)
      then (false, c, cs) else
      let cs := <[ip := Session 0 0]> cs in
      let c := sleep c 50 in
      let '(ok, c) := send_ack c in
      if negb ok then (false, c, cs) else
      let c := sleep c 50 in
      (true, c, cs)
  end.

(** ** Receiver *)

(** The local variables of [receive_data_with_verification] that live
    across iterations of its [while True] loop, with the socket and the
    session table. *)
Record recv_state := RecvState {
  r_conn : conn;
  r_sessions : sessions;
  receive_sequence : Z;
  received_data : bytes;
}.

(** How one iteration of the loop ends: [continue] (or falling off the end
    of the body), or leaving the function with a value ([return None], or
    [break] followed by [return received_data]). *)
Inductive flow :=
  | Continue
  | Return (result : option bytes).

Definition default_max_size : Z := 10 * 1024 * 1024.

Definition receive_body (ip : string) (max_size : Z) (st : recv_state)
  : flow * recv_state :=
  let cs := r_sessions st in
  let seq := receive_sequence st in
  let acc := received_data st in
  let '(header_data, c) := read_exact (r_conn st) PACKET_HEADER_SIZE in
  if falsy header_data then (Return None, RecvState c cs seq acc) else
  match parse_packet_header (default [] header_data) with
  | None =>
      let '(_, c) := send_nack c in (Return None, RecvState c cs seq acc)
  | Some header_info =>
      let data_length := h_length header_info in
      if bool_decide (data_length > PACKET_MAX_SIZE) then
        let '(_, c) := send_nack c in (Return None, RecvState c cs seq acc)
      else if bool_decide (Z.of_nat (length acc) + data_length > max_size) then
        let '(_, c) := send_nack c in (Return None, RecvState c cs seq acc)
      else
      let '(seq_bytes, c) := read_exact c 2 in
      if falsy seq_bytes then
        let '(_, c) := send_nack c in (Return None, RecvState c cs seq acc)
      else
      let packet_sequence := be_value (default [] seq_bytes) in
      if bool_decide (packet_sequence ≠ seq) then
        let '(_, c) := send_nack c in (Continue, RecvState c cs seq acc)
      else
      let '(chunk_data, c) := read_exact c (Z.to_nat data_length) in
      if falsy chunk_data then
        let '(_, c) := send_nack c in (Return None, RecvState c cs seq acc)
      else
      let chunk_data := default [] chunk_data in
      let actual_checksum := calculate_checksum chunk_data in
      if bool_decide (actual_checksum ≠ h_checksum header_info) then
        let '(_, c) := send_nack c in (Continue, RecvState c cs seq acc)
      else
      let '(ok, c) := send_ack c in
      if negb ok then (Return None, RecvState c cs seq acc) else
      let acc := acc ++ chunk_data in
      let seq := seq + 1 in
      let cs := set_receive ip seq cs in
      if bool_decide (h_type header_info = PACKET_TYPE_DATA_END)
      then (Return (Some acc), RecvState c cs seq acc)
      else (Continue, RecvState c cs seq acc)
  end.

(** The [while True] loop, by recursion on a bound on the number of
    iterations; [None] only when the bound is too small. *)
Fixpoint receive_loop (fuel : nat) (ip : string) (max_size : Z)
  (st : recv_state) : option (option bytes * recv_state) :=
  match fuel with
  | O => None
  | S fuel' =>
      match receive_body ip max_size st with
      | (Continue, st') => receive_loop fuel' ip max_size st'
      | (Return r, st') => Some (r, st')
      end
  end.

(** Every iteration that continues has read a header, so the length of the
    incoming script bounds the number of iterations. *)
Definition receive_data_with_verification (c : conn) (a : addr)
  (max_size : Z) (cs : sessions) : option bytes * conn * sessions :=
  let ip := client_ip a in
  let cs := ensure_session ip cs in
  let st := RecvState c cs (get_receive ip cs) [] in
  match receive_loop (S (length (inbox c))) ip max_size st with
  | Some (r, st') => (r, r_conn st', r_sessions st')
  | None => (None, c, cs)
  end.

(** ** Sender *)

Inductive send_result :=
  | SendTrue                (* [return True] *)
  | SendFalse               (* [return False] *)
  | SendRaised.             (* an exception left the function *)

(** [min(0.1 * (2 ** retry), 2.0)] in milliseconds.  The product is a float
    product, so Python converts [2 ** retry] to a float first and raises
    [OverflowError] (here [None]) from [retry = 1024] on. *)
Definition retry_delay (retry : Z) : option Z :=
  if bool_decide (retry >= 1024) then None
  else Some (Z.min (100 * 2 ^ retry) 2000).

Inductive attempt_outcome :=
  | ChunkSent               (* the loop was left by [break], [chunk_sent = True] *)
  | ChunkNotSent            (* [range(max_retries)] ran out *)
  | AttemptRaised.          (* an exception outside the [try] *)

(** The loop [for retry in range(max_retries)], with [n] the iterations
    left and [retry] the loop variable. *)
Fixpoint retry_loop (n : nat) (retry : Z) (c : conn)
  (header sequence_bytes chunk : bytes) : attempt_outcome * conn :=
  match n with
  | O => (ChunkNotSent, c)
  | S n' =>
      let paused :=
        if bool_decide (retry > 0)
        then sleep c <$> retry_delay retry
        else Some c in
      match paused with
      | None => (AttemptRaised, c)
      | Some c =>
          let next c := retry_loop n' (retry + 1) c header sequence_bytes chunk in
          let '(ok, c) := sendall c header in
          if negb ok then next c else
          let '(ok, c) := sendall c sequence_bytes in
          if negb ok then next c else
          let '(ok, c) := sendall c chunk in
          if negb ok then next c else
          let '(ack_header, c) := read_exact c PACKET_HEADER_SIZE in
          if falsy ack_header then next c else
          match parse_packet_header (default [] ack_header) with
          | None => next c
          | Some ack_info =>
              if bool_decide (h_type ack_info = PACKET_TYPE_ACK)
              then (ChunkSent, c)
              else next c
          end
      end
  end.

(** The loop [while total_sent < data_length], by recursion on a bound on
    the number of iterations; [None] only when the bound is too small.
    The progress report that ends the body only prints: its
    [total_sent % (data_length // 10)] is evaluated for a chunk that is
    neither the first nor the last, hence with [data_length // 10 > 0]. *)
Fixpoint send_loop (fuel : nat) (ip : string) (data : bytes) (max_retries : Z)
  (c : conn) (cs : sessions) (total_sent : nat) (send_sequence : Z)
  : option (send_result * conn * sessions) :=
  let data_length := length data in
  if bool_decide (total_sent < data_length)%nat then
    match fuel with
    | O => None
    | S fuel' =>
        let chunk_size := Z.to_nat PACKET_MAX_SIZE in
        let remaining := (data_length - total_sent)%nat in
        let current_chunk_size := Nat.min remaining chunk_size in
        let is_last_chunk :=
          bool_decide (data_length <= total_sent + current_chunk_size)%nat in
        let packet_type :=
          if is_last_chunk then PACKET_TYPE_DATA_END else PACKET_TYPE_DATA in
        let chunk := take current_chunk_size (drop total_sent data) in
        let checksum := calculate_checksum chunk in
        match build_packet_header (Z.of_nat current_chunk_size) packet_type checksum with
        | None => Some (SendRaised, c, cs)
        | Some header =>
            match pack_be 2 send_sequence with
            | None => Some (SendRaised, c, cs)
            | Some sequence_bytes =>
                match retry_loop (Z.to_nat max_retries) 0 c header sequence_bytes chunk with
                | (AttemptRaised, c) => Some (SendRaised, c, cs)
                | (ChunkNotSent, c) => Some (SendFalse, c, cs)
                | (ChunkSent, c) =>
                    let total_sent := (total_sent + current_chunk_size)%nat in
                    let send_sequence := send_sequence + 1 in
                    let cs := set_send ip send_sequence cs in
                    send_loop fuel' ip data max_retries c cs total_sent send_sequence
                end
            end
        end
    end
  else Some (SendTrue, c, cs).

(** Every iteration that continues has sent at least one byte of [data],
    so its length bounds the number of iterations. *)
Definition send_data_with_retries (c : conn) (a : addr) (data : bytes)
  (max_retries : Z) (cs : sessions) : send_result * conn * sessions :=
  let ip := client_ip a in
  let cs := ensure_session ip cs in
  let send_sequence := get_send ip cs in
  let c := sleep c 200 in
  match send_loop (length data) ip data max_retries c cs 0 send_sequence with
  | Some r => r
  | None => (SendRaised, c, cs)
  end.

(** ** WAV containers *)

Definition RIFF : bytes := [x52; x49; x46; x46].       (* b'RIFF' *)
Definition WAVE : bytes := [x57; x41; x56; x45].       (* b'WAVE' *)
Definition FMT_ : bytes := [x66; x6d; x74; x20].       (* b'fmt ' *)
Definition DATA : bytes := [x64; x61; x74; x61].       (* b'data' *)

(** The slice [b[lo:hi]], for [lo <= hi]; like Python's it is cut short at
    the end of [b]. *)
Definition slice (lo hi : nat) (b : bytes) : bytes :=
  take (hi - lo) (drop lo b).

(** The slice assignment [b[lo:hi] = new] on a [bytearray]. *)
Definition splice (lo hi : nat) (new b : bytes) : bytes :=
  take lo b ++ new ++ drop hi b.

Definition verify_wav_format (wav_bytes : bytes) : bool :=
  if bool_decide (length wav_bytes < 44)%nat then false
  else if bool_decide (slice 0 4 wav_bytes ≠ RIFF) then false
  else if bool_decide (slice 8 12 wav_bytes ≠ WAVE) then false
  else if bool_decide (slice 12 16 wav_bytes ≠ FMT_) then false
  else if bool_decide (slice 36 40 wav_bytes ≠ DATA) then false
  else true.

(** The header that [wave.Wave_write._write_header] emits:
    [b'RIFF'], then [struct.pack('<L4s4sLHHLLHH4s', ...)], then
    [struct.pack('<L', datalength)]. *)
Definition wave_header (form_length nchannels framerate sampwidth datalength : Z)
  : option bytes :=
  f1 ← pack_le 4 form_length;
  f2 ← pack_le 4 16;
  f3 ← pack_le 2 1;
  f4 ← pack_le 2 nchannels;
  f5 ← pack_le 4 framerate;
  f6 ← pack_le 4 (nchannels * framerate * sampwidth);
  f7 ← pack_le 2 (nchannels * sampwidth);
  f8 ← pack_le 2 (sampwidth * 8);
  f9 ← pack_le 4 datalength;
  Some (RIFF ++ f1 ++ WAVE ++ FMT_ ++ f2 ++ f3 ++ f4 ++ f5 ++ f6 ++ f7 ++ f8
          ++ DATA ++ f9).

(** [create_wav_from_pcm]: the bytes that the standard [wave] module leaves
    in the [BytesIO] buffer after [setnchannels], [setsampwidth],
    [setframerate], one [writeframes(pcm_data)] and the closing of the
    writer, on a little-endian host.  The writer first emits a header for
    the whole frames of [pcm_data], appends [pcm_data], and patches the two
    length fields when the bytes written differ from that first figure.
    [None] is an exception ([wave.Error] on a bad parameter, [struct.error]
    on a length that does not fit its field). *)
Definition create_wav_from_pcm (pcm_data : bytes)
  (sample_rate channels sample_width : Z) : option bytes :=
  if bool_decide (channels < 1) then None
  else if bool_decide (sample_width < 1 ∨ sample_width > 4) then None
  else if bool_decide (sample_rate <= 0) then None
  else
    let initlength := Z.of_nat (length pcm_data) in
    let nframes := initlength / (channels * sample_width) in
    let datalength := nframes * channels * sample_width in
    header ← wave_header (36 + datalength) channels sample_rate sample_width
               datalength;
    let file := header ++ pcm_data in
    let datawritten := Z.of_nat (length pcm_data) in
    if bool_decide (datalength ≠ datawritten) then
      form ← pack_le 4 (36 + datawritten);
      let file := splice 4 8 form file in
      dlen ← pack_le 4 datawritten;
      Some (splice 40 44 dlen file)
    else Some file.

(** [repair_wav_file]; [None] is [struct.error]. *)
Definition repair_wav_file (corrupted_wav : bytes) : option bytes :=
  if bool_decide (length corrupted_wav < 44)%nat then
    create_wav_from_pcm corrupted_wav 16000 1 2
  else
    let repaired_wav := corrupted_wav in
    let repaired_wav := splice 0 4 RIFF repaired_wav in
    let repaired_wav := splice 8 12 WAVE repaired_wav in
    let repaired_wav := splice 12 16 FMT_ repaired_wav in
    let data_size := Z.of_nat (length corrupted_wav) - 44 in
    p ← pack_le 4 data_size;
    let repaired_wav := splice 40 44 p repaired_wav in
    p ← pack_le 4 (Z.of_nat (length corrupted_wav) - 8);
    let repaired_wav := splice 4 8 p repaired_wav in
    p ← pack_le 4 16;
    let repaired_wav := splice 16 20 p repaired_wav in
    p ← pack_le 2 1;
    let repaired_wav := splice 20 22 p repaired_wav in
    p ← pack_le 2 1;
    let repaired_wav := splice 22 24 p repaired_wav in
    p ← pack_le 4 16000;
    let repaired_wav := splice 24 28 p repaired_wav in
    p ← pack_le 4 (16000 * 1 * 2);
    let repaired_wav := splice 28 32 p repaired_wav in
    p ← pack_le 2 (1 * 2);
    let repaired_wav := splice 32 34 p repaired_wav in
    p ← pack_le 2 16;
    let repaired_wav := splice 34 36 p repaired_wav in
    let repaired_wav := splice 36 40 DATA repaired_wav in
    Some repaired_wav.

Definition ensure_valid_wav_format (audio_data : bytes) : option bytes :=
  if bool_decide (44 <= length audio_data)%nat
     && bool_decide (slice 0 4 audio_data = RIFF)
     && bool_decide (slice 8 12 audio_data = WAVE)
  then Some audio_data
  else
    let is_likely_pcm :=
      if bool_decide (12 <= length audio_data)%nat then
        if bool_decide (slice 0 4 audio_data = RIFF)
           || bool_decide (slice 8 12 audio_data = WAVE)
        then false else true
      else true in
    if is_likely_pcm
    then create_wav_from_pcm audio_data 16000 1 2
    else repair_wav_file audio_data.

Definition process_audio (wav_bytes : bytes) : option bytes :=
  let is_valid_wav :=
    bool_decide (44 <= length wav_bytes)%nat
    && (bool_decide (slice 0 4 wav_bytes = RIFF)
        && bool_decide (slice 8 12 wav_bytes = WAVE)) in
  if negb is_valid_wav then ensure_valid_wav_format wav_bytes
  else Some wav_bytes.

(** [make_silent_wav]; [int(sr * ms / 1000)] is exact for the only
    arguments it is called with, [sr=16000, ms=250]. *)
Definition make_silent_wav (sr ms : Z) : option bytes :=
  let n := sr * ms / 1000 in
  let pcm := concat (replicate (Z.to_nat n) [x00; x00]) in
  let subchunk2_size := Z.of_nat (length pcm) in
  let chunk_size := 36 + subchunk2_size in
  f1 ← pack_le 4 chunk_size;
  f2 ← pack_le 4 16;
  f3 ← pack_le 2 1;
  f4 ← pack_le 2 1;
  f5 ← pack_le 4 sr;
  f6 ← pack_le 4 (sr * 2);
  f7 ← pack_le 2 2;
  f8 ← pack_le 2 16;
  f9 ← pack_le 4 subchunk2_size;
  Some ((RIFF ++ f1 ++ WAVE) ++ (FMT_ ++ f2 ++ f3 ++ f4 ++ f5 ++ f6 ++ f7 ++ f8)
          ++ (DATA ++ f9) ++ pcm).

(** The fields of a 44-byte canonical header, as a reader decodes them. *)
Definition wav_riff_size (w : bytes) : Z := le_value (slice 4 8 w).
Definition wav_fmt_size (w : bytes) : Z := le_value (slice 16 20 w).
Definition wav_format_tag (w : bytes) : Z := le_value (slice 20 22 w).
Definition wav_channels (w : bytes) : Z := le_value (slice 22 24 w).
Definition wav_sample_rate (w : bytes) : Z := le_value (slice 24 28 w).
Definition wav_byte_rate (w : bytes) : Z := le_value (slice 28 32 w).
Definition wav_block_align (w : bytes) : Z := le_value (slice 32 34 w).
Definition wav_bits_per_sample (w : bytes) : Z := le_value (slice 34 36 w).
Definition wav_data_size (w : bytes) : Z := le_value (slice 40 44 w).

(** ** Connection handler *)

(** What the handler's surroundings decide: the mode flag, and the outcome
    of each call that leaves the protocol (socket option, file system,
    speech recognition). *)
Inductive reply_file :=
  | ReplyMissing                  (* [os.path.isfile(REPLY_WAV)] is false *)
  | ReplyContent (content : bytes)
  | ReplyUnreadable.              (* opening or reading it raises *)

Record env := Env {
  ECHO_MODE : bool;
  setsockopt_ok : bool;           (* [conn.setsockopt] returns *)
  save_ok : bool;                 (* the received data is written to the inbox *)
  transcribe_wav_bytes : bytes → string;   (* catches its own exceptions *)
  REPLY_WAV : reply_file;
}.

(** The ways out of the [try] block of [handle_connection_improved]. *)
Inductive exit_path :=
  | ExitHandshakeFailed
  | ExitReceiveFailed
  | ExitSendFailed
  | ExitFinished
  | ExitException.

Definition default_max_retries : Z := 5.

(** The body of the [try] block.  Logging, the timing of the transfer and
    the fire-and-forget [speak_async] leave no trace here. *)
Definition connection_body (e : env) (c : conn) (a : addr) (cs : sessions)
  : exit_path * conn * sessions :=
  if negb (setsockopt_ok e) then (ExitException, c, cs) else
  let '(ok, c, cs) := handle_handshake c a cs in
  if negb ok then (ExitHandshakeFailed, c, cs) else
  let '(received_data, c, cs) :=
    receive_data_with_verification c a default_max_size cs in
  match received_data with
  | None => (ExitReceiveFailed, c, cs)
  | Some received_data =>
      if negb (save_ok e) then (ExitException, c, cs) else
      let fixed :=
        if negb (verify_wav_format received_data)
        then ensure_valid_wav_format received_data
        else Some received_data in
      match fixed with
      | None => (ExitException, c, cs)
      | Some received_data =>
          let text := transcribe_wav_bytes e received_data in
          let reply :=
            if ECHO_MODE e then process_audio received_data
            else match REPLY_WAV e with
                 | ReplyContent content => Some content
                 | ReplyUnreadable => None
                 | ReplyMissing => make_silent_wav 16000 250
                 end in
          match reply with
          | None => (ExitException, c, cs)
          | Some reply_bytes =>
              let fixed :=
                if negb (verify_wav_format reply_bytes)
                then ensure_valid_wav_format reply_bytes
                else Some reply_bytes in
              match fixed with
              | None => (ExitException, c, cs)
              | Some reply_bytes =>
                  let '(r, c, cs) :=
                    send_data_with_retries c a reply_bytes default_max_retries cs in
                  match r with
                  | SendTrue => (ExitFinished, c, cs)
                  | SendFalse => (ExitSendFailed, c, cs)
                  | SendRaised => (ExitException, c, cs)
                  end
              end
          end
      end
  end.

(** The [try] block followed by its [finally] clause: whichever way the
    body was left, the client's entry is deleted if present and the socket
    is closed. *)
Definition handle_connection_improved (e : env) (c : conn) (a : addr)
  (cs : sessions) : exit_path * conn * sessions :=
  let ip := client_ip a in
  let '(path, c, cs) := connection_body e c a cs in
  let cs := if bool_decide (is_Some (cs !! ip)) then delete ip cs else cs in
  let c := close c in
  (path, c, cs).

(** ** The original connection handler

    [handle_connection] speaks the older wire format: a 4-byte big-endian
    length, then that many bytes, in each direction; no handshake, no
    frames, no session. *)

(** [send_exact]: [conn.sendall] with every exception turned into
    [False]. *)
Definition send_exact (c : conn) (data : bytes) : bool * conn := sendall c data.

(** The ways out of the [try] block of [handle_connection]. *)
Inductive legacy_exit :=
  | LegacyNoLength          (* closed before the length was received *)
  | LegacyInvalidLength
  | LegacyNoData            (* closed during the data transfer *)
  | LegacyHeaderNotSent
  | LegacyDataNotSent
  | LegacySent
  | LegacyException.

Definition legacy_max_length : Z := 10 * 1024 * 1024.

(** The body of the [try] block.  Logging, the timing of the transfer and
    [speak_async] leave no trace here; the check of the received data with
    [verify_wav_format] only logs. *)
Definition legacy_body (e : env) (c : conn) (a : addr) : legacy_exit * conn :=
  let '(raw, c) := read_exact c 4 in
  if falsy raw then (LegacyNoLength, c) else
  let length_ := be_value (default [] raw) in
  if bool_decide (length_ <= 0) || bool_decide (length_ > legacy_max_length)
  then (LegacyInvalidLength, c) else
  let '(data, c) := read_exact c (Z.to_nat length_) in
  match data with
  | None => (LegacyNoData, c)
  | Some data =>
      if negb (save_ok e) then (LegacyException, c) else
      let valid := verify_wav_format data in
      let text := transcribe_wav_bytes e data in
      let reply :=
        if ECHO_MODE e then process_audio data
        else match REPLY_WAV e with
             | ReplyContent content => Some content
             | ReplyUnreadable => None
             | ReplyMissing => make_silent_wav 16000 250
             end in
      match reply with
      | None => (LegacyException, c)
      | Some reply_bytes =>
          match pack_be 4 (Z.of_nat (length reply_bytes)) with
          | None => (LegacyException, c)
          | Some length_header =>
              let '(ok, c) := send_exact c length_header in
              if negb ok then (LegacyHeaderNotSent, c) else
              let '(ok, c) := send_exact c reply_bytes in
              if negb ok then (LegacyDataNotSent, c) else
              (LegacySent, c)
          end
      end
  end.

(** The [try] block followed by its [finally] clause, which closes the
    socket. *)
Definition handle_connection (e : env) (c : conn) (a : addr)
  : legacy_exit * conn :=
  let '(path, c) := legacy_body e c a in (path, close c).

(** ** Vocabulary of the properties *)

(** The next write on the connection goes through. *)
Definition writable (c : conn) : Prop := head (tx_script c) ≠ Some false.

(** A well-formed opening on the incoming side: a complete 8-byte header
    that decodes with the fixed version and type Handshake, followed by
    exactly the declared number of payload bytes, whose checksum is the
    header's and which are the magic. *)
Definition handshake_wellformed (c : conn) : Prop :=
  ∃ header payload rest h,
    inbox c = rx_bytes header ++ rx_bytes payload ++ rest ∧
    length header = 8%nat ∧
    parse_packet_header header = Some h ∧
    h_version h = PROTOCOL_VERSION ∧
    h_type h = PACKET_TYPE_HANDSHAKE ∧
    length payload = Z.to_nat (h_length h) ∧
    calculate_checksum payload = h_checksum h ∧
    payload = expected_magic.

(** The conditions under which the handshake is to succeed: a well-formed
    opening, and the Ack going through. *)
Definition handshake_accepted (c : conn) : Prop :=
  handshake_wellformed c ∧ writable c.

(** The one way a handshake is turned down, whatever the cause: [False] is
    returned, nothing has been written or attempted, and the session table
    is as it was. *)
Definition handshake_refused (c : conn) (a : addr) (cs : sessions) : Prop :=
  ∃ c', handle_handshake c a cs = (false, c', cs) ∧
        outbox c' = outbox c ∧ tx_script c' = tx_script c.

(** The receiver turning a frame down: a Nack is written on the connection,
    whose incoming side stands at [rest], and the session table, the
    expected sequence number and the accumulated data are as they were. *)
Definition nacked (st st' : recv_state) (rest : list rx) : Prop :=
  r_conn st' = (sendall (set_inbox (r_conn st) rest) nack_header).2 ∧
  r_sessions st' = r_sessions st ∧
  receive_sequence st' = receive_sequence st ∧
  received_data st' = received_data st.

(** The receiver accepting a frame: an Ack went out, the payload was
    appended, and the expected sequence number, in the loop and in the
    session table, moved on by one. *)
Definition acked (ip : string) (st st' : recv_state) (chunk : bytes) : Prop :=
  outbox (r_conn st') = outbox (r_conn st) ++ [ack_header] ∧
  received_data st' = received_data st ++ chunk ∧
  receive_sequence st' = receive_sequence st + 1 ∧
  r_sessions st' = set_receive ip (receive_sequence st + 1) (r_sessions st).

(** An iteration that changes neither the session table, nor the expected
    sequence number, nor the accumulated data. *)
Definition unmoved (st st' : recv_state) : Prop :=
  r_sessions st' = r_sessions st ∧
  receive_sequence st' = receive_sequence st ∧
  received_data st' = received_data st.

(** Whether the answer to one wait of the sender is an Ack. *)
Definition response_is_ack (r : option bytes) : bool :=
  match r with
  | Some header =>
      match parse_packet_header header with
      | Some h => bool_decide (h_type h = PACKET_TYPE_ACK)
      | None => false
      end
  | None => false
  end.

(** None of the next [n] waits for a response header ends in an Ack: each
    ends in a timeout or a short read, a Nack or another type, or a header
    that does not decode. *)
Fixpoint never_acks (n : nat) (i : list rx) : Prop :=
  match n with
  | O => True
  | S n' =>
      response_is_ack (read_script 8 i).1 = false ∧
      never_acks n' (read_script 8 i).2
  end.

(** The pause before attempt number [retry], in milliseconds. *)
Definition backoff (retry : Z) : Z := Z.min (100 * 2 ^ retry) 2000.

(** The pauses of a chunk that is never acknowledged: one before each
    attempt but the first. *)
Definition backoff_schedule (max_retries : Z) : list Z :=
  backoff <$> seqZ 1 (max_retries - 1).


(** The 44-byte header of a 16000 Hz, mono, 16-bit PCM container with the
    two length fields given. *)
Definition wav_header44 (riff_size data_size : Z) : bytes :=
  RIFF ++ le_bytes 4 riff_size ++ WAVE
  ++ FMT_ ++ le_bytes 4 16 ++ le_bytes 2 1 ++ le_bytes 2 1
  ++ le_bytes 4 16000 ++ le_bytes 4 32000 ++ le_bytes 2 2 ++ le_bytes 2 16
  ++ DATA ++ le_bytes 4 data_size.

(** A header whose every field is the canonical one for a buffer of
    [total] bytes: PCM, mono, 16000 Hz, 16 bits, the rates that follow,
    and the two sizes computed from [total]. *)
Definition fields_consistent (total : Z) (w : bytes) : Prop :=
  wav_riff_size w = total - 8 ∧
  wav_fmt_size w = 16 ∧
  wav_format_tag w = 1 ∧
  wav_channels w = 1 ∧
  wav_sample_rate w = 16000 ∧
  wav_byte_rate w = 16000 * 1 * 2 ∧
  wav_block_align w = 1 * 2 ∧
  wav_bits_per_sample w = 16 ∧
  wav_data_size w = total - 44.


(** The payload cut into consecutive pieces of [size] bytes, the last one
    possibly shorter; [fuel] bounds the number of pieces. *)
Fixpoint chunks_upto (fuel size : nat) (data : bytes) : list bytes :=
  match fuel with
  | O => []
  | S fuel' =>
      match data with
      | [] => []
      | _ :: _ => take size data :: chunks_upto fuel' size (drop size data)
      end
  end.

Definition chunks (size : nat) (data : bytes) : list bytes :=
  chunks_upto (length data) size data.

(** The frames of a list of pieces as they go on the wire, one buffer per
    write: header, sequence number, payload; the sequence numbers run on
    from [seq], and the type is DataEnd on the last piece and Data on the
    others. *)
Fixpoint frames (seq : Z) (pieces : list bytes) : list bytes :=
  match pieces with
  | [] => []
  | piece :: rest =>
      [default []
         (build_packet_header (Z.of_nat (length piece))
            (match rest with
             | [] => PACKET_TYPE_DATA_END
             | _ :: _ => PACKET_TYPE_DATA
             end)
            (calculate_checksum piece));
       be_bytes 2 seq;
       piece]
      ++ frames (seq + 1) rest
  end.

(** The size of a piece, as a number of list cells. *)
Definition max_piece : nat := Z.to_nat PACKET_MAX_SIZE.

(** A payload of two full pieces and five bytes more, and the two ends of
    a connection, for the examples. *)
Definition sample_payload : bytes := replicate (Z.to_nat (2 * 8192 + 5)) x07.
Definition server_end : addr := ("10.0.0.1"%string, 5000%N).
Definition satellite_end : addr := ("10.0.0.2"%string, 40000%N).

(** Two payload bytes that the running sums cannot tell apart: the same
    byte, or [0x00] against [0xFF]. *)
Definition ff_swap (a b : byte) : Prop :=
  a = b ∨ (a = x00 ∧ b = xff) ∨ (a = xff ∧ b = x00).

(** The incoming script after [n] waits of the sender for a response
    header. *)
Fixpoint after_waits (n : nat) (i : list rx) : list rx :=
  match n with
  | O => i
  | S n' => after_waits n' (read_script 8 i).2
  end.

(** The steps of [handle_connection_improved] between the receipt of the
    data and the call of the sender: the repair of the received data when
    it fails [verify_wav_format], the choice of the reply by mode, and the
    repair of the reply when it fails [verify_wav_format].  [None] is an
    exception. *)
Definition prepare_reply (e : env) (received_data : bytes) : option bytes :=
  received_data ←
    (if negb (verify_wav_format received_data)
     then ensure_valid_wav_format received_data
     else Some received_data);
  reply_bytes ←
    (if ECHO_MODE e then process_audio received_data
     else match REPLY_WAV e with
          | ReplyContent content => Some content
          | ReplyUnreadable => None
          | ReplyMissing => make_silent_wav 16000 250
          end);
  if negb (verify_wav_format reply_bytes)
  then ensure_valid_wav_format reply_bytes
  else Some reply_bytes.

(** * Properties *)

(** ** Bytes and fixed-width fields *)

Lemma byte_val_range b : 0 <= byte_val b < 256.
Proof.
  unfold byte_val. pose proof (Byte.to_N_bounded b) as Hb.
  split; [apply N2Z.is_nonneg | lia].
Qed.

Lemma byte_val_of z : byte_val (byte_of z) = z mod 256.
Proof.
  unfold byte_val, byte_of.
  assert (Hr : 0 <= z mod 256 < 256) by (apply Z.mod_pos_bound; lia).
  destruct (Byte.of_N (Z.to_N (z mod 256))) as [b|] eqn:E; simpl.
  - apply Byte.to_of_N in E. rewrite E. lia.
  - apply Byte.of_N_None_iff in E. lia.
Qed.

Lemma le_bytes_length n v : length (le_bytes n v) = n.
Proof. revert v; induction n as [|n IH]; intros v; simpl; [done | by rewrite IH]. Qed.

Lemma be_bytes_length n v : length (be_bytes n v) = n.
Proof. unfold be_bytes. by rewrite length_reverse, le_bytes_length. Qed.

Lemma le_value_le_bytes n v :
  0 <= v < 256 ^ Z.of_nat n → le_value (le_bytes n v) = v.
Proof.
  revert v; induction n as [|n IH]; intros v Hv.
  - simpl in *. lia.
  - cbn [le_bytes le_value]. rewrite byte_val_of, IH.
    + pose proof (Z.div_mod v 256). lia.
    + rewrite Nat2Z.inj_succ, Z.pow_succ_r in Hv by lia.
      split; [apply Z.div_pos; lia | apply Z.div_lt_upper_bound; lia].
Qed.

Lemma be_value_be_bytes n v :
  0 <= v < 256 ^ Z.of_nat n → be_value (be_bytes n v) = v.
Proof.
  intros Hv. unfold be_value, be_bytes.
  rewrite reverse_involutive. by apply le_value_le_bytes.
Qed.

Lemma le_value_range bs : 0 <= le_value bs < 256 ^ Z.of_nat (length bs).
Proof.
  induction bs as [|b bs IH]; [simpl; lia|].
  cbn [le_value length]. rewrite Nat2Z.inj_succ, Z.pow_succ_r by lia.
  pose proof (byte_val_range b). lia.
Qed.

Lemma pack_le_Some n v :
  0 <= v < 256 ^ Z.of_nat n → pack_le n v = Some (le_bytes n v).
Proof. intros Hv. unfold pack_le. by rewrite bool_decide_eq_true_2. Qed.

Lemma pack_be_Some n v :
  0 <= v < 256 ^ Z.of_nat n → pack_be n v = Some (be_bytes n v).
Proof. intros Hv. unfold pack_be. by rewrite bool_decide_eq_true_2. Qed.

Lemma pack_be_inv n v bs :
  pack_be n v = Some bs →
  0 <= v < 256 ^ Z.of_nat n ∧ bs = be_bytes n v.
Proof.
  unfold pack_be. destruct (bool_decide_reflect (0 <= v < 256 ^ Z.of_nat n));
    intros [= <-]; done.
Qed.

Lemma pack_be_value n v bs :
  pack_be n v = Some bs → length bs = n ∧ be_value bs = v.
Proof.
  intros [Hv ->]%pack_be_inv. split;
    [apply be_bytes_length | by apply be_value_be_bytes].
Qed.

(** ** Checksum *)

Lemma checksum_loop_fold data sum1 sum2 :
  checksum_loop data sum1 sum2 = fold_left reference_step data (sum1, sum2).
Proof.
  revert sum1 sum2; induction data as [|b data IH]; intros sum1 sum2;
    [reflexivity|].
  cbn [checksum_loop fold_left]. by rewrite IH.
Qed.

Lemma checksum_loop_range data sum1 sum2 :
  0 <= sum1 < 255 → 0 <= sum2 < 255 →
  0 <= (checksum_loop data sum1 sum2).1 < 255 ∧
  0 <= (checksum_loop data sum1 sum2).2 < 255.
Proof.
  revert sum1 sum2; induction data as [|b data IH]; intros sum1 sum2 H1 H2;
    [done|].
  cbn [checksum_loop]. apply IH; apply Z.mod_pos_bound; lia.
Qed.

(** The checksum always fits the 16-bit field of the header. *)
Lemma calculate_checksum_range data : 0 <= calculate_checksum data < 65536.
Proof.
  unfold calculate_checksum.
  pose proof (checksum_loop_range data 0 0 ltac:(lia) ltac:(lia)) as [H1 H2].
  destruct (checksum_loop data 0 0) as [sum1 sum2]; simpl in *.
  rewrite Z.shiftl_mul_pow2 by lia.
  split.
  - apply Z.lor_nonneg. lia.
  - assert (Hlor : Z.lor (sum2 * 2 ^ 8) sum1 < 2 ^ 16); [|lia].
    destruct (decide (Z.lor (sum2 * 2 ^ 8) sum1 = 0)) as [->|Hne]; [lia|].
    apply Z.log2_lt_pow2; [pose proof (Z.lor_nonneg (sum2 * 2 ^ 8) sum1); lia|].
    rewrite Z.log2_lor by lia.
    apply Z.max_lub_lt.
    + destruct (decide (sum2 = 0)) as [->|]; [simpl; lia|].
      apply Z.log2_lt_pow2; lia.
    + destruct (decide (sum1 = 0)) as [->|]; [simpl; lia|].
      apply Z.log2_lt_pow2; lia.
Qed.

(** C1. For every byte sequence, [calculate_checksum] equals the reference
    fold (both sums seeded at 0; for each byte in order
    [sum1 = (sum1 + b) mod 255] and [sum2 = (sum2 + sum1) mod 255]; result
    [(sum2 << 8) | sum1]); the checksum of the empty payload is 0 and that
    of the one-byte payload [0x01] is [0x0101]. *)
Theorem calculate_checksum_reference :
  (∀ p : bytes, calculate_checksum p = reference_checksum p) ∧
  calculate_checksum [] = 0 ∧
  calculate_checksum [x01] = 0x0101.
Proof.
  split; [|split; reflexivity].
  intros p. unfold calculate_checksum, reference_checksum.
  rewrite checksum_loop_fold.
  by destruct (fold_left reference_step p (0, 0)).
Qed.

(** ** Packet headers *)

(** Bounds of fixed-width fields, with the width computed. *)
Ltac field_width :=
  repeat match goal with
  | |- context [256 ^ Z.of_nat ?n] =>
      let v := eval vm_compute in (256 ^ Z.of_nat n) in
      change (256 ^ Z.of_nat n) with v
  end;
  unfold PROTOCOL_VERSION, PACKET_MAX_SIZE in *; lia.

Lemma parse_build l t c h :
  build_packet_header l t c = Some h →
  length h = 8%nat ∧
  parse_packet_header h = Some (HeaderInfo l PROTOCOL_VERSION t c).
Proof.
  unfold build_packet_header. intros Hb.
  destruct (pack_be 4 l) as [b1|] eqn:E1; [|done].
  destruct (pack_be 1 PROTOCOL_VERSION) as [b2|] eqn:E2; [|done].
  destruct (pack_be 1 t) as [b3|] eqn:E3; [|done].
  destruct (pack_be 2 c) as [b4|] eqn:E4; [|done].
  simpl in Hb. injection Hb as <-.
  apply pack_be_value in E1 as [L1 V1], E2 as [L2 V2], E3 as [L3 V3],
    E4 as [L4 V4].
  destruct b1 as [|x0 [|x1 [|x2 [|x3 [|]]]]]; try done.
  destruct b2 as [|x4 [|]]; try done.
  destruct b3 as [|x5 [|]]; try done.
  destruct b4 as [|x6 [|x7 [|]]]; try done.
  split; [done|].
  unfold parse_packet_header. cbn [app length take drop].
  rewrite bool_decide_eq_false_2 by (unfold PACKET_HEADER_SIZE; lia).
  rewrite V1, V2, V3, V4.
  by rewrite bool_decide_eq_false_2 by auto.
Qed.

Lemma build_packet_header_Some l t c :
  0 <= l < 2 ^ 32 → 0 <= t < 256 → 0 <= c < 65536 →
  is_Some (build_packet_header l t c).
Proof.
  intros Hl Ht Hc. unfold build_packet_header.
  rewrite !pack_be_Some; [eauto | field_width ..].
Qed.

Lemma parse_version header h :
  parse_packet_header header = Some h →
  length header = 8%nat ∧ h_version h = PROTOCOL_VERSION.
Proof.
  unfold parse_packet_header.
  destruct (bool_decide_reflect (length header ≠ PACKET_HEADER_SIZE)) as [|Hl];
    [done|].
  destruct (bool_decide_reflect
              (be_value (take 1 (drop 4 header)) ≠ PROTOCOL_VERSION)) as [|Hv];
    [done|].
  intros [= <-]. simpl. split.
  - destruct (decide (length header = PACKET_HEADER_SIZE)); done.
  - destruct (decide (be_value (take 1 (drop 4 header)) = PROTOCOL_VERSION));
      done.
Qed.

Lemma ack_header_parse :
  parse_packet_header ack_header = Some (HeaderInfo 0 1 PACKET_TYPE_ACK 0).
Proof. reflexivity. Qed.

Lemma nack_header_parse :
  parse_packet_header nack_header = Some (HeaderInfo 0 1 PACKET_TYPE_NACK 0).
Proof. reflexivity. Qed.

(** ** Reading from the script *)

Lemma read_script_app bs rest :
  read_script (length bs) (rx_bytes bs ++ rest) = (Some bs, rest).
Proof.
  induction bs as [|b bs IH]; [reflexivity|].
  cbn [length rx_bytes fmap list_fmap app read_script].
  fold (rx_bytes bs). by rewrite IH.
Qed.

Lemma read_script_Some n i bs rest :
  read_script n i = (Some bs, rest) →
  i = rx_bytes bs ++ rest ∧ length bs = n.
Proof.
  revert i bs; induction n as [|n IH]; intros i bs; cbn [read_script].
  - by intros [= <- <-].
  - destruct i as [|[b|] i]; try done.
    destruct (read_script n i) as [[r|] rest'] eqn:E; simpl; [|done].
    intros [= <- <-]. apply IH in E as [-> <-]. done.
Qed.

Lemma read_script_length n i :
  (length (read_script n i).2 <= length i)%nat.
Proof.
  revert i; induction n as [|n IH]; intros i; cbn [read_script]; [done|].
  destruct i as [|[b|] i]; simpl; try lia.
  specialize (IH i). destruct (read_script n i); simpl in *. lia.
Qed.

Lemma read_exact_app c bs rest :
  inbox c = rx_bytes bs ++ rest →
  read_exact c (length bs) = (Some bs, set_inbox c rest).
Proof. intros Hi. unfold read_exact. by rewrite Hi, read_script_app. Qed.

Lemma read_exact_Some c n bs c' :
  read_exact c n = (Some bs, c') →
  inbox c = rx_bytes bs ++ inbox c' ∧ length bs = n ∧ c' = set_inbox c (inbox c').
Proof.
  unfold read_exact. destruct (read_script n (inbox c)) as [r i] eqn:E.
  intros [= -> <-]. apply read_script_Some in E as [-> <-]. done.
Qed.

(** A read only ever touches the incoming side. *)
Lemma read_exact_frame c n :
  tx_script (read_exact c n).2 = tx_script c ∧
  outbox (read_exact c n).2 = outbox c ∧
  slept (read_exact c n).2 = slept c ∧
  closed (read_exact c n).2 = closed c.
Proof. unfold read_exact. by destruct (read_script n (inbox c)). Qed.

Lemma rx_bytes_app a b : rx_bytes (a ++ b) = rx_bytes a ++ rx_bytes b.
Proof. apply fmap_app. Qed.

Lemma rx_bytes_length a : length (rx_bytes a) = length a.
Proof. apply length_fmap. Qed.

Lemma rx_bytes_inj a b : rx_bytes a = rx_bytes b → a = b.
Proof.
  revert b; induction a as [|x a IH]; intros [|y b]; try done.
  cbn. intros [= -> H]. f_equal. by apply IH.
Qed.

(** Two scripts that start with byte strings of one length agree on them. *)
Lemma rx_bytes_app_inj a b r s :
  length a = length b →
  rx_bytes a ++ r = rx_bytes b ++ s → a = b ∧ r = s.
Proof.
  intros Hl H. apply app_inj_1 in H as [H ->]; [|by rewrite !rx_bytes_length].
  split; [by apply rx_bytes_inj | done].
Qed.

(** ** Handshake *)

Lemma sendall_spec c data :
  sendall c data =
    (bool_decide (head (tx_script c) ≠ Some false),
     Conn (inbox c) (tail (tx_script c))
          (if bool_decide (head (tx_script c) ≠ Some false)
           then outbox c ++ [data] else outbox c)
          (slept c) (closed c)).
Proof. unfold sendall. by destruct (tx_script c) as [|[] s]. Qed.

(** A branch whose result is [False]. *)
Ltac off := cbn; intros [=].

Lemma handshake_true c a cs :
  (handle_handshake c a cs).1.1 = true →
  ∃ header payload h c1 c2 c3,
    read_exact c 8 = (Some header, c1) ∧
    parse_packet_header header = Some h ∧
    h_type h = PACKET_TYPE_HANDSHAKE ∧
    read_exact c1 (Z.to_nat (h_length h)) = (Some payload, c2) ∧
    calculate_checksum payload = h_checksum h ∧
    payload = expected_magic ∧
    send_ack (sleep c2 50) = (true, c3) ∧
    handle_handshake c a cs =
      (true, sleep c3 50, <[client_ip a := Session 0 0]> cs).
Proof.
  unfold handle_handshake, PACKET_HEADER_SIZE.
  destruct (read_exact c 8) as [[header|] c1] eqn:E1; [|off].
  destruct header as [|b0 header]; [off|]. cbn [falsy default from_option id].
  destruct (parse_packet_header (b0 :: header)) as [h|] eqn:Eh; [|off].
  cbv beta iota zeta.
  case_bool_decide as Ht; [off|].
  destruct (read_exact c1 (Z.to_nat (h_length h))) as [[payload|] c2] eqn:E2;
    [|off].
  cbv beta iota zeta. destruct payload as [|p0 payload]; [off|]. cbn [falsy default from_option id].
  case_bool_decide as Hc; [off|].
  case_bool_decide as Hm; [off|].
  destruct (send_ack (sleep c2 50)) as [[] c3] eqn:E3; [|off].
  intros _. exists (b0 :: header), (p0 :: payload), h, c1, c2, c3.
  repeat split; try done.
Qed.

Lemma handshake_false_trace c a cs :
  (handle_handshake c a cs).1.1 = false →
  outbox (handle_handshake c a cs).1.2 = outbox c.
Proof.
  unfold handle_handshake, PACKET_HEADER_SIZE.
  pose proof (read_exact_frame c 8) as (_ & Ho1 & _).
  destruct (read_exact c 8) as [[header|] c1] eqn:E1; [|done].
  destruct header as [|b0 header]; [done|].
  cbn [falsy default from_option id].
  destruct (parse_packet_header (b0 :: header)) as [h|] eqn:Eh; [|done].
  cbv beta iota zeta. case_bool_decide as Ht; [done|].
  pose proof (read_exact_frame c1 (Z.to_nat (h_length h))) as (_ & Ho2 & _).
  destruct (read_exact c1 (Z.to_nat (h_length h))) as [[payload|] c2] eqn:E2;
    [|simpl in *; congruence].
  cbv beta iota zeta. destruct payload as [|p0 payload];
    [simpl in *; congruence|].
  cbn [falsy default from_option id].
  case_bool_decide as Hc; [simpl in *; congruence|].
  case_bool_decide as Hm; [simpl in *; congruence|].
  rewrite sendall_spec || unfold send_ack; rewrite ?sendall_spec.
  case_bool_decide; cbn in *; [intros [=]|]. intros _. congruence.
Qed.

Lemma handshake_cases c a cs :
  handshake_refused c a cs ∨ handshake_wellformed c.
Proof.
  unfold handshake_refused, handle_handshake, PACKET_HEADER_SIZE.
  pose proof (read_exact_frame c 8) as (Ht1 & Ho1 & _).
  destruct (read_exact c 8) as [[header|] c1] eqn:E1; [|left; eauto].
  destruct header as [|b0 header]; [left; eauto|].
  cbn [falsy default from_option id].
  destruct (parse_packet_header (b0 :: header)) as [h|] eqn:Eh; [|left; eauto].
  cbv beta iota zeta. case_bool_decide as Ht; [left; eauto|].
  pose proof (read_exact_frame c1 (Z.to_nat (h_length h))) as (Ht2 & Ho2 & _).
  destruct (read_exact c1 (Z.to_nat (h_length h))) as [[payload|] c2] eqn:E2;
    cbn in Ht1, Ho1, Ht2, Ho2;
    [|left; eexists; split; [done | split; congruence]].
  cbv beta iota zeta.
  destruct payload as [|p0 payload];
    [left; eexists; split; [done | split; congruence]|].
  cbn [falsy default from_option id].
  case_bool_decide as Hc; [left; eexists; split; [done | split; congruence]|].
  case_bool_decide as Hm; [left; eexists; split; [done | split; congruence]|].
  right.
  apply read_exact_Some in E1 as (Hi1 & Hl1 & _).
  apply read_exact_Some in E2 as (Hi2 & Hl2 & _).
  apply parse_version in Eh as Hv.
  exists (b0 :: header), (p0 :: payload), (inbox c2), h.
  rewrite Hi1, Hi2.
  destruct (decide (h_type h = PACKET_TYPE_HANDSHAKE)); [|done].
  destruct (decide (calculate_checksum (p0 :: payload) = h_checksum h)); [|done].
  destruct (decide (p0 :: payload = expected_magic)); [|done].
  destruct Hv as [Hl8 Hv]. repeat split; done.
Qed.

Lemma handshake_wellformed_run c a cs :
  handshake_wellformed c →
  ∃ c', handle_handshake c a cs =
          (bool_decide (writable c), c', <[client_ip a := Session 0 0]> cs) ∧
        outbox c' =
          (if bool_decide (writable c) then outbox c ++ [ack_header]
           else outbox c).
Proof.
  intros (header & payload & rest & h & Hi & Hl & Hp & Hv & Ht & Hn & Hc & Hm).
  unfold handle_handshake, PACKET_HEADER_SIZE.
  replace (read_exact c 8) with (read_exact c (length header))
    by (by rewrite Hl).
  rewrite (read_exact_app c header _ Hi).
  destruct header as [|b0 header]; [done|].
  cbn [falsy default from_option id]. rewrite Hp. cbv beta iota zeta.
  rewrite bool_decide_eq_false_2 by auto.
  rewrite <- Hn.
  rewrite (read_exact_app _ payload rest) by done.
  destruct payload as [|p0 payload]; [by subst|].
  cbn [falsy default from_option id].
  rewrite bool_decide_eq_false_2 by auto.
  rewrite bool_decide_eq_false_2 by auto.
  unfold send_ack. rewrite sendall_spec. cbn. unfold writable.
  case_bool_decide; cbn; eauto.
Qed.

(** C4. The handshake succeeds if and only if an 8-byte header is fully
    read and decodes with the fixed version and type Handshake, exactly the
    declared number of payload bytes is read, their checksum equals the
    header's, the payload is the magic [A5 5A B2 2B], and the zero-length
    Ack is sent; on success the session of the connection holds
    [send = 0] and [receive = 0] and the Ack is what was written.
    Altering any single byte of the magic, under any header and so any
    checksum, and a short read of the header or of the payload, are refused
    in one and the same way. *)
Theorem handshake_correct :
  (∀ c a cs, (handle_handshake c a cs).1.1 = true ↔ handshake_accepted c) ∧
  (∀ c a cs, (handle_handshake c a cs).1.1 = true →
     (handle_handshake c a cs).2 !! client_ip a = Some (Session 0 0) ∧
     outbox (handle_handshake c a cs).1.2 = outbox c ++ [ack_header]) ∧
  (∀ c a cs header (i : nat) b rest,
     length header = 8%nat →
     (i < 4)%nat → expected_magic !! i ≠ Some b →
     inbox c = rx_bytes header ++ rx_bytes (<[i:=b]> expected_magic) ++ rest →
     handshake_refused c a cs) ∧
  (∀ c a cs, (read_exact c 8).1 = None → handshake_refused c a cs) ∧
  (∀ c a cs header h c1,
     read_exact c 8 = (Some header, c1) →
     parse_packet_header header = Some h →
     (read_exact c1 (Z.to_nat (h_length h))).1 = None →
     handshake_refused c a cs).
Proof.
  assert (Hrun : ∀ c a cs, (handle_handshake c a cs).1.1 = true →
            handshake_accepted c).
  { intros c a cs Ht.
    destruct (handshake_cases c a cs) as [(c' & Hr & _)|Hw].
    - rewrite Hr in Ht. done.
    - split; [done|].
      destruct (handshake_wellformed_run c a cs Hw) as (c' & Hr & _).
      rewrite Hr in Ht. cbn in Ht. by apply bool_decide_eq_true_1 in Ht. }
  split; [|split; [|split; [|split]]].
  - intros c a cs. split; [apply Hrun|].
    intros [Hw Hx].
    destruct (handshake_wellformed_run c a cs Hw) as (c' & -> & _).
    cbn. by apply bool_decide_eq_true_2.
  - intros c a cs Ht. destruct (Hrun c a cs Ht) as [Hw Hx].
    destruct (handshake_wellformed_run c a cs Hw) as (c' & -> & Ho).
    cbn. rewrite bool_decide_eq_true_2 in Ho by done.
    split; [apply lookup_insert_eq | done].
  - intros c a cs header i b rest Hl Hi Hb Hin.
    destruct (handshake_cases c a cs) as [|Hw]; [done|].
    destruct Hw as (header' & payload & rest' & h & Hin' & Hl' & _ & _ & _ &
                    _ & _ & ->).
    rewrite Hin in Hin'.
    apply rx_bytes_app_inj in Hin' as [_ Hp]; [|congruence].
    apply rx_bytes_app_inj in Hp as [Hp _]; [|by rewrite length_insert].
    exfalso. apply Hb. rewrite <- Hp.
    apply list_lookup_insert_eq. done.
  - intros c a cs Hs.
    destruct (handshake_cases c a cs) as [|Hw]; [done|].
    destruct Hw as (header & payload & rest & h & Hin & Hl & _).
    rewrite <- Hl, (read_exact_app c header _ Hin) in Hs. done.
  - intros c a cs header h c1 E1 Hp Hs.
    destruct (handshake_cases c a cs) as [|Hw]; [done|].
    destruct Hw as (header' & payload & rest & h' & Hin & Hl & Hp' & _ & _ &
                    Hn & _).
    pose proof (read_exact_app c header' _ Hin) as E1'.
    rewrite Hl, E1 in E1'. injection E1' as -> ->.
    assert (h' = h) as -> by congruence.
    rewrite <- Hn, (read_exact_app _ payload rest) in Hs by done. done.
Qed.

(** A client that opens with the magic under its checksum, on a link that
    takes the Ack, is accepted. *)
Example handshake_accepts_magic :
  handle_handshake
    (Conn (rx_bytes ([x00; x00; x00; x04; x01; x01; x36; xdd] ++ expected_magic))
          [] [] [] false)
    ("10.0.0.2"%string, 5000%N) ∅
  = (true,
     Conn [] [] [ack_header] [50; 50] false,
     {[ "10.0.0.2:5000"%string := Session 0 0 ]}).
Proof. vm_compute. reflexivity. Qed.

(** ** Receiver *)

Lemma set_inbox_twice c i j : set_inbox (set_inbox c i) j = set_inbox c j.
Proof. reflexivity. Qed.

Lemma receive_body_oversize ip max_size st hdr h rest :
  inbox (r_conn st) = rx_bytes hdr ++ rest →
  parse_packet_header hdr = Some h →
  h_length h > PACKET_MAX_SIZE ∨
    Z.of_nat (length (received_data st)) + h_length h > max_size →
  ∃ st', receive_body ip max_size st = (Return None, st') ∧ nacked st st' rest.
Proof.
  intros Hi Hp Hbig. unfold receive_body, PACKET_HEADER_SIZE, send_nack.
  apply parse_version in Hp as Hl. destruct Hl as [Hl _].
  rewrite <- Hl, (read_exact_app _ hdr rest Hi).
  destruct hdr as [|b0 hdr]; [done|].
  cbn [falsy default from_option id]. rewrite Hp. cbv beta iota zeta.
  case_bool_decide.
  - destruct (sendall _ nack_header) as [ok c'] eqn:E.
    eexists; split; [done|]. unfold nacked. cbn. by rewrite E.
  - rewrite bool_decide_eq_true_2 by lia.
    destruct (sendall _ nack_header) as [ok c'] eqn:E.
    eexists; split; [done|]. unfold nacked. cbn. by rewrite E.
Qed.

Lemma receive_body_out_of_order ip max_size st hdr seqb h rest :
  inbox (r_conn st) = rx_bytes hdr ++ rx_bytes seqb ++ rest →
  parse_packet_header hdr = Some h →
  length seqb = 2%nat →
  h_length h <= PACKET_MAX_SIZE →
  Z.of_nat (length (received_data st)) + h_length h <= max_size →
  be_value seqb ≠ receive_sequence st →
  ∃ st', receive_body ip max_size st = (Continue, st') ∧ nacked st st' rest.
Proof.
  intros Hi Hp Hs Hl1 Hl2 Hne. unfold receive_body, PACKET_HEADER_SIZE, send_nack.
  apply parse_version in Hp as Hl. destruct Hl as [Hl _].
  rewrite <- Hl, (read_exact_app _ hdr _ Hi).
  destruct hdr as [|b0 hdr]; [done|].
  cbn [falsy default from_option id]. rewrite Hp. cbv beta iota zeta.
  rewrite !bool_decide_eq_false_2 by lia.
  rewrite <- Hs, (read_exact_app _ seqb rest) by done.
  destruct seqb as [|s0 seqb]; [done|].
  cbn [falsy default from_option id].
  rewrite bool_decide_eq_true_2 by done. rewrite !set_inbox_twice.
  destruct (sendall _ nack_header) as [ok c'] eqn:E.
  eexists; split; [done|]. unfold nacked. cbn. by rewrite E.
Qed.

Lemma receive_body_bad_checksum ip max_size st hdr seqb payload h rest :
  inbox (r_conn st) = rx_bytes hdr ++ rx_bytes seqb ++ rx_bytes payload ++ rest →
  parse_packet_header hdr = Some h →
  length seqb = 2%nat →
  h_length h <= PACKET_MAX_SIZE →
  Z.of_nat (length (received_data st)) + h_length h <= max_size →
  be_value seqb = receive_sequence st →
  length payload = Z.to_nat (h_length h) →
  calculate_checksum payload ≠ h_checksum h →
  ∃ st', receive_body ip max_size st =
           (if decide (payload = []) then Return None else Continue, st') ∧
         nacked st st' rest.
Proof.
  intros Hi Hp Hs Hl1 Hl2 Hseq Hn Hne.
  unfold receive_body, PACKET_HEADER_SIZE, send_nack.
  apply parse_version in Hp as Hl. destruct Hl as [Hl _].
  rewrite <- Hl, (read_exact_app _ hdr _ Hi).
  destruct hdr as [|b0 hdr]; [done|].
  cbn [falsy default from_option id]. rewrite Hp. cbv beta iota zeta.
  rewrite !bool_decide_eq_false_2 by lia.
  rewrite <- Hs, (read_exact_app _ seqb (rx_bytes payload ++ rest)) by done.
  destruct seqb as [|s0 seqb]; [done|].
  cbn [falsy default from_option id].
  rewrite bool_decide_eq_false_2 by auto.
  rewrite <- Hn, (read_exact_app _ payload rest) by done.
  rewrite !set_inbox_twice.
  destruct payload as [|p0 payload]; cbn [falsy default from_option id].
  - destruct (sendall _ nack_header) as [ok c'] eqn:E.
    eexists; split; [done|]. unfold nacked. cbn. by rewrite E.
  - rewrite bool_decide_eq_true_2 by done.
    destruct (sendall _ nack_header) as [ok c'] eqn:E.
    eexists; split; [done|]. unfold nacked. cbn. by rewrite E.
Qed.

(** Case analysis along the branches of a loop body. *)
Ltac branch :=
  match goal with
  | |- context [match ?x with _ => _ end] => destruct x eqn:?
  end.

Lemma read_exact_outbox c n r c' :
  read_exact c n = (r, c') → outbox c' = outbox c.
Proof.
  intros H. pose proof (read_exact_frame c n) as (_ & Ho & _).
  by rewrite H in Ho.
Qed.

Lemma receive_body_moves ip max_size st f st' :
  receive_body ip max_size st = (f, st') →
  unmoved st st' ∨ ∃ chunk, acked ip st st' chunk.
Proof.
  unfold receive_body, send_nack, send_ack.
  repeat (branch; cbv beta iota zeta);
    intros [= <- <-]; try (left; done).
  all: right; eexists; unfold acked; cbn.
  all: repeat match goal with
       | H : read_exact _ _ = _ |- _ => apply read_exact_outbox in H
       end.
  all: match goal with
       | H : sendall ?c _ = (?ok, _), N : negb ?ok = false |- _ =>
           rewrite sendall_spec in H; destruct ok; [|done];
           injection H as Hw <-; rewrite Hw; cbn
       end.
  all: split; [congruence | done].
Qed.

Lemma read_exact_inbox_le c n r c' :
  read_exact c n = (r, c') → (length (inbox c') <= length (inbox c))%nat.
Proof.
  unfold read_exact. pose proof (read_script_length n (inbox c)) as Hl.
  destruct (read_script n (inbox c)). by intros [= <- <-].
Qed.

Lemma read_exact_inbox_lt c n r c' :
  read_exact c n = (r, c') → falsy r = false →
  (length (inbox c') < length (inbox c))%nat.
Proof.
  intros H Hf. destruct r as [[|b bs]|]; try done.
  apply read_exact_Some in H as (-> & _ & _).
  rewrite length_app, rx_bytes_length. simpl. lia.
Qed.

Lemma sendall_inbox c data : inbox (sendall c data).2 = inbox c.
Proof. rewrite sendall_spec. reflexivity. Qed.

(** An iteration that goes round again has consumed part of the script. *)
Lemma receive_body_progress ip max_size st st' :
  receive_body ip max_size st = (Continue, st') →
  (length (inbox (r_conn st')) < length (inbox (r_conn st)))%nat.
Proof.
  unfold receive_body, send_nack, send_ack.
  repeat (branch; cbv beta iota zeta); intros [= <-]; cbn.
  all: repeat match goal with
       | H : sendall ?c ?d = _ |- _ =>
           apply (f_equal (λ p, length (inbox p.2))) in H;
           rewrite sendall_inbox in H; cbn in H
       end.
  all: match goal with
       | H : read_exact (r_conn _) _ = (?o, _), F : falsy ?o = false |- _ =>
           apply read_exact_inbox_lt in H; [|exact F]
       end.
  all: repeat match goal with
       | H : read_exact _ _ = _ |- _ => apply read_exact_inbox_le in H
       end.
  all: lia.
Qed.

(** The loop of the receiver always comes to an end, and within the bound
    that [receive_data_with_verification] gives it. *)
Lemma receive_loop_total fuel ip max_size st :
  (length (inbox (r_conn st)) < fuel)%nat →
  ∃ r st', receive_loop fuel ip max_size st = Some (r, st').
Proof.
  revert st; induction fuel as [|fuel IH]; intros st Hf; [lia|].
  cbn [receive_loop].
  destruct (receive_body ip max_size st) as [[|r] st'] eqn:E; [|eauto].
  apply receive_body_progress in E. apply IH. lia.
Qed.

Lemma receive_data_with_verification_loop c a max_size cs :
  ∃ st',
    receive_loop (S (length (inbox c))) (client_ip a) max_size
      (RecvState c (ensure_session (client_ip a) cs)
         (get_receive (client_ip a) (ensure_session (client_ip a) cs)) [])
    = Some ((receive_data_with_verification c a max_size cs).1.1, st') ∧
    (receive_data_with_verification c a max_size cs).1.2 = r_conn st' ∧
    (receive_data_with_verification c a max_size cs).2 = r_sessions st'.
Proof.
  unfold receive_data_with_verification.
  edestruct (receive_loop_total (S (length (inbox c))) (client_ip a) max_size)
    as (r & st' & ->); [|eauto].
  simpl. lia.
Qed.

(** More fuel never changes the outcome of the loop. *)
Lemma receive_loop_more fuel fuel' ip max_size st r :
  receive_loop fuel ip max_size st = Some r →
  (fuel <= fuel')%nat →
  receive_loop fuel' ip max_size st = Some r.
Proof.
  revert fuel' st; induction fuel as [|fuel IH]; intros fuel' st; [done|].
  intros H Hle. destruct fuel' as [|fuel']; [lia|].
  cbn [receive_loop] in *.
  destruct (receive_body ip max_size st) as [[|r'] st']; [|done].
  apply IH; [done | lia].
Qed.

Lemma sendall_writable c data :
  writable c → sendall c data =
    (true, Conn (inbox c) (tail (tx_script c)) (outbox c ++ [data])
                (slept c) (closed c)).
Proof.
  intros Hw. rewrite sendall_spec. unfold writable in Hw.
  by rewrite bool_decide_eq_true_2.
Qed.

(** An in-order, intact frame on a connection that takes the next write
    is accepted: one iteration, whatever the rest of the write script. *)
Lemma receive_body_accepts_writable ip max_size st hdr seqb payload h rest :
  inbox (r_conn st) = rx_bytes hdr ++ rx_bytes seqb ++ rx_bytes payload ++ rest →
  writable (r_conn st) →
  parse_packet_header hdr = Some h →
  length seqb = 2%nat →
  h_length h <= PACKET_MAX_SIZE →
  Z.of_nat (length (received_data st)) + h_length h <= max_size →
  be_value seqb = receive_sequence st →
  length payload = Z.to_nat (h_length h) →
  payload ≠ [] →
  calculate_checksum payload = h_checksum h →
  receive_body ip max_size st =
    (if bool_decide (h_type h = PACKET_TYPE_DATA_END)
     then Return (Some (received_data st ++ payload)) else Continue,
     RecvState
       (Conn rest (tail (tx_script (r_conn st)))
             (outbox (r_conn st) ++ [ack_header])
             (slept (r_conn st)) (closed (r_conn st)))
       (set_receive ip (receive_sequence st + 1) (r_sessions st))
       (receive_sequence st + 1)
       (received_data st ++ payload)).
Proof.
  intros Hi Hw Hp Hs Hl1 Hl2 Hseq Hn Hne Hck.
  unfold receive_body, PACKET_HEADER_SIZE, send_ack.
  apply parse_version in Hp as Hl. destruct Hl as [Hl _].
  rewrite <- Hl, (read_exact_app _ hdr _ Hi).
  destruct hdr as [|b0 hdr]; [done|].
  cbn [falsy default from_option id]. rewrite Hp. cbv beta iota zeta.
  rewrite !bool_decide_eq_false_2 by lia.
  rewrite <- Hs, (read_exact_app _ seqb (rx_bytes payload ++ rest)) by done.
  destruct seqb as [|s0 seqb]; [done|].
  cbn [falsy default from_option id].
  rewrite bool_decide_eq_false_2 by auto.
  rewrite <- Hn, (read_exact_app _ payload rest) by done.
  rewrite !set_inbox_twice.
  destruct payload as [|p0 payload]; [done|].
  cbn [falsy default from_option id].
  rewrite bool_decide_eq_false_2 by auto.
  rewrite sendall_writable by done. cbn [negb].
  cbn [set_inbox inbox tx_script outbox slept closed].
  by case_bool_decide.
Qed.

(** What one iteration does to the sequence number, seen from outside:
    either nothing moves and no Ack is written (at most a Nack), or exactly
    one Ack is written, a non-empty payload is appended, and the sequence
    number, in the loop and in the client's entry of the session table, is
    the old one plus one; no other entry of the table changes. *)
Lemma receive_body_in_step ip max_size st f st' s :
  receive_body ip max_size st = (f, st') →
  r_sessions st !! ip = Some s →
  (unmoved st st' ∧
   (outbox (r_conn st') = outbox (r_conn st) ∨
    outbox (r_conn st') = outbox (r_conn st) ++ [nack_header]))
  ∨ (outbox (r_conn st') = outbox (r_conn st) ++ [ack_header] ∧
     receive_sequence st' = receive_sequence st + 1 ∧
     (∃ chunk, chunk ≠ [] ∧
               received_data st' = received_data st ++ chunk) ∧
     r_sessions st' !! ip
       = Some (Session (send s) (receive_sequence st + 1)) ∧
     ∀ ip', ip' ≠ ip → r_sessions st' !! ip' = r_sessions st !! ip').
Proof.
  intros Hrun Hs. revert Hrun.
  unfold receive_body, send_nack, send_ack.
  repeat (branch; cbv beta iota zeta);
    intros [= <- <-]; cbn [r_conn r_sessions receive_sequence received_data].
  all: repeat match goal with
       | H : read_exact _ _ = _ |- _ => apply read_exact_outbox in H
       end.
  all: repeat match goal with
       | H : sendall _ _ = (_, _) |- _ =>
           rewrite sendall_spec in H; injection H as H <-;
           cbn [outbox]
       end.
  all: try match goal with
       | H : bool_decide _ = ?ok, N : negb ?ok = _ |- _ =>
           destruct ok; try done; rewrite H
       end.
  all: try (left; split; [done|];
            first [ left; congruence
                  | case_bool_decide; [right | left]; congruence ]).
  all: right.
  all: split; [congruence|]; split; [done|].
  all: split;
         [eexists; split; [|reflexivity];
          match goal with
          | H : falsy ?o = false |- _ ≠ [] =>
              destruct o as [[|]|]; done
          end|].
  all: unfold set_receive; split;
         [by rewrite lookup_alter_eq, Hs
         | intros ip' Hne; by apply lookup_alter_ne].
Qed.

(** C2. In the receiver loop, a frame whose declared length exceeds the
    maximum frame size (or would take the transfer past its maximum size),
    whose sequence number differs from the expected
    [receive_sequence], or whose payload does not match the checksum of its
    header, is answered with a Nack and leaves [receive_sequence], in the
    loop and in the session table, where it was.  A frame in sequence whose
    payload matches its checksum is accepted when the Ack can be written:
    the Ack goes out, the payload is appended, and [receive_sequence], in
    the loop and in the client's entry of the session table, is one more
    than before.  And no iteration moves [receive_sequence] in any other
    way: either it is left where it was and no Ack is written, or it is
    one more than before, with exactly one Ack written and a non-empty
    payload appended. *)
Theorem receiver_holds_sequence :
  (∀ ip max_size st hdr h rest,
     inbox (r_conn st) = rx_bytes hdr ++ rest →
     parse_packet_header hdr = Some h →
     h_length h > PACKET_MAX_SIZE ∨
       Z.of_nat (length (received_data st)) + h_length h > max_size →
     ∃ st', receive_body ip max_size st = (Return None, st') ∧
            nacked st st' rest) ∧
  (∀ ip max_size st hdr seqb h rest,
     inbox (r_conn st) = rx_bytes hdr ++ rx_bytes seqb ++ rest →
     parse_packet_header hdr = Some h →
     length seqb = 2%nat →
     h_length h <= PACKET_MAX_SIZE →
     Z.of_nat (length (received_data st)) + h_length h <= max_size →
     be_value seqb ≠ receive_sequence st →
     ∃ st', receive_body ip max_size st = (Continue, st') ∧
            nacked st st' rest) ∧
  (∀ ip max_size st hdr seqb payload h rest,
     inbox (r_conn st)
       = rx_bytes hdr ++ rx_bytes seqb ++ rx_bytes payload ++ rest →
     parse_packet_header hdr = Some h →
     length seqb = 2%nat →
     h_length h <= PACKET_MAX_SIZE →
     Z.of_nat (length (received_data st)) + h_length h <= max_size →
     be_value seqb = receive_sequence st →
     length payload = Z.to_nat (h_length h) →
     calculate_checksum payload ≠ h_checksum h →
     ∃ st', receive_body ip max_size st
              = (if decide (payload = []) then Return None else Continue, st') ∧
            nacked st st' rest) ∧
  (∀ ip max_size st hdr seqb payload h rest s,
     inbox (r_conn st)
       = rx_bytes hdr ++ rx_bytes seqb ++ rx_bytes payload ++ rest →
     parse_packet_header hdr = Some h →
     length seqb = 2%nat →
     h_length h <= PACKET_MAX_SIZE →
     Z.of_nat (length (received_data st)) + h_length h <= max_size →
     be_value seqb = receive_sequence st →
     length payload = Z.to_nat (h_length h) →
     payload ≠ [] →
     calculate_checksum payload = h_checksum h →
     writable (r_conn st) →
     r_sessions st !! ip = Some s →
     ∃ st', receive_body ip max_size st
              = (if bool_decide (h_type h = PACKET_TYPE_DATA_END)
                 then Return (Some (received_data st ++ payload))
                 else Continue, st') ∧
            inbox (r_conn st') = rest ∧
            outbox (r_conn st') = outbox (r_conn st) ++ [ack_header] ∧
            received_data st' = received_data st ++ payload ∧
            receive_sequence st' = receive_sequence st + 1 ∧
            r_sessions st' !! ip
              = Some (Session (send s) (receive_sequence st + 1)) ∧
            get_receive ip (r_sessions st') = receive_sequence st + 1) ∧
  (∀ ip max_size st f st',
     receive_body ip max_size st = (f, st') →
     unmoved st st' ∨ ∃ chunk, acked ip st st' chunk) ∧
  (∀ ip max_size st f st' s,
     receive_body ip max_size st = (f, st') →
     r_sessions st !! ip = Some s →
     (unmoved st st' ∧
      (outbox (r_conn st') = outbox (r_conn st) ∨
       outbox (r_conn st') = outbox (r_conn st) ++ [nack_header]))
     ∨ (outbox (r_conn st') = outbox (r_conn st) ++ [ack_header] ∧
        receive_sequence st' = receive_sequence st + 1 ∧
        (∃ chunk, chunk ≠ [] ∧
                  received_data st' = received_data st ++ chunk) ∧
        r_sessions st' !! ip
          = Some (Session (send s) (receive_sequence st + 1)) ∧
        ∀ ip', ip' ≠ ip → r_sessions st' !! ip' = r_sessions st !! ip')).
Proof.
  split; [|split; [|split; [|split; [|split]]]].
  - apply receive_body_oversize.
  - apply receive_body_out_of_order.
  - apply receive_body_bad_checksum.
  - intros ip max_size st hdr seqb payload h rest s
      Hi Hp Hs Hl1 Hl2 Hseq Hn Hne Hck Hw Hentry.
    eexists. split.
    { by apply (receive_body_accepts_writable ip max_size st hdr seqb
                  payload h rest). }
    cbn [r_conn r_sessions receive_sequence received_data inbox outbox].
    assert (Hlook : set_receive ip (receive_sequence st + 1) (r_sessions st)
                      !! ip
                    = Some (Session (send s) (receive_sequence st + 1)))
      by (unfold set_receive; by rewrite lookup_alter_eq, Hentry).
    repeat split; try done.
    unfold get_receive. by rewrite Hlook.
  - apply receive_body_moves.
  - apply receive_body_in_step.
Qed.

(** The last frame of a transfer, one byte long, in sequence at 4, with
    the entry of the client at [Session 2 4]. *)
Lemma receiver_holds_sequence_witness :
  ∃ st',
    receive_body (client_ip satellite_end) default_max_size
      (RecvState
         (Conn (rx_bytes [x00; x00; x00; x01; x01; x03; x07; x07]
                ++ rx_bytes [x00; x04] ++ rx_bytes [x07] ++ [RxFail])
               [true; false] [] [] false)
         {[ client_ip satellite_end := Session 2 4 ]} 4 [x01])
    = (if bool_decide (h_type (HeaderInfo 1 1 3 1799) = PACKET_TYPE_DATA_END)
       then Return (Some ([x01] ++ [x07])) else Continue, st') ∧
    inbox (r_conn st') = [RxFail] ∧
    outbox (r_conn st') = [] ++ [ack_header] ∧
    received_data st' = [x01] ++ [x07] ∧
    receive_sequence st' = 4 + 1 ∧
    r_sessions st' !! client_ip satellite_end
      = Some (Session (send (Session 2 4)) (4 + 1)) ∧
    get_receive (client_ip satellite_end) (r_sessions st') = 4 + 1.
Proof.
  apply (proj1 (proj2 (proj2 (proj2 receiver_holds_sequence)))
           (client_ip satellite_end) default_max_size
           (RecvState
              (Conn (rx_bytes [x00; x00; x00; x01; x01; x03; x07; x07]
                     ++ rx_bytes [x00; x04] ++ rx_bytes [x07] ++ [RxFail])
                    [true; false] [] [] false)
              {[ client_ip satellite_end := Session 2 4 ]} 4 [x01])
           [x00; x00; x00; x01; x01; x03; x07; x07] [x00; x04] [x07]
           (HeaderInfo 1 1 3 1799) [RxFail] (Session 2 4)).
  - reflexivity.
  - vm_compute. reflexivity.
  - reflexivity.
  - vm_compute. discriminate.
  - vm_compute. discriminate.
  - vm_compute. reflexivity.
  - reflexivity.
  - discriminate.
  - vm_compute. reflexivity.
  - vm_compute. discriminate.
  - vm_compute. reflexivity.
Defined.

(** C6. A frame whose header declares more than the maximum frame size, or
    that would take the accumulated total past the maximum transfer size, is
    turned down on its header alone: the loop ends at once with [None], a
    Nack is written, and the incoming side stands right after the header,
    none of the payload consumed; what had been accumulated is not
    returned. *)
Theorem oversize_frame_rejected fuel ip max_size st hdr h rest :
  inbox (r_conn st) = rx_bytes hdr ++ rest →
  parse_packet_header hdr = Some h →
  h_length h > PACKET_MAX_SIZE ∨
    Z.of_nat (length (received_data st)) + h_length h > max_size →
  ∃ st', receive_loop (S fuel) ip max_size st = Some (None, st') ∧
         nacked st st' rest ∧
         inbox (r_conn st') = rest ∧
         (writable (r_conn st) →
          outbox (r_conn st') = outbox (r_conn st) ++ [nack_header]).
Proof.
  intros Hi Hp Hbig.
  destruct (receive_body_oversize ip max_size st hdr h rest Hi Hp Hbig)
    as (st' & Hb & Hn).
  exists st'. cbn [receive_loop]. rewrite Hb.
  split; [done|]. split; [done|].
  destruct Hn as (Hc & _). rewrite Hc. split.
  - apply sendall_inbox.
  - intros Hw. by rewrite sendall_writable.
Qed.

(** A header that declares 9000 bytes, ahead of two bytes of payload: the
    frame is refused with the two bytes still to be read. *)
Lemma oversize_frame_rejected_witness :
  ∃ st',
    receive_loop 1 "10.0.0.2:5000" default_max_size
      (RecvState
         (Conn (rx_bytes [x00; x00; x23; x28; x01; x02; x00; x00]
                  ++ rx_bytes [x01; x02]) [] [] [] false)
         ∅ 0 [])
    = Some (None, st') ∧
    nacked
      (RecvState
         (Conn (rx_bytes [x00; x00; x23; x28; x01; x02; x00; x00]
                  ++ rx_bytes [x01; x02]) [] [] [] false)
         ∅ 0 [])
      st' (rx_bytes [x01; x02]) ∧
    inbox (r_conn st') = rx_bytes [x01; x02] ∧
    (writable (Conn (rx_bytes [x00; x00; x23; x28; x01; x02; x00; x00]
                       ++ rx_bytes [x01; x02]) [] [] [] false) →
     outbox (r_conn st') = [] ++ [nack_header]).
Proof.
  apply (oversize_frame_rejected 0 "10.0.0.2:5000" default_max_size
           (RecvState
              (Conn (rx_bytes [x00; x00; x23; x28; x01; x02; x00; x00]
                       ++ rx_bytes [x01; x02]) [] [] [] false)
              ∅ 0 [])
           [x00; x00; x23; x28; x01; x02; x00; x00]
           (HeaderInfo 9000 1 2 0)
           (rx_bytes [x01; x02])).
  - reflexivity.
  - reflexivity.
  - left. reflexivity.
Defined.

(** ** Sender *)

Lemma ensure_session_get_send ip cs :
  get_send ip (ensure_session ip cs) = get_send ip cs.
Proof.
  unfold ensure_session, get_send.
  destruct (cs !! ip) as [s|] eqn:E; cbn.
  - by rewrite E.
  - by rewrite lookup_insert_eq.
Qed.

Lemma ensure_session_present ip cs :
  is_Some (cs !! ip) → ensure_session ip cs = cs.
Proof. intros [s Hs]. unfold ensure_session. by rewrite Hs. Qed.

Lemma ensure_session_is_Some ip cs : is_Some (ensure_session ip cs !! ip).
Proof.
  unfold ensure_session. destruct (cs !! ip) eqn:E; [by rewrite E|].
  rewrite lookup_insert_eq. eauto.
Qed.

(** C10. For the empty payload the chunk loop of the sender runs no
    iteration: nothing is written on the connection and no write is
    attempted, neither a Data nor a DataEnd frame; the [send_sequence] of
    the session is what it was; and [True] is returned. *)
Theorem empty_payload_sends_nothing c a max_retries cs :
  (∀ fuel ip c' cs' seq,
     send_loop fuel ip [] max_retries c' cs' 0 seq = Some (SendTrue, c', cs')) ∧
  send_data_with_retries c a [] max_retries cs
    = (SendTrue, sleep c 200, ensure_session (client_ip a) cs) ∧
  outbox (send_data_with_retries c a [] max_retries cs).1.2 = outbox c ∧
  tx_script (send_data_with_retries c a [] max_retries cs).1.2 = tx_script c ∧
  get_send (client_ip a) (send_data_with_retries c a [] max_retries cs).2
    = get_send (client_ip a) cs ∧
  (send_data_with_retries c a [] max_retries cs).2 !! client_ip a
    = Some (default (Session 0 0) (cs !! client_ip a)).
Proof.
  assert (Hloop : ∀ fuel ip c' cs' seq,
    send_loop fuel ip [] max_retries c' cs' 0 seq = Some (SendTrue, c', cs')).
  { intros fuel ip c' cs' seq. by destruct fuel. }
  split; [exact Hloop|].
  unfold send_data_with_retries. cbn [length]. rewrite Hloop. cbn.
  repeat split.
  - apply ensure_session_get_send.
  - unfold ensure_session. destruct (cs !! client_ip a) eqn:E; cbn.
    + done.
    + apply lookup_insert_eq.
Qed.

(** The chunk loop always comes to an end, and within the bound that
    [send_data_with_retries] gives it. *)
Lemma send_loop_total fuel ip data max_retries c cs total_sent send_sequence :
  (length data - total_sent <= fuel)%nat →
  ∃ r, send_loop fuel ip data max_retries c cs total_sent send_sequence = Some r.
Proof.
  revert c cs total_sent send_sequence.
  induction fuel as [|fuel IH]; intros c cs total_sent send_sequence Hf;
    cbn [send_loop]; case_bool_decide as Hlt; eauto; [lia|].
  cbv zeta.
  destruct (build_packet_header _ _ _); [|eauto].
  destruct (pack_be 2 send_sequence); [|eauto].
  destruct (retry_loop _ _ _ _ _ _) as [[] c']; eauto.
  apply IH. unfold PACKET_MAX_SIZE. lia.
Qed.

Lemma send_data_with_retries_loop c a data max_retries cs :
  send_loop (length data) (client_ip a) data max_retries (sleep c 200)
    (ensure_session (client_ip a) cs) 0
    (get_send (client_ip a) (ensure_session (client_ip a) cs))
  = Some (send_data_with_retries c a data max_retries cs).
Proof.
  unfold send_data_with_retries.
  edestruct (send_loop_total (length data) (client_ip a) data max_retries)
    as [r ->]; [|done].
  lia.
Qed.

Lemma sendall_open c data :
  tx_script c = [] →
  sendall c data
    = (true, Conn (inbox c) [] (outbox c ++ [data]) (slept c) (closed c)).
Proof. intros Ht. unfold sendall. by rewrite Ht. Qed.

(** One attempt that is not acknowledged: the frame goes out, the wait is
    spent, and the loop carries on. *)
Lemma retry_loop_unacked n retry c header sequence_bytes chunk :
  tx_script c = [] →
  response_is_ack (read_script 8 (inbox c)).1 = false →
  retry_loop (S n) retry c header sequence_bytes chunk =
    match (if bool_decide (retry > 0) then sleep c <$> retry_delay retry
           else Some c) with
    | None => (AttemptRaised, c)
    | Some c =>
        retry_loop n (retry + 1)
          (Conn (read_script 8 (inbox c)).2 []
                (outbox c ++ [header; sequence_bytes; chunk])
                (slept c) (closed c))
          header sequence_bytes chunk
    end.
Proof.
  intros Ht Hr. cbn [retry_loop].
  assert (Hstep : ∀ c0, tx_script c0 = [] → inbox c0 = inbox c →
    (let next c := retry_loop n (retry + 1) c header sequence_bytes chunk in
     let '(ok, c) := sendall c0 header in
     if negb ok then next c else
     let '(ok, c) := sendall c sequence_bytes in
     if negb ok then next c else
     let '(ok, c) := sendall c chunk in
     if negb ok then next c else
     let '(ack_header, c) := read_exact c PACKET_HEADER_SIZE in
     if falsy ack_header then next c else
     match parse_packet_header (default [] ack_header) with
     | None => next c
     | Some ack_info =>
         if bool_decide (h_type ack_info = PACKET_TYPE_ACK)
         then (ChunkSent, c)
         else next c
     end) =
    retry_loop n (retry + 1)
      (Conn (read_script 8 (inbox c0)).2 []
            (outbox c0 ++ [header; sequence_bytes; chunk])
            (slept c0) (closed c0))
      header sequence_bytes chunk).
  { intros c0 Ht0 Hi0. cbv zeta.
    rewrite (sendall_open c0) by done. cbn [negb].
    rewrite sendall_open by done. cbn [negb inbox outbox slept closed].
    rewrite sendall_open by done. cbn [negb inbox outbox slept closed].
    unfold read_exact, PACKET_HEADER_SIZE. cbn [inbox].
    rewrite Hi0 in *.
    destruct (read_script 8 (inbox c)) as [r i] eqn:E. cbn in Hr.
    unfold set_inbox. cbn [inbox tx_script outbox slept closed fst snd].
    rewrite <- !app_assoc. cbn [app].
    destruct r as [[|b bs]|]; cbn [falsy default from_option id]; try done.
    cbn [response_is_ack] in Hr.
    destruct (parse_packet_header (b :: bs)); [|done].
    by rewrite Hr. }
  case_bool_decide.
  - destruct (retry_delay retry) as [d|]; cbn [fmap option_fmap option_map];
      [|done].
    apply Hstep; done.
  - apply Hstep; done.
Qed.

Lemma retry_delay_backoff retry :
  retry < 1024 → retry_delay retry = Some (backoff retry).
Proof.
  intros Hr. unfold retry_delay. by rewrite bool_decide_eq_false_2 by lia.
Qed.






Example backoff_schedule_default :
  backoff_schedule 5 = [200; 400; 800; 1600] ∧
  backoff_schedule 8 = [200; 400; 800; 1600; 2000; 2000; 2000].
Proof. split; reflexivity. Qed.

Example sender_gives_up_run :
  send_data_with_retries (Conn [] [] [] [] false) ("10.0.0.2"%string, 5000%N)
    [x01] 5 ∅
  = (SendFalse,
     Conn [] []
       (concat (replicate 5 [[x00; x00; x00; x01; x01; x03; x01; x01];
                             [x00; x00]; [x01]]))
       [200; 200; 400; 800; 1600] false,
     {[ "10.0.0.2:5000"%string := Session 0 0 ]}).
Proof. vm_compute. reflexivity. Qed.

(** ** Connection handler *)

(** C9. Whatever the surroundings decide and whichever way the body of the
    handler is left (completion, failed handshake, failed receive or send,
    or an exception), when [handle_connection_improved] returns the session
    table has no entry for the client and the socket is closed. *)
Theorem handler_always_cleans_up e c a cs :
  (handle_connection_improved e c a cs).2 !! client_ip a = None ∧
  closed (handle_connection_improved e c a cs).1.2 = true.
Proof.
  unfold handle_connection_improved.
  destruct (connection_body e c a cs) as [[path c'] cs'].
  cbn. split; [|done].
  case_bool_decide as Hs.
  - apply lookup_delete_eq.
  - by apply eq_None_not_Some.
Qed.

(** One whole exchange in echo mode: handshake, a one-byte transfer, the
    repaired reply sent back in one acknowledged frame.  The body leaves a
    session with both counters at 1; the handler returns without it. *)
Example handler_echo_run :
  let e := Env true true true (λ _, ""%string) ReplyMissing in
  let script :=
    rx_bytes ([x00; x00; x00; x04; x01; x01; x36; xdd] ++ expected_magic
              ++ [x00; x00; x00; x01; x01; x03; x07; x07] ++ [x00; x00]
              ++ [x07] ++ ack_header) in
  let c := Conn script [] [] [] false in
  let a := ("10.0.0.2"%string, 5000%N) in
  (connection_body e c a ∅).2 !! client_ip a = Some (Session 1 1) ∧
  (handle_connection_improved e c a ∅).1.1 = ExitFinished ∧
  (handle_connection_improved e c a ∅).2 = ∅ ∧
  closed (handle_connection_improved e c a ∅).1.2 = true ∧
  length (outbox (handle_connection_improved e c a ∅).1.2) = 5%nat.
Proof. vm_compute. repeat split. Qed.

Example handler_failed_handshake_run :
  handle_connection_improved
    (Env true true true (λ _, ""%string) ReplyMissing)
    (Conn [] [] [] [] false) ("10.0.0.2"%string, 5000%N)
    {[ "10.0.0.2:5000"%string := Session 3 4 ]}
  = (ExitHandshakeFailed, Conn [] [] [] [] true, ∅).
Proof. vm_compute. reflexivity. Qed.

(** ** WAV containers *)

(** Reduction of slices of a list whose first cells are explicit. *)
Ltac cells :=
  cbn [slice splice take drop Nat.sub app length le_bytes
       RIFF WAVE FMT_ DATA wav_header44].

Lemma wav_header44_verify r d tail :
  verify_wav_format (wav_header44 r d ++ tail) = true.
Proof.
  unfold verify_wav_format. cells.
  rewrite bool_decide_eq_false_2 by lia.
  rewrite !bool_decide_eq_false_2; [done | by intros H; apply H ..].
Qed.

Lemma wav_header44_length r d tail :
  length (wav_header44 r d ++ tail) = (44 + length tail)%nat.
Proof. reflexivity. Qed.

Lemma wav_header44_samples r d tail : drop 44 (wav_header44 r d ++ tail) = tail.
Proof. reflexivity. Qed.

Lemma wav_header44_fields total tail :
  0 <= total - 44 → total - 8 < 2 ^ 32 →
  fields_consistent total (wav_header44 (total - 8) (total - 44) ++ tail).
Proof.
  intros H1 H2. unfold fields_consistent.
  unfold wav_riff_size, wav_fmt_size, wav_format_tag, wav_channels,
    wav_sample_rate, wav_byte_rate, wav_block_align, wav_bits_per_sample,
    wav_data_size.
  cells.
  split; [apply (le_value_le_bytes 4); field_width|].
  do 7 (split; [vm_compute; reflexivity|]).
  apply (le_value_le_bytes 4). field_width.
Qed.

Lemma create_wav_default pcm_data :
  Z.of_nat (length pcm_data) + 36 < 2 ^ 32 →
  create_wav_from_pcm pcm_data 16000 1 2 =
    Some (wav_header44 (36 + Z.of_nat (length pcm_data))
            (Z.of_nat (length pcm_data)) ++ pcm_data).
Proof.
  intros Hlen. unfold create_wav_from_pcm.
  rewrite !bool_decide_eq_false_2 by lia.
  set (n := Z.of_nat (length pcm_data)).
  set (d := n / (1 * 2) * 1 * 2).
  assert (Hd : 0 <= d <= n).
  { unfold d. pose proof (Z.div_mod n 2 ltac:(lia)).
    pose proof (Z.mod_pos_bound n 2 ltac:(lia)).
    replace (1 * 2) with 2 by lia. lia. }
  unfold wave_header.
  rewrite !pack_le_Some by field_width.
  cbn [mbind option_bind].
  case_bool_decide as Hp.
  - cbn [mbind option_bind]. cells. reflexivity.
  - assert (d = n) as -> by (destruct (decide (d = n)); done).
    cells. reflexivity.
Qed.

Lemma repair_wav_file_eq corrupted_wav :
  (44 <= length corrupted_wav)%nat →
  Z.of_nat (length corrupted_wav) < 2 ^ 32 + 8 →
  repair_wav_file corrupted_wav =
    Some (wav_header44 (Z.of_nat (length corrupted_wav) - 8)
            (Z.of_nat (length corrupted_wav) - 44)
          ++ drop 44 corrupted_wav).
Proof.
  intros Hmin Hmax. unfold repair_wav_file.
  rewrite bool_decide_eq_false_2 by lia.
  rewrite !pack_le_Some by field_width.
  cbn [mbind option_bind].
  remember (Z.of_nat (length corrupted_wav)) as n eqn:Hn. clear Hn Hmax.
  do 44 (destruct corrupted_wav as [|? corrupted_wav];
         [cbn [length] in Hmin; lia|]).
  cells. reflexivity.
Qed.


(** With both markers, a buffer of 44 bytes or more is returned as it is. *)
Lemma ensure_valid_both_markers audio_data :
  (44 <= length audio_data)%nat →
  slice 0 4 audio_data = RIFF → slice 8 12 audio_data = WAVE →
  ensure_valid_wav_format audio_data = Some audio_data.
Proof.
  intros Hmin Hr Hw. unfold ensure_valid_wav_format.
  by rewrite !bool_decide_eq_true_2 by done.
Qed.




(** C8. A byte sequence with neither the RIFF marker at offset 0 nor the
    WAVE marker at offset 8 (and whose length fits the 32-bit size fields)
    is wrapped in a fresh container: the output passes
    [verify_wav_format], its data length field is the length of the input,
    and its header declares 16000 Hz, one channel and 16 bits per sample;
    the samples follow the 44-byte header unchanged. *)
Theorem raw_pcm_wrapped audio_data :
  slice 0 4 audio_data ≠ RIFF →
  slice 8 12 audio_data ≠ WAVE →
  Z.of_nat (length audio_data) + 36 < 2 ^ 32 →
  ∃ out,
    ensure_valid_wav_format audio_data = Some out ∧
    verify_wav_format out = true ∧
    wav_data_size out = Z.of_nat (length audio_data) ∧
    wav_sample_rate out = 16000 ∧
    wav_channels out = 1 ∧
    wav_bits_per_sample out = 16 ∧
    drop 44 out = audio_data.
Proof.
  intros Hr Hw Hlen. unfold ensure_valid_wav_format.
  rewrite (bool_decide_eq_false_2 _ Hr), (bool_decide_eq_false_2 _ Hw).
  rewrite andb_false_r. cbn [orb].
  assert (Hpcm : (if bool_decide (12 <= length audio_data)%nat
                  then true else true) = true) by (by case_bool_decide).
  rewrite Hpcm, create_wav_default by done.
  eexists. split; [done|].
  pose proof (wav_header44_fields (Z.of_nat (length audio_data) + 44)
                audio_data ltac:(lia) ltac:(lia)) as Hf.
  replace (Z.of_nat (length audio_data) + 44 - 8)
    with (36 + Z.of_nat (length audio_data)) in Hf by lia.
  replace (Z.of_nat (length audio_data) + 44 - 44)
    with (Z.of_nat (length audio_data)) in Hf by lia.
  destruct Hf as (_ & _ & _ & Hch & Hsr & _ & _ & Hbits & Hds).
  split; [apply wav_header44_verify|].
  split; [rewrite Hds; lia|]. split; [exact Hsr|]. split; [exact Hch|].
  split; [exact Hbits|]. apply wav_header44_samples.
Qed.

(** Three bytes of samples, an odd length. *)
Lemma raw_pcm_wrapped_witness :
  ∃ out,
    ensure_valid_wav_format [x01; x02; x03] = Some out ∧
    verify_wav_format out = true ∧
    wav_data_size out = Z.of_nat (length [x01; x02; x03]) ∧
    wav_sample_rate out = 16000 ∧
    wav_channels out = 1 ∧
    wav_bits_per_sample out = 16 ∧
    drop 44 out = [x01; x02; x03].
Proof.
  apply (raw_pcm_wrapped [x01; x02; x03]).
  - discriminate.
  - discriminate.
  - vm_compute. reflexivity.
Defined.

(** ** Chunking *)

Lemma chunks_upto_enough fuel size data :
  (0 < size)%nat → (length data <= fuel)%nat →
  chunks_upto fuel size data = chunks size data.
Proof.
  intros Hs. unfold chunks.
  remember (length data) as n eqn:Hn.
  revert fuel data Hn.
  induction (lt_wf n) as [n _ IH]. intros fuel data -> Hf.
  destruct data as [|b data].
  - by destruct fuel.
  - destruct fuel as [|fuel]; [simpl in Hf; lia|].
    cbn [length chunks_upto]. f_equal.
    assert (Hd : (length (drop size (b :: data)) < S (length data))%nat).
    { rewrite length_drop. simpl. lia. }
    rewrite (IH _ Hd fuel (drop size (b :: data)) eq_refl) by (simpl in Hf; lia).
    rewrite (IH _ Hd (length data) (drop size (b :: data)) eq_refl); [done|].
    simpl in Hd. lia.
Qed.

Lemma chunks_nil size : chunks size [] = [].
Proof. reflexivity. Qed.

Lemma chunks_cons size data :
  (0 < size)%nat → data ≠ [] →
  chunks size data = take size data :: chunks size (drop size data).
Proof.
  intros Hs Hd. destruct data as [|b data]; [done|].
  unfold chunks at 1. cbn [length chunks_upto]. f_equal.
  apply chunks_upto_enough; [done|]. rewrite length_drop. simpl. lia.
Qed.

Lemma chunks_concat size data :
  (0 < size)%nat → concat (chunks size data) = data.
Proof.
  intros Hs. remember (length data) as n eqn:Hn. revert data Hn.
  induction (lt_wf n) as [n _ IH]. intros data ->.
  destruct data as [|b data]; [done|].
  rewrite chunks_cons by done. cbn [concat].
  rewrite (IH (length (drop size (b :: data)))); [apply take_drop| |done].
  rewrite length_drop. simpl. lia.
Qed.

Lemma chunks_sizes size data :
  (0 < size)%nat →
  Forall (λ piece, (0 < length piece <= size)%nat) (chunks size data).
Proof.
  intros Hs. remember (length data) as n eqn:Hn. revert data Hn.
  induction (lt_wf n) as [n _ IH]. intros data ->.
  destruct data as [|b data]; [constructor|].
  rewrite chunks_cons by done. constructor.
  - rewrite length_take. simpl. lia.
  - apply (IH (length (drop size (b :: data)))); [|done].
    rewrite length_drop. simpl. lia.
Qed.

Lemma chunks_nonempty size data : data ≠ [] → chunks size data ≠ [].
Proof. by destruct data. Qed.

Lemma chunks_empty_iff size data : chunks size data = [] ↔ data = [].
Proof. destruct data; [done|]. split; done. Qed.

(** ** A transfer over a link that loses nothing *)

Lemma set_send_twice ip v w (cs : gmap string session) :
  set_send ip v (set_send ip w cs) = set_send ip v cs.
Proof.
  unfold set_send. rewrite alter_alter_eq. apply alter_ext.
  by intros [s r] _.
Qed.

Lemma set_receive_twice ip v w (cs : gmap string session) :
  set_receive ip v (set_receive ip w cs) = set_receive ip v cs.
Proof.
  unfold set_receive. rewrite alter_alter_eq. apply alter_ext.
  by intros [s r] _.
Qed.

Lemma get_send_set_send ip v (cs : gmap string session) :
  is_Some (cs !! ip) → get_send ip (set_send ip v cs) = v.
Proof.
  intros [s Hs]. unfold get_send, set_send.
  by rewrite lookup_alter_eq, Hs.
Qed.

Lemma get_receive_set_receive ip v (cs : gmap string session) :
  is_Some (cs !! ip) → get_receive ip (set_receive ip v cs) = v.
Proof.
  intros [s Hs]. unfold get_receive, set_receive.
  by rewrite lookup_alter_eq, Hs.
Qed.

(** An attempt that is acknowledged at once. *)
Lemma retry_loop_acked n c header sequence_bytes chunk rest :
  tx_script c = [] →
  inbox c = rx_bytes ack_header ++ rest →
  retry_loop (S n) 0 c header sequence_bytes chunk =
    (ChunkSent,
     Conn rest [] (outbox c ++ [header; sequence_bytes; chunk])
          (slept c) (closed c)).
Proof.
  intros Ht Hi. cbn [retry_loop].
  rewrite bool_decide_eq_false_2 by lia. cbv zeta.
  rewrite (sendall_open c) by done. cbn [negb].
  rewrite sendall_open by done. cbn [negb inbox outbox slept closed].
  rewrite sendall_open by done. cbn [negb inbox outbox slept closed].
  change PACKET_HEADER_SIZE with (length ack_header).
  erewrite read_exact_app by (cbn [inbox]; exact Hi).
  change (falsy (Some ack_header)) with false. cbv iota.
  change (default [] (Some ack_header)) with ack_header.
  rewrite ack_header_parse. cbv beta iota.
  rewrite bool_decide_eq_true_2 by done.
  unfold set_inbox. cbn [inbox tx_script outbox slept closed].
  by rewrite <- !app_assoc.
Qed.

Lemma take_min_length {A} (l : list A) n :
  take (Nat.min (length l) n) l = take n l.
Proof.
  destruct (Nat.min_spec (length l) n) as [[H ->]|[H ->]]; [|done].
  rewrite firstn_all. symmetry. apply take_ge. lia.
Qed.

Lemma drop_min_length {A} (l : list A) n :
  drop (Nat.min (length l) n) l = drop n l.
Proof.
  destruct (Nat.min_spec (length l) n) as [[H ->]|[H ->]]; [|done].
  rewrite drop_all. symmetry. apply drop_ge. lia.
Qed.

(** The chunk loop on a link where every frame is acknowledged at once:
    from any position in [data], what is left goes out as the frames of its
    pieces, and the loop ends with [True]. *)
Lemma send_loop_lossless ip data max_retries :
  0 < max_retries →
  ∀ fuel total_sent send_sequence c cs,
    let rest := drop total_sent data in
    let pieces := chunks max_piece rest in
    (length rest <= fuel)%nat →
    (total_sent <= length data)%nat →
    tx_script c = [] →
    inbox c = rx_bytes (concat (replicate (length pieces) ack_header)) →
    0 <= send_sequence →
    send_sequence + Z.of_nat (length pieces) <= 65536 →
    ∃ c',
      send_loop fuel ip data max_retries c cs total_sent send_sequence
        = Some (SendTrue, c',
                match pieces with
                | [] => cs
                | _ :: _ =>
                    set_send ip (send_sequence + Z.of_nat (length pieces)) cs
                end) ∧
      outbox c' = outbox c ++ frames send_sequence pieces ∧
      inbox c' = [] ∧ tx_script c' = [].
Proof.
  intros Hmr.
  assert (Hmp : (0 < max_piece)%nat) by (vm_compute; lia).
  induction fuel as [|fuel IH];
    intros total_sent send_sequence c cs rest pieces Hf Hts Ht Hi Hs0 Hs1.
  - assert (rest = []) as Hr by (apply nil_length_inv; lia).
    assert (length data <= total_sent)%nat.
    { unfold rest in Hr. apply (f_equal length) in Hr.
      rewrite length_drop in Hr. simpl in Hr. lia. }
    exists c. cbn [send_loop]. rewrite bool_decide_eq_false_2 by lia.
    unfold pieces in *. rewrite Hr in *. cbn in Hi |- *.
    by rewrite app_nil_r.
  - destruct (decide (rest = [])) as [Hr|Hr].
    + assert (length data <= total_sent)%nat.
      { unfold rest in Hr. apply (f_equal length) in Hr.
        rewrite length_drop in Hr. simpl in Hr. lia. }
      exists c. cbn [send_loop]. rewrite bool_decide_eq_false_2 by lia.
      unfold pieces in *. rewrite Hr in *. cbn in Hi |- *.
      by rewrite app_nil_r.
    + assert (Hlt : (total_sent < length data)%nat).
      { destruct (decide (total_sent < length data)%nat); [done|].
        exfalso. apply Hr. unfold rest. apply drop_ge. lia. }
      assert (Hlr : length rest = (length data - total_sent)%nat)
        by (unfold rest; by rewrite length_drop).
      cbn [send_loop]. rewrite bool_decide_eq_true_2 by done. cbv zeta.
      fold max_piece.
      replace (length data - total_sent)%nat with (length rest)
        by (unfold rest; by rewrite length_drop).
      fold rest. rewrite take_min_length.
      set (piece := take max_piece rest).
      assert (Hpl : length piece = Nat.min (length rest) max_piece).
      { unfold piece. rewrite length_take. lia. }
      assert (Hpieces : pieces = piece :: chunks max_piece (drop max_piece rest))
        by (apply chunks_cons; done).
      set (rest' := drop max_piece rest) in *.
      set (pieces' := chunks max_piece rest') in *.
      assert (Hrest' : drop (total_sent + Nat.min (length rest) max_piece) data
                       = rest').
      { unfold rest', rest. rewrite <- drop_drop.
        fold rest. apply drop_min_length. }
      assert (Hlast : (length data <= total_sent + Nat.min (length rest) max_piece)%nat
                      ↔ pieces' = []).
      { unfold pieces'. rewrite chunks_empty_iff, <- Hrest'.
        split.
        - intros H. apply drop_ge. done.
        - intros H. apply (f_equal length) in H. rewrite length_drop in H.
          simpl in H. lia. }
      assert (Hmax : Z.of_nat (Nat.min (length rest) max_piece) <= 8192)
        by (unfold max_piece, PACKET_MAX_SIZE; lia).
      destruct (build_packet_header_Some
                  (Z.of_nat (Nat.min (length rest) max_piece))
                  (if bool_decide
                        (length data <= total_sent + Nat.min (length rest) max_piece)%nat
                   then PACKET_TYPE_DATA_END else PACKET_TYPE_DATA)
                  (calculate_checksum piece)) as [header Hh].
      { lia. }
      { case_bool_decide; unfold PACKET_TYPE_DATA_END, PACKET_TYPE_DATA; lia. }
      { apply calculate_checksum_range. }
      rewrite Hh.
      rewrite Hpieces in Hs1, Hi. cbn [length] in Hs1, Hi.
      rewrite pack_be_Some by field_width.
      cbn [replicate concat] in Hi. rewrite rx_bytes_app in Hi.
      destruct (Z.to_nat max_retries) as [|n] eqn:En; [lia|].
      rewrite (retry_loop_acked n c header (be_bytes 2 send_sequence) piece _ Ht Hi).
      edestruct (IH (total_sent + Nat.min (length rest) max_piece)%nat
                    (send_sequence + 1)
                    (Conn (rx_bytes (concat (replicate (length pieces') ack_header)))
                          [] (outbox c ++ [header; be_bytes 2 send_sequence; piece])
                          (slept c) (closed c))
                    (set_send ip (send_sequence + 1) cs))
        as (c' & Hrun & Ho & Hi' & Ht').
      { rewrite Hrest'. unfold rest'. rewrite length_drop.
        assert (0 < length rest)%nat by (destruct rest; [done | simpl; lia]).
        lia. }
      { lia. }
      { done. }
      { cbn [inbox]. by rewrite Hrest'. }
      { lia. }
      { rewrite Hrest'. fold pieces'. lia. }
      rewrite Hrest' in Hrun, Ho. fold pieces' in Hrun, Ho.
      exists c'. rewrite Hrun, Hpieces. cbn [outbox] in Ho.
      split; [|split; [|done]].
      * do 3 f_equal.
        destruct pieces' as [|p ps] eqn:Ep.
        -- cbn [length]. f_equal; try lia.
        -- rewrite set_send_twice. cbn [length]. f_equal; try lia.
      * rewrite Ho. cbn [frames]. rewrite <- !app_assoc. cbn [app].
        do 2 f_equal.
        rewrite Hpl.
        replace (match pieces' with
                 | [] => PACKET_TYPE_DATA_END
                 | _ :: _ => PACKET_TYPE_DATA
                 end)
          with (if bool_decide
                     (length data <= total_sent + Nat.min (length rest) max_piece)%nat
                then PACKET_TYPE_DATA_END else PACKET_TYPE_DATA).
        -- by rewrite Hh.
        -- case_bool_decide as Hc.
           ++ apply Hlast in Hc. by rewrite Hc.
           ++ destruct pieces'; [|done]. exfalso. apply Hc, Hlast. done.
Qed.

(** The receiver accepting a frame that is in order and intact, on a link
    that takes the Ack. *)
Lemma receive_body_accepts ip max_size st hdr seqb payload h rest :
  inbox (r_conn st) = rx_bytes hdr ++ rx_bytes seqb ++ rx_bytes payload ++ rest →
  tx_script (r_conn st) = [] →
  parse_packet_header hdr = Some h →
  length seqb = 2%nat →
  h_length h <= PACKET_MAX_SIZE →
  Z.of_nat (length (received_data st)) + h_length h <= max_size →
  be_value seqb = receive_sequence st →
  length payload = Z.to_nat (h_length h) →
  payload ≠ [] →
  calculate_checksum payload = h_checksum h →
  receive_body ip max_size st =
    (if bool_decide (h_type h = PACKET_TYPE_DATA_END)
     then Return (Some (received_data st ++ payload)) else Continue,
     RecvState
       (Conn rest [] (outbox (r_conn st) ++ [ack_header])
             (slept (r_conn st)) (closed (r_conn st)))
       (set_receive ip (receive_sequence st + 1) (r_sessions st))
       (receive_sequence st + 1)
       (received_data st ++ payload)).
Proof.
  intros Hi Ht Hp Hs Hl1 Hl2 Hseq Hn Hne Hck.
  unfold receive_body, PACKET_HEADER_SIZE, send_ack.
  apply parse_version in Hp as Hl. destruct Hl as [Hl _].
  rewrite <- Hl, (read_exact_app _ hdr _ Hi).
  destruct hdr as [|b0 hdr]; [done|].
  cbn [falsy default from_option id]. rewrite Hp. cbv beta iota zeta.
  rewrite !bool_decide_eq_false_2 by lia.
  rewrite <- Hs, (read_exact_app _ seqb (rx_bytes payload ++ rest)) by done.
  destruct seqb as [|s0 seqb]; [done|].
  cbn [falsy default from_option id].
  rewrite bool_decide_eq_false_2 by auto.
  rewrite <- Hn, (read_exact_app _ payload rest) by done.
  rewrite !set_inbox_twice.
  destruct payload as [|p0 payload]; [done|].
  cbn [falsy default from_option id].
  rewrite bool_decide_eq_false_2 by auto.
  rewrite sendall_open by done. cbn [negb].
  cbn [set_inbox inbox tx_script outbox slept closed].
  by case_bool_decide.
Qed.

Lemma frames_header piece (rest : list bytes) :
  (length piece <= max_piece)%nat →
  ∃ hdr,
    build_packet_header (Z.of_nat (length piece))
      (match rest with
       | [] => PACKET_TYPE_DATA_END
       | _ :: _ => PACKET_TYPE_DATA
       end)
      (calculate_checksum piece) = Some hdr.
Proof.
  intros Hl. apply build_packet_header_Some.
  - unfold max_piece, PACKET_MAX_SIZE in Hl. lia.
  - destruct rest; unfold PACKET_TYPE_DATA_END, PACKET_TYPE_DATA; lia.
  - apply calculate_checksum_range.
Qed.

(** The receiver loop fed the frames of a list of pieces: every piece is
    acknowledged and appended, and the last one ends the loop. *)
Lemma receive_loop_lossless ip max_size pieces :
  ∀ seq st fuel,
    pieces ≠ [] →
    Forall (λ piece, (0 < length piece <= max_piece)%nat) pieces →
    inbox (r_conn st) = rx_bytes (concat (frames seq pieces)) →
    tx_script (r_conn st) = [] →
    receive_sequence st = seq →
    0 <= seq → seq + Z.of_nat (length pieces) <= 65536 →
    Z.of_nat (length (received_data st)) + Z.of_nat (length (concat pieces))
      <= max_size →
    (length pieces <= fuel)%nat →
    ∃ st',
      receive_loop fuel ip max_size st
        = Some (Some (received_data st ++ concat pieces), st') ∧
      outbox (r_conn st')
        = outbox (r_conn st) ++ replicate (length pieces) ack_header ∧
      r_sessions st'
        = set_receive ip (seq + Z.of_nat (length pieces)) (r_sessions st) ∧
      inbox (r_conn st') = [] ∧
      tx_script (r_conn st') = [].
Proof.
  induction pieces as [|piece rest IH];
    intros seq st fuel Hne Hall Hi Ht Hseq Hs0 Hs1 Hsize Hfuel; [done|].
  apply Forall_cons in Hall as [[Hp0 Hp1] Hall].
  destruct fuel as [|fuel]; [simpl in Hfuel; lia|].
  destruct (frames_header piece rest Hp1) as [hdr Hh].
  cbn [frames] in Hi. rewrite Hh in Hi.
  change (default [] (Some hdr)) with hdr in Hi.
  cbn [app concat] in Hi. rewrite !rx_bytes_app in Hi.
  cbn [length concat] in Hs1, Hsize. rewrite length_app in Hsize.
  apply parse_build in Hh as [Hl Hparse].
  assert (Hmp : Z.of_nat (length piece) <= PACKET_MAX_SIZE)
    by (unfold max_piece in Hp1; lia).
  pose proof (receive_body_accepts ip max_size st hdr (be_bytes 2 seq) piece
                _ _ Hi Ht Hparse (be_bytes_length 2 seq)) as Hb.
  cbn [h_length h_type h_checksum] in Hb.
  rewrite be_value_be_bytes in Hb by field_width.
  specialize (Hb Hmp ltac:(lia) ltac:(done) ltac:(lia)).
  specialize (Hb ltac:(by destruct piece; [simpl in Hp0; lia|]) eq_refl).
  cbn [receive_loop]. rewrite Hb.
  destruct rest as [|piece' rest].
  - rewrite bool_decide_eq_true_2 by done.
    cbn [concat]. rewrite app_nil_r.
    eexists. split; [done|].
    cbn. rewrite Hseq. done.
  - rewrite bool_decide_eq_false_2 by done.
    match goal with
    | |- context [receive_loop fuel ip max_size ?st1] =>
        destruct (IH (seq + 1) st1 fuel)
          as (st' & Hrun & Ho & Hse & Hi' & Ht');
          [| | | | | | | | |exists st'; rewrite Hrun]
    end.
    + done.
    + done.
    + cbn [r_conn inbox]. done.
    + done.
    + cbn. lia.
    + lia.
    + cbn [length] in *. lia.
    + cbn [received_data]. rewrite length_app. cbn [concat] in *.
      rewrite length_app in *. lia.
    + cbn [length] in Hfuel. cbn [length]. lia.
    + cbn [received_data r_conn outbox r_sessions] in *.
      split; [by rewrite <- app_assoc|].
      split; [rewrite Ho; by rewrite <- app_assoc|].
      split; [|done].
      rewrite Hse, Hseq, set_receive_twice. f_equal. cbn [length]. lia.
Qed.

Lemma frames_length seq pieces :
  (length pieces <= length (concat (frames seq pieces)))%nat.
Proof.
  revert seq; induction pieces as [|piece rest IH]; intros seq; [done|].
  cbn [frames app concat length]. rewrite !length_app, be_bytes_length.
  specialize (IH (seq + 1)). lia.
Qed.

(** C5, as the code has it.  Over a link that delivers every frame and
    every Ack, a non-empty payload that does not exceed the receiver's
    maximum transfer size, sent by [send_data_with_retries] (with at least
    one attempt allowed, and sequence numbers that fit 16 bits) to a
    receiver whose session stands at the same sequence number, is cut into
    ordered pieces of at most [PACKET_MAX_SIZE] bytes, framed with
    consecutive sequence numbers and with DataEnd on the last piece only;
    the sender returns [True]; [receive_data_with_verification], fed what
    the sender wrote, returns the payload byte for byte, and the Acks it
    writes are the ones the sender read. *)
Theorem lossless_transfer data seq a_s a_r max_retries max_size
    (cs_s cs_r : gmap string session) :
  data ≠ [] →
  Z.of_nat (length data) <= max_size →
  0 < max_retries →
  0 <= seq →
  seq + Z.of_nat (length (chunks max_piece data)) <= 65536 →
  get_send (client_ip a_s) cs_s = seq →
  get_receive (client_ip a_r) cs_r = seq →
  ∃ c_s cs_s' c_r cs_r',
    concat (chunks max_piece data) = data ∧
    Forall (λ piece, (0 < length piece <= max_piece)%nat)
      (chunks max_piece data) ∧
    send_data_with_retries
      (Conn (rx_bytes
               (concat (replicate (length (chunks max_piece data)) ack_header)))
            [] [] [] false)
      a_s data max_retries cs_s
    = (SendTrue, c_s, cs_s') ∧
    outbox c_s = frames seq (chunks max_piece data) ∧
    get_send (client_ip a_s) cs_s'
      = seq + Z.of_nat (length (chunks max_piece data)) ∧
    receive_data_with_verification
      (Conn (rx_bytes (concat (outbox c_s))) [] [] [] false)
      a_r max_size cs_r
    = (Some data, c_r, cs_r') ∧
    outbox c_r = replicate (length (chunks max_piece data)) ack_header ∧
    get_receive (client_ip a_r) cs_r'
      = seq + Z.of_nat (length (chunks max_piece data)).
Proof.
  intros Hne Hsize Hmr Hs0 Hs1 Hgs Hgr.
  assert (Hmp : (0 < max_piece)%nat) by (vm_compute; lia).
  set (pieces := chunks max_piece data) in *.
  assert (Hpne : pieces ≠ []) by (by apply chunks_nonempty).
  pose proof (chunks_concat max_piece data Hmp) as Hcat. fold pieces in Hcat.
  pose proof (chunks_sizes max_piece data Hmp) as Hall. fold pieces in Hall.
  (* the sender *)
  destruct (send_loop_lossless (client_ip a_s) data max_retries Hmr
              (length data) 0%nat seq
              (sleep (Conn (rx_bytes (concat (replicate (length pieces) ack_header)))
                           [] [] [] false) 200)
              (ensure_session (client_ip a_s) cs_s))
    as (c_s & Hsend & Hout & _ & _);
    [change (drop 0 data) with data; lia | lia | done | done | done
    | exact Hs1 |].
  change (drop 0 data) with data in Hsend, Hout.
  fold pieces in Hsend, Hout.
  cbn [sleep outbox app] in Hout.
  (* the receiver *)
  destruct (receive_loop_lossless (client_ip a_r) max_size pieces seq
              (RecvState (Conn (rx_bytes (concat (frames seq pieces))) [] [] [] false)
                 (ensure_session (client_ip a_r) cs_r) seq [])
              (S (length (rx_bytes (concat (frames seq pieces))))))
    as (st' & Hrecv & Hrout & Hrs & _ & _);
    [done | done | done | done | done | done | done | | |].
  { cbn [received_data length]. rewrite Hcat. lia. }
  { rewrite rx_bytes_length. pose proof (frames_length seq pieces). lia. }
  cbn [received_data app r_conn outbox r_sessions] in Hrecv, Hrout, Hrs.
  rewrite Hcat in Hrecv.
  exists c_s,
    (match pieces with
     | [] => ensure_session (client_ip a_s) cs_s
     | _ :: _ =>
         set_send (client_ip a_s) (seq + Z.of_nat (length pieces))
           (ensure_session (client_ip a_s) cs_s)
     end),
    (r_conn st'), (r_sessions st').
  split; [done|]. split; [done|].
  split.
  { unfold send_data_with_retries.
    rewrite ensure_session_get_send, Hgs, Hsend. done. }
  split; [done|].
  split.
  { destruct pieces; [done|].
    apply get_send_set_send, ensure_session_is_Some. }
  split.
  { unfold receive_data_with_verification. cbn [inbox].
    assert (Hgr' : get_receive (client_ip a_r)
                     (ensure_session (client_ip a_r) cs_r) = seq).
    { rewrite <- Hgr. unfold ensure_session, get_receive.
      destruct (cs_r !! client_ip a_r) as [s|] eqn:E; cbn.
      - by rewrite E.
      - by rewrite lookup_insert_eq. }
    rewrite Hgr', Hout, Hrecv. done. }
  split; [done|].
  rewrite Hrs. apply get_receive_set_receive, ensure_session_is_Some.
Qed.

(** Two full pieces and a short one, from sequence number 0. *)
Lemma lossless_transfer_witness :
  ∃ c_s cs_s' c_r cs_r',
    concat (chunks max_piece sample_payload) = sample_payload ∧
    Forall (λ piece, (0 < length piece <= max_piece)%nat)
      (chunks max_piece sample_payload) ∧
    send_data_with_retries
      (Conn (rx_bytes
               (concat (replicate (length (chunks max_piece sample_payload))
                          ack_header)))
            [] [] [] false)
      satellite_end sample_payload 5 ∅
    = (SendTrue, c_s, cs_s') ∧
    outbox c_s = frames 0 (chunks max_piece sample_payload) ∧
    get_send (client_ip satellite_end) cs_s'
      = 0 + Z.of_nat (length (chunks max_piece sample_payload)) ∧
    receive_data_with_verification
      (Conn (rx_bytes (concat (outbox c_s))) [] [] [] false)
      server_end default_max_size ∅
    = (Some sample_payload, c_r, cs_r') ∧
    outbox c_r
      = replicate (length (chunks max_piece sample_payload)) ack_header ∧
    get_receive (client_ip server_end) cs_r'
      = 0 + Z.of_nat (length (chunks max_piece sample_payload)).
Proof.
  apply (lossless_transfer sample_payload 0 satellite_end server_end 5
           default_max_size ∅ ∅).
  - vm_compute. discriminate.
  - vm_compute. discriminate.
  - lia.
  - lia.
  - vm_compute. discriminate.
  - reflexivity.
  - reflexivity.
Defined.

Example sample_payload_pieces :
  (λ piece, Z.of_nat (length piece)) <$> chunks max_piece sample_payload
  = [8192; 8192; 5].
Proof. vm_compute. reflexivity. Qed.

(** C5 as the design document states it fails on the empty payload: the
    sender reports success having written nothing, and the receiver, fed
    that nothing, returns [None], not the empty payload. *)
Lemma empty_payload_not_reconstructed :
  send_data_with_retries
    (Conn (rx_bytes (concat (replicate (length (chunks max_piece [])) ack_header)))
          [] [] [] false)
    satellite_end [] 5 ∅
  = (SendTrue, Conn [] [] [] [200] false,
     {[ client_ip satellite_end := Session 0 0 ]}) ∧
  (receive_data_with_verification (Conn [] [] [] [] false)
     server_end default_max_size ∅).1.1 = None ∧
  ¬ ∃ c_s cs_s' c_r cs_r',
      send_data_with_retries
        (Conn (rx_bytes
                 (concat (replicate (length (chunks max_piece [])) ack_header)))
              [] [] [] false)
        satellite_end [] 5 ∅
      = (SendTrue, c_s, cs_s') ∧
      receive_data_with_verification
        (Conn (rx_bytes (concat (outbox c_s))) [] [] [] false)
        server_end default_max_size ∅
      = (Some [], c_r, cs_r').
Proof.
  assert (Hs : send_data_with_retries
                 (Conn (rx_bytes
                          (concat (replicate (length (chunks max_piece []))
                                     ack_header)))
                       [] [] [] false)
                 satellite_end [] 5 ∅
               = (SendTrue, Conn [] [] [] [200] false,
                  {[ client_ip satellite_end := Session 0 0 ]}))
    by (vm_compute; reflexivity).
  assert (Hr : (receive_data_with_verification (Conn [] [] [] [] false)
                  server_end default_max_size ∅).1.1 = None)
    by (vm_compute; reflexivity).
  split; [exact Hs|]. split; [exact Hr|].
  intros (c_s & cs_s' & c_r & cs_r' & H1 & H2).
  rewrite Hs in H1. injection H1 as <- <-.
  cbn [outbox concat rx_bytes fmap list_fmap] in H2.
  rewrite H2 in Hr. discriminate.
Qed.

(** * Further properties of the code *)

(** ** Packet codec *)

Lemma byte_of_val b : byte_of (byte_val b) = b.
Proof.
  unfold byte_of. rewrite Z.mod_small by apply byte_val_range.
  unfold byte_val. rewrite N2Z.id, Byte.of_to_N. reflexivity.
Qed.

Lemma byte_of_mod z : byte_of (z mod 256) = byte_of z.
Proof. unfold byte_of. by rewrite Z.mod_mod by lia. Qed.

Lemma le_bytes_le_value bs : le_bytes (length bs) (le_value bs) = bs.
Proof.
  induction bs as [|b bs IH]; [done|].
  cbn [length le_value le_bytes].
  replace (byte_val b + 256 * le_value bs)
    with (byte_val b + le_value bs * 256) by lia.
  f_equal.
  - rewrite <- byte_of_mod, Z.mod_add by lia.
    rewrite Z.mod_small by apply byte_val_range. apply byte_of_val.
  - rewrite Z.div_add by lia.
    rewrite Z.div_small by apply byte_val_range. exact IH.
Qed.

Lemma be_bytes_be_value bs : be_bytes (length bs) (be_value bs) = bs.
Proof.
  unfold be_bytes, be_value.
  rewrite <- (length_reverse bs), le_bytes_le_value.
  apply reverse_involutive.
Qed.

Lemma be_value_range bs : 0 <= be_value bs < 256 ^ Z.of_nat (length bs).
Proof.
  unfold be_value. rewrite <- (length_reverse bs). apply le_value_range.
Qed.

Lemma pack_be_be_value bs : pack_be (length bs) (be_value bs) = Some bs.
Proof.
  rewrite pack_be_Some by apply be_value_range.
  by rewrite be_bytes_be_value.
Qed.

(** X1. A header built from a length below 2^32, a type below 256 and a
    checksum below 65536 is 8 bytes long and parses back to those three
    values under the fixed version. *)
Theorem header_roundtrip l t c :
  0 <= l < 2 ^ 32 → 0 <= t < 256 → 0 <= c < 65536 →
  ∃ h, build_packet_header l t c = Some h ∧
       length h = 8%nat ∧
       parse_packet_header h = Some (HeaderInfo l PROTOCOL_VERSION t c).
Proof.
  intros Hl Ht Hc.
  destruct (build_packet_header_Some l t c Hl Ht Hc) as [h Hh].
  exists h. split; [done|]. by apply parse_build.
Qed.

Lemma header_roundtrip_witness :
  ∃ h, build_packet_header 8192 PACKET_TYPE_DATA 0xFEFE = Some h ∧
       length h = 8%nat ∧
       parse_packet_header h
         = Some (HeaderInfo 8192 PROTOCOL_VERSION PACKET_TYPE_DATA 0xFEFE).
Proof.
  apply (header_roundtrip 8192 PACKET_TYPE_DATA 0xFEFE).
  - lia.
  - unfold PACKET_TYPE_DATA. lia.
  - lia.
Defined.

(** X2. [build_packet_header] raises ([struct.error]) exactly when one of
    its three arguments does not fit its field: the length 32 bits, the
    type 8 bits, the checksum 16 bits. *)
Theorem build_packet_header_fits l t c :
  is_Some (build_packet_header l t c) ↔
  0 <= l < 2 ^ 32 ∧ 0 <= t < 256 ∧ 0 <= c < 65536.
Proof.
  split.
  - intros [h Hh]. unfold build_packet_header in Hh.
    destruct (pack_be 4 l) as [b1|] eqn:E1; [|done].
    destruct (pack_be 1 PROTOCOL_VERSION) as [b2|] eqn:E2; [|done].
    destruct (pack_be 1 t) as [b3|] eqn:E3; [|done].
    destruct (pack_be 2 c) as [b4|] eqn:E4; [|done].
    apply pack_be_inv in E1 as [H1 _], E3 as [H3 _], E4 as [H4 _].
    split; [|split]; field_width.
  - intros (Hl & Ht & Hc). by apply build_packet_header_Some.
Qed.

(** X3. [parse_packet_header] accepts a byte string exactly when it is 8
    bytes long and its fifth byte is the protocol version; the type byte is
    not looked at, so a header of any type, known or not, is accepted. *)
Theorem parse_packet_header_accepts (header : bytes) :
  is_Some (parse_packet_header header) ↔
  length header = 8%nat ∧ header !! 4%nat = Some x01.
Proof.
  unfold parse_packet_header, PACKET_HEADER_SIZE.
  case_bool_decide as Hl.
  - split; [by intros [? ?] | by intros [? _]].
  - assert (length header = 8%nat) as Hl8
      by (destruct (decide (length header = 8%nat)); done).
    do 8 (destruct header as [|? header]; [done|]).
    destruct header; [|done].
    cbn [take drop lookup list_lookup]. unfold be_value. cbn [reverse rev_append le_value].
    rewrite Z.mul_0_r, Z.add_0_r. unfold PROTOCOL_VERSION.
    case_bool_decide as Hv.
    + split; [by intros [? ?]|]. intros [_ [= ->]]. by destruct Hv.
    + split; [|eauto]. intros _. split; [done|]. f_equal.
      assert (byte_val b3 = 1) as Hb by (destruct (decide (byte_val b3 = 1)); done).
      rewrite <- (byte_of_val b3), Hb. reflexivity.
Qed.

(** X4. Every header that [parse_packet_header] accepts is the header that
    [build_packet_header] makes of the fields it was parsed into. *)
Theorem parse_then_build header h :
  parse_packet_header header = Some h →
  build_packet_header (h_length h) (h_type h) (h_checksum h) = Some header.
Proof.
  intros Hp.
  assert (Hacc : is_Some (parse_packet_header header)) by eauto.
  apply parse_packet_header_accepts in Hacc as [Hl Hv].
  unfold parse_packet_header in Hp.
  rewrite bool_decide_eq_false_2 in Hp by auto.
  case_bool_decide; [done|]. injection Hp as <-.
  cbn [h_length h_type h_checksum].
  do 8 (destruct header as [|? header]; [done|]).
  destruct header; [|done].
  cbn [take drop lookup list_lookup] in *. injection Hv as ->.
  unfold build_packet_header.
  pose proof (pack_be_be_value [b; b0; b1; b2]) as H1.
  pose proof (pack_be_be_value [b4]) as H2.
  pose proof (pack_be_be_value [b5; b6]) as H3.
  cbn [length] in H1, H2, H3. rewrite H1, H2, H3.
  reflexivity.
Qed.

Lemma parse_then_build_witness :
  build_packet_header (h_length (HeaderInfo 0 1 PACKET_TYPE_NACK 0))
    (h_type (HeaderInfo 0 1 PACKET_TYPE_NACK 0))
    (h_checksum (HeaderInfo 0 1 PACKET_TYPE_NACK 0))
  = Some nack_header.
Proof.
  apply (parse_then_build nack_header (HeaderInfo 0 1 PACKET_TYPE_NACK 0)).
  reflexivity.
Defined.

(** ** Checksum *)

Lemma lor_shiftl_8 hi lo :
  0 <= hi → 0 <= lo < 256 → Z.lor (Z.shiftl hi 8) lo = 256 * hi + lo.
Proof.
  intros Hhi Hlo.
  assert (Hland : Z.land (Z.shiftl hi 8) lo = 0).
  { apply Z.bits_inj'. intros n Hn.
    rewrite Z.land_spec, Z.bits_0.
    destruct (Z_lt_dec n 8) as [Hlt|Hge].
    - by rewrite Z.shiftl_spec_low by lia.
    - destruct (decide (lo = 0)) as [->|Hne].
      + by rewrite Z.bits_0, andb_false_r.
      + rewrite (Z.bits_above_log2 lo n), andb_false_r; [done | lia |].
        assert (Z.log2 lo < 8) by (apply Z.log2_lt_pow2; lia). lia. }
  rewrite <- Z.lxor_lor by done.
  rewrite <- Z.add_nocarry_lxor by done.
  rewrite Z.shiftl_mul_pow2 by lia. lia.
Qed.

(** X5. The checksum is [256 * sum2 + sum1] for the two final running
    sums, each of which is below 255: it always fits the 16-bit field of
    the header, never exceeds [0xFEFE], and neither of its two bytes is
    ever [0xFF]. *)
Theorem calculate_checksum_sums data :
  calculate_checksum data
    = 256 * (checksum_loop data 0 0).2 + (checksum_loop data 0 0).1 ∧
  0 <= (checksum_loop data 0 0).1 < 255 ∧
  0 <= (checksum_loop data 0 0).2 < 255 ∧
  0 <= calculate_checksum data <= 0xFEFE ∧
  calculate_checksum data mod 256 ≠ 255 ∧
  calculate_checksum data / 256 ≠ 255.
Proof.
  pose proof (checksum_loop_range data 0 0 ltac:(lia) ltac:(lia)) as [H1 H2].
  unfold calculate_checksum.
  destruct (checksum_loop data 0 0) as [sum1 sum2]. cbn [fst snd] in *.
  rewrite lor_shiftl_8 by lia.
  split; [done|]. split; [done|]. split; [done|]. split; [lia|].
  replace (256 * sum2 + sum1) with (sum1 + sum2 * 256) by lia.
  rewrite Z.mod_add, Z.div_add by lia.
  rewrite Z.mod_small, Z.div_small by lia. lia.
Qed.

Lemma ff_swap_mod a b : ff_swap a b → byte_val a mod 255 = byte_val b mod 255.
Proof. intros [->|[[-> ->]|[-> ->]]]; reflexivity. Qed.

Lemma checksum_loop_ff_swap d d' sum1 sum2 :
  Forall2 ff_swap d d' →
  checksum_loop d sum1 sum2 = checksum_loop d' sum1 sum2.
Proof.
  intros H. revert sum1 sum2.
  induction H as [|a b d d' Hab _ IH]; intros sum1 sum2; [done|].
  cbn [checksum_loop].
  assert (Hs : (sum1 + byte_val a) mod 255 = (sum1 + byte_val b) mod 255).
  { rewrite (Z.add_mod sum1 (byte_val a)), (Z.add_mod sum1 (byte_val b)) by lia.
    by rewrite (ff_swap_mod a b Hab). }
  rewrite Hs. apply IH.
Qed.

(** X6. The checksum cannot tell [0x00] from [0xFF]: two payloads that
    differ only in that some bytes are [0x00] in one and [0xFF] in the other
    have the same checksum. *)
Theorem checksum_blind_to_ff d d' :
  Forall2 ff_swap d d' → calculate_checksum d = calculate_checksum d'.
Proof.
  intros H. unfold calculate_checksum.
  by rewrite (checksum_loop_ff_swap d d' 0 0 H).
Qed.

Lemma checksum_blind_to_ff_witness :
  calculate_checksum [x00; x01; xff] = calculate_checksum [xff; x01; x00].
Proof.
  apply (checksum_blind_to_ff [x00; x01; xff] [xff; x01; x00]).
  repeat constructor; unfold ff_swap; tauto.
Defined.

(** ** Reading *)

(** X7. [read_exact] is all or nothing.  It returns exactly the [n] bytes
    that come next, leaving the stream right after them; or it returns
    [None], when fewer than [n] bytes come before the peer closes or the
    read fails, and then the bytes it had collected are gone, the stream
    standing after the failure.  It never writes. *)
Theorem read_exact_all_or_nothing c n :
  match (read_exact c n).1 with
  | Some bs =>
      length bs = n ∧ inbox c = rx_bytes bs ++ inbox (read_exact c n).2
  | None =>
      ∃ bs, (length bs < n)%nat ∧
            ((inbox c = rx_bytes bs ∧ inbox (read_exact c n).2 = []) ∨
             inbox c = rx_bytes bs ++ RxFail :: inbox (read_exact c n).2)
  end ∧
  outbox (read_exact c n).2 = outbox c ∧
  tx_script (read_exact c n).2 = tx_script c.
Proof.
  split; [|by destruct (read_exact_frame c n) as (? & ? & _)].
  unfold read_exact.
  destruct (read_script n (inbox c)) as [r i] eqn:E. cbn [fst snd inbox set_inbox].
  destruct r as [bs|].
  - apply read_script_Some in E as [-> <-]. done.
  - revert i E. generalize (inbox c). clear c.
    induction n as [|n IH]; intros l i E; [done|].
    cbn [read_script] in E. destruct l as [|[b|] l].
    + injection E as <-. exists []. split; [simpl; lia|]. by left.
    + destruct (read_script n l) as [[r|] i'] eqn:E'; [done|].
      injection E as <-.
      destruct (IH l i' E') as (bs & Hl & [[-> ->] | ->]).
      * exists (b :: bs). split; [simpl; lia|]. by left.
      * exists (b :: bs). split; [simpl; lia|]. by right.
    + injection E as <-. exists []. split; [simpl; lia|]. by right.
Qed.

(** ** Receiver *)

Lemma falsy_false_inv r : falsy r = false → ∃ b bs, r = Some (b :: bs).
Proof. destruct r as [[|b bs]|]; try done. eauto. Qed.

(** X8. A frame that declares a length of zero is never accepted, even in
    order, of type DataEnd and with the checksum of the empty payload: the
    empty read counts as a failed read, a Nack is written and the transfer
    ends with [None]. *)
Theorem zero_length_frame_rejected fuel ip max_size st hdr seqb h rest :
  inbox (r_conn st) = rx_bytes hdr ++ rx_bytes seqb ++ rest →
  parse_packet_header hdr = Some h →
  h_length h = 0 →
  length seqb = 2%nat →
  be_value seqb = receive_sequence st →
  Z.of_nat (length (received_data st)) <= max_size →
  ∃ st', receive_loop (S fuel) ip max_size st = Some (None, st') ∧
         nacked st st' rest.
Proof.
  intros Hi Hp Hz Hs Hseq Hmax.
  cbn [receive_loop]. unfold receive_body, PACKET_HEADER_SIZE, send_nack.
  apply parse_version in Hp as Hl. destruct Hl as [Hl _].
  rewrite <- Hl, (read_exact_app _ hdr _ Hi).
  destruct hdr as [|b0 hdr]; [done|].
  cbn [falsy default from_option id]. rewrite Hp. cbv beta iota zeta.
  rewrite Hz. unfold PACKET_MAX_SIZE.
  rewrite !bool_decide_eq_false_2 by lia.
  rewrite <- Hs, (read_exact_app _ seqb rest) by done.
  destruct seqb as [|s0 seqb]; [done|].
  cbn [falsy default from_option id].
  rewrite bool_decide_eq_false_2 by auto.
  change (Z.to_nat 0) with (@length byte []).
  rewrite (read_exact_app _ [] rest) by done.
  rewrite !set_inbox_twice. cbn [falsy].
  destruct (sendall _ nack_header) as [ok c'] eqn:E.
  eexists; split; [done|]. unfold nacked. cbn. by rewrite E.
Qed.

Lemma zero_length_frame_rejected_witness :
  ∃ st',
    receive_loop 1 "10.0.0.2:5000" default_max_size
      (RecvState
         (Conn (rx_bytes [x00; x00; x00; x00; x01; x03; x00; x00]
                  ++ rx_bytes [x00; x00] ++ []) [] [] [] false)
         ∅ 0 [])
    = Some (None, st') ∧
    nacked
      (RecvState
         (Conn (rx_bytes [x00; x00; x00; x00; x01; x03; x00; x00]
                  ++ rx_bytes [x00; x00] ++ []) [] [] [] false)
         ∅ 0 [])
      st' [].
Proof.
  apply (zero_length_frame_rejected 0 "10.0.0.2:5000" default_max_size
           (RecvState
              (Conn (rx_bytes [x00; x00; x00; x00; x01; x03; x00; x00]
                       ++ rx_bytes [x00; x00] ++ []) [] [] [] false)
              ∅ 0 [])
           [x00; x00; x00; x00; x01; x03; x00; x00] [x00; x00]
           (HeaderInfo 0 1 PACKET_TYPE_DATA_END 0) []).
  - reflexivity.
  - reflexivity.
  - reflexivity.
  - reflexivity.
  - reflexivity.
  - vm_compute. discriminate.
Defined.

(** What one iteration does to the accumulated data: it never shrinks, it
    stays within the larger of its size and [max_size], and a value that
    is returned is the accumulated data, non-empty and within [max_size]. *)
Lemma receive_body_bound ip max_size st f st' :
  receive_body ip max_size st = (f, st') →
  Z.of_nat (length (received_data st'))
    <= Z.max (Z.of_nat (length (received_data st))) max_size ∧
  ∀ d, f = Return (Some d) →
       d = received_data st' ∧ d ≠ [] ∧ Z.of_nat (length d) <= max_size.
Proof.
  unfold receive_body, send_nack, send_ack.
  repeat (branch; cbv beta iota zeta);
    intros [= <- <-]; cbn [received_data];
    (split; [|intros d [= <-] || (intros d; discriminate)]); try lia.
  all: match goal with
       | H : read_exact _ (Z.to_nat (h_length _)) = (?o, _),
         F : falsy ?o = false |- _ =>
           destruct (falsy_false_inv _ F) as (b' & bs' & ->);
           apply read_exact_Some in H as (_ & Hlen & _)
       end.
  all: repeat match goal with
       | H : bool_decide _ = false |- _ => apply bool_decide_eq_false_1 in H
       end.
  all: cbn [default from_option id] in *.
  all: rewrite ?length_app; cbn [length] in *.
  all: try (split; [reflexivity|split; [by destruct (received_data st)|]]).
  all: lia.
Qed.

Lemma receive_loop_bound ip max_size fuel st d st' :
  receive_loop fuel ip max_size st = Some (Some d, st') →
  d ≠ [] ∧ Z.of_nat (length d) <= max_size.
Proof.
  revert st; induction fuel as [|fuel IH]; intros st; [done|].
  cbn [receive_loop].
  destruct (receive_body ip max_size st) as [[|r] st1] eqn:E.
  - apply IH.
  - intros [= -> ->]. apply receive_body_bound in E as [_ Hd].
    destruct (Hd d eq_refl) as (_ & ? & ?). done.
Qed.

(** X9. Whatever the peer sends, a buffer that
    [receive_data_with_verification] returns is never empty and never
    longer than [max_size]. *)
Theorem received_data_bounded c a max_size cs d :
  (receive_data_with_verification c a max_size cs).1.1 = Some d →
  d ≠ [] ∧ Z.of_nat (length d) <= max_size.
Proof.
  destruct (receive_data_with_verification_loop c a max_size cs)
    as (st' & Hloop & _).
  intros Hd. rewrite Hd in Hloop.
  by apply receive_loop_bound in Hloop.
Qed.

Lemma received_data_bounded_witness :
  [x07] ≠ [] ∧ Z.of_nat (length [x07]) <= default_max_size.
Proof.
  apply (received_data_bounded
           (Conn (rx_bytes ([x00; x00; x00; x01; x01; x03; x07; x07]
                            ++ [x00; x00] ++ [x07])) [] [] [] false)
           server_end default_max_size ∅ [x07]).
  vm_compute. reflexivity.
Defined.

(** X10. Sequence numbers on the wire are 16 bits wide, the counter of
    the receiver is not: once [receive_sequence] is outside 0..65535 (as
    after 65536 accepted frames) no frame is accepted any more; every
    iteration leaves the counter, the session table and the accumulated
    data as they were. *)
Theorem receiver_stalls_past_16_bits ip max_size st f st' :
  receive_sequence st < 0 ∨ 65536 <= receive_sequence st →
  receive_body ip max_size st = (f, st') →
  unmoved st st' ∧ f ≠ Return (Some (received_data st')).
Proof.
  intros Hout. unfold receive_body, send_nack, send_ack.
  repeat (branch; cbv beta iota zeta);
    intros [= <- <-]; try (split; [done | discriminate]).
  all: exfalso.
  all: match goal with
       | H : read_exact _ 2 = (?o, _), F : falsy ?o = false |- _ =>
           destruct (falsy_false_inv _ F) as (b' & bs' & ->);
           apply read_exact_Some in H as (_ & Hlen & _)
       end.
  all: match goal with
       | H : bool_decide (be_value _ ≠ _) = false |- _ =>
           apply bool_decide_eq_false_1 in H;
           cbn [default from_option id] in H
       end.
  all: match goal with
       | H : ¬ be_value ?s ≠ _ |- _ =>
           pose proof (be_value_range s) as Hr; rewrite Hlen in Hr;
           assert (be_value s = receive_sequence st)
             by (destruct (decide (be_value s = receive_sequence st)); done)
       end.
  all: change (256 ^ Z.of_nat 2) with 65536 in Hr; lia.
Qed.

Lemma receiver_stalls_past_16_bits_witness :
  unmoved
    (RecvState
       (Conn (rx_bytes ([x00; x00; x00; x01; x01; x03; x07; x07]
                        ++ [x00; x00] ++ [x07])) [] [] [] false)
       ∅ 65536 [])
    (RecvState (Conn (rx_bytes [x07]) [] [nack_header] [] false) ∅ 65536 []) ∧
  Continue
    ≠ Return (Some (received_data
        (RecvState (Conn (rx_bytes [x07]) [] [nack_header] [] false)
           ∅ 65536 []))).
Proof.
  apply (receiver_stalls_past_16_bits "10.0.0.2:5000" default_max_size
           (RecvState
              (Conn (rx_bytes ([x00; x00; x00; x01; x01; x03; x07; x07]
                               ++ [x00; x00] ++ [x07])) [] [] [] false)
              ∅ 65536 [])).
  - right. cbn. lia.
  - vm_compute. reflexivity.
Defined.

(** X11. A frame that arrives with a damaged payload and is then sent
    again intact is accepted the second time: the damaged copy costs a
    Nack and nothing else.  (Here the frame is the last of its transfer.) *)
Theorem bad_checksum_then_retransmission fuel ip max_size st hdr seqb bad good h rest :
  inbox (r_conn st)
    = rx_bytes hdr ++ rx_bytes seqb ++ rx_bytes bad
      ++ rx_bytes hdr ++ rx_bytes seqb ++ rx_bytes good ++ rest →
  tx_script (r_conn st) = [] →
  parse_packet_header hdr = Some h →
  h_type h = PACKET_TYPE_DATA_END →
  length seqb = 2%nat →
  be_value seqb = receive_sequence st →
  h_length h <= PACKET_MAX_SIZE →
  Z.of_nat (length (received_data st)) + h_length h <= max_size →
  length bad = Z.to_nat (h_length h) →
  length good = Z.to_nat (h_length h) →
  good ≠ [] →
  calculate_checksum bad ≠ h_checksum h →
  calculate_checksum good = h_checksum h →
  ∃ st',
    receive_loop (S (S fuel)) ip max_size st
      = Some (Some (received_data st ++ good), st') ∧
    outbox (r_conn st') = outbox (r_conn st) ++ [nack_header; ack_header] ∧
    inbox (r_conn st') = rest ∧
    receive_sequence st' = receive_sequence st + 1.
Proof.
  intros Hi Ht Hp Hty Hs Hseq Hl1 Hl2 Hb Hg Hne Hcb Hcg.
  assert (Hbne : bad ≠ []).
  { intros ->. destruct good; [done|]. simpl in Hb, Hg. lia. }
  destruct (receive_body_bad_checksum ip max_size st hdr seqb bad h _
              Hi Hp Hs Hl1 Hl2 Hseq Hb Hcb) as (st1 & Hb1 & Hn).
  destruct (decide (bad = [])) as [|_]; [done|].
  destruct Hn as (Hc1 & Hs1 & Hq1 & Hd1).
  rewrite sendall_open in Hc1 by done.
  cbn [snd set_inbox inbox tx_script outbox slept closed] in Hc1.
  rewrite (receive_loop_more 2 (S (S fuel)) ip max_size st
             (Some (received_data st ++ good),
              RecvState
                (Conn rest [] ((outbox (r_conn st) ++ [nack_header]) ++ [ack_header])
                      (slept (r_conn st)) (closed (r_conn st)))
                (set_receive ip (receive_sequence st + 1) (r_sessions st))
                (receive_sequence st + 1)
                (received_data st ++ good))); [|cbn [receive_loop]|lia].
  - eexists. split; [done|]. cbn. by rewrite <- app_assoc.
  - rewrite Hb1.
    rewrite (receive_body_accepts ip max_size st1 hdr seqb good h rest);
      rewrite ?Hc1, ?Hs1, ?Hq1, ?Hd1; try done.
    by rewrite bool_decide_eq_true_2.
Qed.

Lemma bad_checksum_then_retransmission_witness :
  ∃ st',
    receive_loop 2 "10.0.0.2:5000" default_max_size
      (RecvState
         (Conn (rx_bytes [x00; x00; x00; x01; x01; x03; x07; x07]
                  ++ rx_bytes [x00; x00] ++ rx_bytes [x08]
                  ++ rx_bytes [x00; x00; x00; x01; x01; x03; x07; x07]
                  ++ rx_bytes [x00; x00] ++ rx_bytes [x07] ++ [])
               [] [] [] false)
         ∅ 0 [])
      = Some (Some ([] ++ [x07]), st') ∧
    outbox (r_conn st') = [] ++ [nack_header; ack_header] ∧
    inbox (r_conn st') = [] ∧
    receive_sequence st' = 0 + 1.
Proof.
  apply (bad_checksum_then_retransmission 0 "10.0.0.2:5000" default_max_size
           (RecvState
              (Conn (rx_bytes [x00; x00; x00; x01; x01; x03; x07; x07]
                       ++ rx_bytes [x00; x00] ++ rx_bytes [x08]
                       ++ rx_bytes [x00; x00; x00; x01; x01; x03; x07; x07]
                       ++ rx_bytes [x00; x00] ++ rx_bytes [x07] ++ [])
                    [] [] [] false)
              ∅ 0 [])
           [x00; x00; x00; x01; x01; x03; x07; x07] [x00; x00] [x08] [x07]
           (HeaderInfo 1 1 PACKET_TYPE_DATA_END 0x0707) []).
  - reflexivity.
  - reflexivity.
  - reflexivity.
  - reflexivity.
  - reflexivity.
  - reflexivity.
  - vm_compute. discriminate.
  - vm_compute. discriminate.
  - reflexivity.
  - reflexivity.
  - discriminate.
  - vm_compute. discriminate.
  - reflexivity.
Defined.

Lemma read_exact_tx c n r c' :
  read_exact c n = (r, c') →
  tx_script c' = tx_script c ∧ outbox c' = outbox c.
Proof.
  intros H. pose proof (read_exact_frame c n) as (Ht & Ho & _).
  by rewrite H in Ht, Ho.
Qed.

(** X12. An iteration of the receiver that gives up ([return None])
    leaves the session table, the expected sequence number and the
    accumulated data as they were, and it is silent only when no header
    could be read, in which case no write is attempted.  Once a header has
    been read, an iteration that gives up has attempted exactly one write;
    on a connection that takes that write, what has been written is a
    Nack, and on one that refuses it, nothing (the one way of giving up
    that is not a Nack is the Ack that cannot be written). *)
Theorem receiver_abort_announced ip max_size st st' :
  receive_body ip max_size st = (Return None, st') →
  unmoved st st' ∧
  ((falsy (read_exact (r_conn st) PACKET_HEADER_SIZE).1 = true ∧
    r_conn st' = (read_exact (r_conn st) PACKET_HEADER_SIZE).2 ∧
    tx_script (r_conn st') = tx_script (r_conn st) ∧
    outbox (r_conn st') = outbox (r_conn st))
   ∨ (falsy (read_exact (r_conn st) PACKET_HEADER_SIZE).1 = false ∧
      tx_script (r_conn st') = tail (tx_script (r_conn st)) ∧
      outbox (r_conn st')
      = (if bool_decide (writable (r_conn st))
         then outbox (r_conn st) ++ [nack_header]
         else outbox (r_conn st)))).
Proof.
  remember (if bool_decide (writable (r_conn st))
            then outbox (r_conn st) ++ [nack_header]
            else outbox (r_conn st)) as announced eqn:Ha.
  unfold receive_body.
  destruct (read_exact (r_conn st) PACKET_HEADER_SIZE) as [r c1] eqn:E1.
  cbn [fst snd].
  apply read_exact_tx in E1 as [Ht1 Ho1].
  destruct (falsy r) eqn:Ef;
    [intros [= <-]; split; [done|]; left; cbn [r_conn]; done|].
  unfold send_nack, send_ack.
  repeat (branch; cbv beta iota zeta); intros [= <-];
    (split; [done|]); right; (split; [done|]); cbn [r_conn].
  all: repeat match goal with
       | H : read_exact _ _ = _ |- _ => apply read_exact_tx in H as [? ?]
       end.
  all: repeat match goal with
       | H : sendall _ _ = (_, _) |- _ =>
           rewrite sendall_spec in H; injection H as H <-;
           cbn [outbox tx_script]
       end.
  all: try match goal with
       | H : bool_decide _ = ?ok, N : negb ?ok = _ |- _ =>
           destruct ok; try done; rewrite H; revert H
       end.
  all: subst announced; unfold writable.
  all: repeat match goal with
       | H : tx_script ?c = _ |- context [tx_script ?c] => rewrite H
       | H : outbox ?c = _ |- context [outbox ?c] => rewrite H
       end.
  all: try done.
  all: intros ->; done.
Qed.

(** A header that announces no payload, and then the end of the stream:
    the sequence number cannot be read, and a Nack goes out. *)
Lemma receiver_abort_announced_witness :
  unmoved
    (RecvState (Conn (rx_bytes [x00; x00; x00; x00; x02; x03; x00; x00])
                  [] [] [] false) ∅ 0 [])
    (RecvState (Conn [] [] [nack_header] [] false) ∅ 0 []) ∧
  ((falsy (read_exact
             (r_conn (RecvState
                        (Conn (rx_bytes [x00; x00; x00; x00; x02; x03; x00; x00])
                           [] [] [] false) ∅ 0 []))
             PACKET_HEADER_SIZE).1 = true ∧
    r_conn (RecvState (Conn [] [] [nack_header] [] false) ∅ 0 [])
    = (read_exact
         (r_conn (RecvState
                    (Conn (rx_bytes [x00; x00; x00; x00; x02; x03; x00; x00])
                       [] [] [] false) ∅ 0 []))
         PACKET_HEADER_SIZE).2 ∧
    tx_script (r_conn (RecvState (Conn [] [] [nack_header] [] false) ∅ 0 []))
    = tx_script
        (r_conn (RecvState
                   (Conn (rx_bytes [x00; x00; x00; x00; x02; x03; x00; x00])
                      [] [] [] false) ∅ 0 [])) ∧
    outbox (r_conn (RecvState (Conn [] [] [nack_header] [] false) ∅ 0 []))
    = outbox
        (r_conn (RecvState
                   (Conn (rx_bytes [x00; x00; x00; x00; x02; x03; x00; x00])
                      [] [] [] false) ∅ 0 [])))
   ∨ (falsy (read_exact
               (r_conn (RecvState
                          (Conn (rx_bytes [x00; x00; x00; x00; x02; x03; x00; x00])
                             [] [] [] false) ∅ 0 []))
               PACKET_HEADER_SIZE).1 = false ∧
      tx_script (r_conn (RecvState (Conn [] [] [nack_header] [] false) ∅ 0 []))
      = tail (tx_script
                (r_conn (RecvState
                           (Conn (rx_bytes [x00; x00; x00; x00; x02; x03; x00; x00])
                              [] [] [] false) ∅ 0 []))) ∧
      outbox (r_conn (RecvState (Conn [] [] [nack_header] [] false) ∅ 0 []))
      = (if bool_decide
              (writable
                 (r_conn (RecvState
                            (Conn (rx_bytes [x00; x00; x00; x00; x02; x03; x00; x00])
                               [] [] [] false) ∅ 0 [])))
         then outbox
                (r_conn (RecvState
                           (Conn (rx_bytes [x00; x00; x00; x00; x02; x03; x00; x00])
                              [] [] [] false) ∅ 0 []))
              ++ [nack_header]
         else outbox
                (r_conn (RecvState
                           (Conn (rx_bytes [x00; x00; x00; x00; x02; x03; x00; x00])
                              [] [] [] false) ∅ 0 []))))).
Proof.
  apply (receiver_abort_announced "10.0.0.2:5000" default_max_size
           (RecvState (Conn (rx_bytes [x00; x00; x00; x00; x02; x03; x00; x00])
                         [] [] [] false) ∅ 0 [])).
  vm_compute. reflexivity.
Defined.

(** ** Sender *)

(** X13. The sender packs [send_sequence] into 16 bits before each chunk:
    with data to send and the session's [send_sequence] outside 0..65535,
    [send_data_with_retries] raises ([struct.error]) before anything is
    written. *)
Theorem sender_raises_past_16_bits c a data max_retries cs :
  data ≠ [] →
  get_send (client_ip a) cs < 0 ∨ 65536 <= get_send (client_ip a) cs →
  send_data_with_retries c a data max_retries cs
    = (SendRaised, sleep c 200, ensure_session (client_ip a) cs).
Proof.
  intros Hne Hout. unfold send_data_with_retries.
  rewrite ensure_session_get_send.
  destruct data as [|b data]; [done|].
  cbn [length send_loop]. rewrite bool_decide_eq_true_2 by lia. cbv zeta.
  destruct (build_packet_header _ _ _); [|done].
  unfold pack_be at 1. rewrite bool_decide_eq_false_2; [done|].
  change (256 ^ Z.of_nat 2) with 65536. lia.
Qed.

Lemma sender_raises_past_16_bits_witness :
  send_data_with_retries (Conn [] [] [] [] false) server_end [x01] 5
    {[ client_ip server_end := Session 65536 0 ]}
  = (SendRaised, sleep (Conn [] [] [] [] false) 200,
     ensure_session (client_ip server_end)
       {[ client_ip server_end := Session 65536 0 ]}).
Proof.
  apply (sender_raises_past_16_bits (Conn [] [] [] [] false) server_end [x01] 5
           {[ client_ip server_end := Session 65536 0 ]}).
  - discriminate.
  - right. vm_compute. discriminate.
Defined.

(** X14. With [max_retries] zero or negative the retry loop has no
    iteration: for any non-empty payload (and a sequence number that fits)
    the sender returns [False] at the first chunk without writing or
    reading anything. *)
Theorem sender_without_attempts c a data max_retries cs :
  data ≠ [] →
  max_retries <= 0 →
  0 <= get_send (client_ip a) cs < 65536 →
  send_data_with_retries c a data max_retries cs
    = (SendFalse, sleep c 200, ensure_session (client_ip a) cs).
Proof.
  intros Hne Hmr Hseq. unfold send_data_with_retries.
  rewrite ensure_session_get_send.
  destruct data as [|b data]; [done|].
  cbn [length send_loop]. rewrite bool_decide_eq_true_2 by lia. cbv zeta.
  set (n := Nat.min (S (length data) - 0) (Z.to_nat PACKET_MAX_SIZE)).
  assert (Hn : Z.of_nat n <= 8192) by (unfold n, PACKET_MAX_SIZE; lia).
  destruct (build_packet_header_Some (Z.of_nat n)
              (if bool_decide (S (length data) <= 0 + n)%nat
               then PACKET_TYPE_DATA_END else PACKET_TYPE_DATA)
              (calculate_checksum (take n (drop 0 (b :: data))))) as [h Hh].
  { lia. }
  { case_bool_decide; unfold PACKET_TYPE_DATA_END, PACKET_TYPE_DATA; lia. }
  { apply calculate_checksum_range. }
  rewrite Hh, pack_be_Some by field_width.
  replace (Z.to_nat max_retries) with 0%nat by lia.
  reflexivity.
Qed.

Lemma sender_without_attempts_witness :
  send_data_with_retries (Conn (rx_bytes ack_header) [] [] [] false)
    server_end [x01] 0 ∅
  = (SendFalse, sleep (Conn (rx_bytes ack_header) [] [] [] false) 200,
     ensure_session (client_ip server_end) ∅).
Proof.
  apply (sender_without_attempts (Conn (rx_bytes ack_header) [] [] [] false)
           server_end [x01] 0 ∅).
  - discriminate.
  - lia.
  - vm_compute. split; [discriminate | reflexivity].
Defined.

(** An attempt, whatever its number, that is acknowledged. *)
Lemma retry_loop_acked_at n retry c header sequence_bytes chunk rest :
  tx_script c = [] →
  retry < 1024 →
  inbox c = rx_bytes ack_header ++ rest →
  retry_loop (S n) retry c header sequence_bytes chunk =
    (ChunkSent,
     Conn rest [] (outbox c ++ [header; sequence_bytes; chunk])
          (slept c ++ (if bool_decide (retry > 0) then [backoff retry] else []))
          (closed c)).
Proof.
  intros Ht Hr Hi. cbn [retry_loop].
  assert (Hgo : ∀ c0, tx_script c0 = [] → inbox c0 = rx_bytes ack_header ++ rest →
    (let next c := retry_loop n (retry + 1) c header sequence_bytes chunk in
     let '(ok, c) := sendall c0 header in
     if negb ok then next c else
     let '(ok, c) := sendall c sequence_bytes in
     if negb ok then next c else
     let '(ok, c) := sendall c chunk in
     if negb ok then next c else
     let '(ack_header, c) := read_exact c PACKET_HEADER_SIZE in
     if falsy ack_header then next c else
     match parse_packet_header (default [] ack_header) with
     | None => next c
     | Some ack_info =>
         if bool_decide (h_type ack_info = PACKET_TYPE_ACK)
         then (ChunkSent, c)
         else next c
     end) =
    (ChunkSent,
     Conn rest [] (outbox c0 ++ [header; sequence_bytes; chunk])
          (slept c0) (closed c0))).
  { intros c0 Ht0 Hi0. cbv zeta.
    rewrite (sendall_open c0) by done. cbn [negb].
    rewrite sendall_open by done. cbn [negb inbox outbox slept closed].
    rewrite sendall_open by done. cbn [negb inbox outbox slept closed].
    change PACKET_HEADER_SIZE with (length ack_header).
    erewrite read_exact_app by (cbn [inbox]; exact Hi0).
    change (falsy (Some ack_header)) with false. cbv iota.
    change (default [] (Some ack_header)) with ack_header.
    rewrite ack_header_parse. cbv beta iota.
    rewrite bool_decide_eq_true_2 by done.
    unfold set_inbox. cbn [inbox tx_script outbox slept closed].
    by rewrite <- !app_assoc. }
  case_bool_decide.
  - rewrite retry_delay_backoff by done. cbn [fmap option_fmap option_map].
    by rewrite Hgo.
  - rewrite Hgo by done. by rewrite app_nil_r.
Qed.

(** [k] attempts without an Ack, from attempt number [retry >= 1] on, and
    then an Ack. *)
Lemma retry_loop_then_ack_from k n retry c header sequence_bytes chunk rest :
  tx_script c = [] →
  0 < retry → retry + Z.of_nat k < 1024 →
  never_acks k (inbox c) →
  after_waits k (inbox c) = rx_bytes ack_header ++ rest →
  retry_loop (k + S n) retry c header sequence_bytes chunk =
    (ChunkSent,
     Conn rest []
          (outbox c ++ concat (replicate (S k) [header; sequence_bytes; chunk]))
          (slept c ++ (backoff <$> seqZ retry (Z.of_nat (S k))))
          (closed c)).
Proof.
  revert retry c; induction k as [|k IH]; intros retry c Ht Hr Hlim Hna Haw.
  - cbn [Nat.add]. cbn [after_waits] in Haw.
    rewrite (retry_loop_acked_at n retry c _ _ _ rest) by (done || lia).
    rewrite bool_decide_eq_true_2 by lia.
    cbn [replicate concat]. by rewrite app_nil_r.
  - destruct Hna as [Hna1 Hna2]. cbn [after_waits] in Haw.
    cbn [Nat.add]. rewrite retry_loop_unacked by done.
    rewrite bool_decide_eq_true_2 by lia.
    rewrite retry_delay_backoff by lia. cbn [fmap option_fmap option_map].
    rewrite (IH (retry + 1)); [| done | lia | lia | exact Hna2 | exact Haw].
    cbn [inbox outbox slept closed sleep]. f_equal. f_equal.
    + cbn [replicate concat]. by rewrite <- !app_assoc.
    + rewrite (Nat2Z.inj_succ (S k)), (seqZ_cons retry) by lia.
      cbn [fmap list_fmap]. rewrite <- app_assoc. cbn [app].
      repeat f_equal; lia.
Qed.

(** [k] attempts without an Ack, from the first one, and then an Ack. *)
Lemma retry_loop_then_ack k n c header sequence_bytes chunk rest :
  tx_script c = [] →
  Z.of_nat k < 1024 →
  never_acks k (inbox c) →
  after_waits k (inbox c) = rx_bytes ack_header ++ rest →
  retry_loop (k + S n) 0 c header sequence_bytes chunk =
    (ChunkSent,
     Conn rest []
          (outbox c ++ concat (replicate (S k) [header; sequence_bytes; chunk]))
          (slept c ++ (backoff <$> seqZ 1 (Z.of_nat k)))
          (closed c)).
Proof.
  intros Ht Hlim Hna Haw. destruct k as [|k].
  - cbn [Nat.add]. cbn [after_waits] in Haw.
    rewrite (retry_loop_acked_at n 0 c _ _ _ rest) by (done || lia).
    rewrite bool_decide_eq_false_2 by lia.
    cbn [replicate concat Z.of_nat seqZ fmap list_fmap].
    by rewrite !app_nil_r.
  - destruct Hna as [Hna1 Hna2]. cbn [after_waits] in Haw.
    cbn [Nat.add]. rewrite retry_loop_unacked by done.
    rewrite bool_decide_eq_false_2 by lia.
    rewrite (retry_loop_then_ack_from k n (0 + 1) _ _ _ _ rest);
      [| done | lia | lia | exact Hna2 | exact Haw].
    cbn [inbox outbox slept closed]. f_equal. f_equal.
    cbn [replicate concat]. by rewrite <- !app_assoc.
Qed.

(** X15. Retransmission works: when the first [k] waits for the last chunk
    of a payload end without an Ack and the next one brings an Ack, with
    [k] below [max_retries], the chunk goes out [k + 1] times, identically,
    with the pauses of the first [k] retries, [send_sequence] moves on by
    one and the transfer ends with [True]. *)
Theorem retransmission_until_ack fuel ip data max_retries c cs total_sent
    send_sequence k rest :
  (total_sent < length data)%nat →
  (length data <= total_sent + max_piece)%nat →
  0 <= send_sequence < 65536 →
  Z.of_nat k < max_retries → Z.of_nat k < 1024 →
  tx_script c = [] →
  never_acks k (inbox c) →
  after_waits k (inbox c) = rx_bytes ack_header ++ rest →
  ∃ header,
    parse_packet_header header
      = Some (HeaderInfo (Z.of_nat (length (drop total_sent data)))
                PROTOCOL_VERSION PACKET_TYPE_DATA_END
                (calculate_checksum (drop total_sent data))) ∧
    send_loop (S fuel) ip data max_retries c cs total_sent send_sequence
      = Some (SendTrue,
              Conn rest []
                (outbox c ++
                 concat (replicate (S k)
                           [header; be_bytes 2 send_sequence; drop total_sent data]))
                (slept c ++ (backoff <$> seqZ 1 (Z.of_nat k)))
                (closed c),
              set_send ip (send_sequence + 1) cs).
Proof.
  intros Hlt Hlast Hseq Hk Hk' Ht Hna Haw.
  set (chunk := drop total_sent data).
  assert (Hlen : length chunk = (length data - total_sent)%nat)
    by (unfold chunk; by rewrite length_drop).
  assert (Hmin : Nat.min (length data - total_sent) (Z.to_nat PACKET_MAX_SIZE)
                 = length chunk).
  { fold max_piece. lia. }
  assert (Hmax : Z.of_nat (length chunk) <= 8192).
  { unfold max_piece, PACKET_MAX_SIZE in *. lia. }
  destruct (build_packet_header_Some (Z.of_nat (length chunk))
              PACKET_TYPE_DATA_END (calculate_checksum chunk)) as [header Hh].
  { lia. }
  { unfold PACKET_TYPE_DATA_END. lia. }
  { apply calculate_checksum_range. }
  exists header. split; [by apply parse_build in Hh as [_ ->]|].
  cbn [send_loop]. rewrite bool_decide_eq_true_2 by done. cbv zeta.
  rewrite Hmin.
  replace (take (length chunk) (drop total_sent data)) with chunk
    by (unfold chunk; by rewrite firstn_all).
  rewrite bool_decide_eq_true_2 by lia.
  rewrite Hh, pack_be_Some by field_width.
  replace (Z.to_nat max_retries)
    with (k + S (Z.to_nat max_retries - k - 1))%nat by lia.
  rewrite (retry_loop_then_ack k _ c header _ chunk rest) by done.
  destruct fuel; cbn [send_loop]; by rewrite bool_decide_eq_false_2 by lia.
Qed.

(** One byte to send; the first wait times out, the second brings a Nack,
    the third an Ack. *)
Lemma retransmission_until_ack_witness :
  ∃ header,
    parse_packet_header header
      = Some (HeaderInfo (Z.of_nat (length (drop 0 [x07])))
                PROTOCOL_VERSION PACKET_TYPE_DATA_END
                (calculate_checksum (drop 0 [x07]))) ∧
    send_loop 1 "10.0.0.2:5000" [x07] 5
      (Conn (RxFail :: rx_bytes nack_header ++ rx_bytes ack_header ++ [])
            [] [] [] false)
      ∅ 0 0
      = Some (SendTrue,
              Conn [] []
                ([] ++
                 concat (replicate 3 [header; be_bytes 2 0; drop 0 [x07]]))
                ([] ++ (backoff <$> seqZ 1 (Z.of_nat 2)))
                false,
              set_send "10.0.0.2:5000" (0 + 1) ∅).
Proof.
  apply (retransmission_until_ack 0 "10.0.0.2:5000" [x07] 5
           (Conn (RxFail :: rx_bytes nack_header ++ rx_bytes ack_header ++ [])
                 [] [] [] false)
           ∅ 0%nat 0 2%nat []).
  - simpl. lia.
  - vm_compute. lia.
  - lia.
  - lia.
  - lia.
  - reflexivity.
  - simpl. tauto.
  - reflexivity.
Defined.

Lemma chunks_count size data :
  (0 < size)%nat →
  Z.of_nat (length (chunks size data))
    = (Z.of_nat (length data) + Z.of_nat size - 1) / Z.of_nat size.
Proof.
  intros Hs. remember (length data) as n eqn:Hn. revert data Hn.
  induction (lt_wf n) as [n _ IH]. intros data ->.
  destruct data as [|b data].
  - cbn. symmetry. apply Z.div_small. lia.
  - rewrite chunks_cons by done. cbn [length].
    rewrite Nat2Z.inj_succ.
    rewrite (IH (length (drop size (b :: data)))); [| |done].
    2: { rewrite length_drop. simpl. lia. }
    rewrite length_drop. cbn [length].
    destruct (Nat.le_gt_cases (S (length data)) size) as [Hle|Hgt].
    + replace (S (length data) - size)%nat with 0%nat by lia.
      rewrite (Z.div_small (Z.of_nat 0 + _ - 1)) by lia.
      apply Z.div_unique with (r := Z.of_nat (S (length data)) - 1); lia.
    + replace (Z.of_nat (S (length data)) + Z.of_nat size - 1)
        with (Z.of_nat (S (length data) - size) + Z.of_nat size - 1
              + 1 * Z.of_nat size) by lia.
      rewrite Z.div_add by lia. lia.
Qed.

Lemma frames_count seq pieces :
  length (frames seq pieces) = (3 * length pieces)%nat.
Proof.
  revert seq; induction pieces as [|p ps IH]; intros seq; [done|].
  cbn [frames app length]. rewrite IH. lia.
Qed.

Lemma frames_bytes seq pieces :
  Forall (λ piece, (0 < length piece <= max_piece)%nat) pieces →
  length (concat (frames seq pieces))
    = (10 * length pieces + length (concat pieces))%nat.
Proof.
  intros Hall. revert seq.
  induction Hall as [|p ps [_ Hp] _ IH]; intros seq; [done|].
  destruct (frames_header p ps Hp) as [hdr Hh].
  cbn [frames]. rewrite Hh. apply parse_build in Hh as [Hl _].
  cbn [default from_option id app concat length].
  rewrite !length_app, be_bytes_length, IH, Hl. lia.
Qed.

(** X16. What a transfer costs on a link that loses nothing: a payload of
    [n > 0] bytes goes out in [ceil(n / 8192)] frames, each written as
    three buffers and adding 10 bytes (header and sequence number) to its
    piece of the payload, and the session's [send_sequence] advances by the
    number of frames. *)
Theorem lossless_send_cost data a max_retries (cs : gmap string session) :
  data ≠ [] →
  0 < max_retries →
  0 <= get_send (client_ip a) cs →
  get_send (client_ip a) cs + (Z.of_nat (length data) + 8191) / 8192 <= 65536 →
  ∃ c' cs',
    send_data_with_retries
      (Conn (rx_bytes
               (concat (replicate
                          (Z.to_nat ((Z.of_nat (length data) + 8191) / 8192))
                          ack_header)))
            [] [] [] false)
      a data max_retries cs
    = (SendTrue, c', cs') ∧
    Z.of_nat (length (outbox c'))
      = 3 * ((Z.of_nat (length data) + 8191) / 8192) ∧
    Z.of_nat (length (concat (outbox c')))
      = Z.of_nat (length data) + 10 * ((Z.of_nat (length data) + 8191) / 8192) ∧
    get_send (client_ip a) cs'
      = get_send (client_ip a) cs + (Z.of_nat (length data) + 8191) / 8192.
Proof.
  intros Hne Hmr Hs0 Hs1.
  assert (Hmp : (0 < max_piece)%nat) by (vm_compute; lia).
  pose proof (chunks_count max_piece data Hmp) as Hcount.
  change (Z.of_nat max_piece) with 8192 in Hcount.
  replace (Z.of_nat (length data) + 8192 - 1)
    with (Z.of_nat (length data) + 8191) in Hcount by lia.
  rewrite <- Hcount in *. rewrite Nat2Z.id.
  set (pieces := chunks max_piece data) in *.
  destruct (send_loop_lossless (client_ip a) data max_retries Hmr
              (length data) 0%nat (get_send (client_ip a) cs)
              (sleep (Conn (rx_bytes (concat (replicate (length pieces) ack_header)))
                           [] [] [] false) 200)
              (ensure_session (client_ip a) cs))
    as (c' & Hsend & Hout & _ & _);
    [change (drop 0 data) with data; lia | lia | done | done | done
    | exact Hs1 |].
  change (drop 0 data) with data in Hsend, Hout.
  fold pieces in Hsend, Hout. cbn [sleep outbox app] in Hout.
  eexists c', _. split.
  { unfold send_data_with_retries.
    rewrite ensure_session_get_send, Hsend. reflexivity. }
  assert (Hcat : concat pieces = data) by (by apply chunks_concat).
  rewrite Hout, frames_count, frames_bytes by (by apply chunks_sizes).
  rewrite Hcat.
  split; [lia|]. split; [lia|].
  destruct pieces as [|p ps] eqn:Ep.
  { by apply chunks_nonempty in Ep. }
  apply get_send_set_send, ensure_session_is_Some.
Qed.

Lemma lossless_send_cost_witness :
  ∃ c' cs',
    send_data_with_retries
      (Conn (rx_bytes
               (concat (replicate
                          (Z.to_nat ((Z.of_nat (length sample_payload) + 8191) / 8192))
                          ack_header)))
            [] [] [] false)
      satellite_end sample_payload 5 ∅
    = (SendTrue, c', cs') ∧
    Z.of_nat (length (outbox c'))
      = 3 * ((Z.of_nat (length sample_payload) + 8191) / 8192) ∧
    Z.of_nat (length (concat (outbox c')))
      = Z.of_nat (length sample_payload)
        + 10 * ((Z.of_nat (length sample_payload) + 8191) / 8192) ∧
    get_send (client_ip satellite_end) cs'
      = get_send (client_ip satellite_end) ∅
        + (Z.of_nat (length sample_payload) + 8191) / 8192.
Proof.
  apply (lossless_send_cost sample_payload satellite_end 5 ∅).
  - vm_compute. discriminate.
  - lia.
  - vm_compute. discriminate.
  - vm_compute. discriminate.
Defined.

(** ** WAV containers *)

Lemma pack_le_None n v :
  ¬ (0 <= v < 256 ^ Z.of_nat n) → pack_le n v = None.
Proof. intros Hv. unfold pack_le. by rewrite bool_decide_eq_false_2. Qed.

Lemma create_wav_too_long pcm_data :
  2 ^ 32 <= Z.of_nat (length pcm_data) + 36 →
  create_wav_from_pcm pcm_data 16000 1 2 = None.
Proof.
  intros Hlen. unfold create_wav_from_pcm.
  rewrite !bool_decide_eq_false_2 by lia.
  set (n := Z.of_nat (length pcm_data)) in *.
  set (d := n / (1 * 2) * 1 * 2).
  assert (Hd : 0 <= d <= n).
  { unfold d. pose proof (Z.div_mod n 2 ltac:(lia)).
    pose proof (Z.mod_pos_bound n 2 ltac:(lia)).
    replace (1 * 2) with 2 by lia. lia. }
  unfold wave_header.
  destruct (Z_lt_dec (36 + d) (2 ^ 32)) as [Hfit|Hbig].
  - rewrite ?(pack_le_Some _ 16), ?(pack_le_Some _ 1), ?(pack_le_Some _ 16000),
      ?(pack_le_Some 4 (36 + d)), ?(pack_le_Some _ (1 * 16000 * 2)),
      ?(pack_le_Some _ (1 * 2)), ?(pack_le_Some _ (2 * 8)), ?(pack_le_Some 4 d)
      by field_width.
    cbn [mbind option_bind].
    rewrite bool_decide_eq_true_2 by lia.
    rewrite (pack_le_None 4 (36 + n)) by field_width.
    reflexivity.
  - rewrite (pack_le_None 4 (36 + d)) by field_width.
    reflexivity.
Qed.

Lemma create_wav_inv pcm_data out :
  create_wav_from_pcm pcm_data 16000 1 2 = Some out →
  out = wav_header44 (36 + Z.of_nat (length pcm_data))
          (Z.of_nat (length pcm_data)) ++ pcm_data.
Proof.
  intros H.
  destruct (Z_lt_dec (Z.of_nat (length pcm_data) + 36) (2 ^ 32)) as [Hfit|Hbig].
  - rewrite create_wav_default in H by done. by injection H.
  - rewrite create_wav_too_long in H by lia. done.
Qed.

Lemma repair_wav_too_long corrupted_wav :
  (44 <= length corrupted_wav)%nat →
  2 ^ 32 + 8 <= Z.of_nat (length corrupted_wav) →
  repair_wav_file corrupted_wav = None.
Proof.
  intros Hmin Hmax. unfold repair_wav_file.
  rewrite bool_decide_eq_false_2 by lia.
  destruct (pack_le 4 (Z.of_nat (length corrupted_wav) - 44)); [|done].
  cbn [mbind option_bind].
  rewrite (pack_le_None 4 (Z.of_nat (length corrupted_wav) - 8)) by field_width.
  reflexivity.
Qed.

(** What [ensure_valid_wav_format] can return: its input, or a canonical
    44-byte header followed by some bytes. *)
Lemma ensure_valid_shape audio_data out :
  ensure_valid_wav_format audio_data = Some out →
  (out = audio_data ∧ (44 <= length audio_data)%nat ∧
   slice 0 4 audio_data = RIFF ∧ slice 8 12 audio_data = WAVE) ∨
  ∃ r d tail, out = wav_header44 r d ++ tail.
Proof.
  unfold ensure_valid_wav_format.
  destruct (bool_decide_reflect (44 <= length audio_data)%nat) as [H44|H44];
    destruct (bool_decide_reflect (slice 0 4 audio_data = RIFF)) as [Hr|Hr];
    destruct (bool_decide_reflect (slice 8 12 audio_data = WAVE)) as [Hw|Hw];
    cbn [andb orb];
    try (intros [= <-]; by left).
  all: destruct (bool_decide_reflect (12 <= length audio_data)%nat) as [H12|H12].
  all: intros Hens; right.
  all: try (apply create_wav_inv in Hens; eauto; fail).
  all: try (unfold repair_wav_file in Hens;
            rewrite bool_decide_eq_true_2 in Hens by lia;
            apply create_wav_inv in Hens; eauto; fail).
  all: destruct (Z_lt_dec (Z.of_nat (length audio_data)) (2 ^ 32 + 8));
    [ rewrite repair_wav_file_eq in Hens by (done || lia);
      injection Hens as <-; eauto
    | rewrite repair_wav_too_long in Hens by (done || lia); done ].
Qed.

Lemma wav_header44_markers r d tail :
  (44 <= length (wav_header44 r d ++ tail))%nat ∧
  slice 0 4 (wav_header44 r d ++ tail) = RIFF ∧
  slice 8 12 (wav_header44 r d ++ tail) = WAVE.
Proof. split; [rewrite wav_header44_length; lia|]. split; reflexivity. Qed.

(** X17. Whatever [ensure_valid_wav_format] returns is at least 44 bytes
    long with RIFF at offset 0 and WAVE at offset 8, so that running it, or
    [process_audio], on its own output changes nothing. *)
Theorem ensure_valid_idempotent audio_data out :
  ensure_valid_wav_format audio_data = Some out →
  (44 <= length out)%nat ∧
  slice 0 4 out = RIFF ∧ slice 8 12 out = WAVE ∧
  ensure_valid_wav_format out = Some out ∧
  process_audio out = Some out.
Proof.
  intros H.
  assert (Hm : (44 <= length out)%nat ∧ slice 0 4 out = RIFF ∧
               slice 8 12 out = WAVE).
  { apply ensure_valid_shape in H as [(-> & ? & ? & ?)|(r & d & tail & ->)];
      [done | apply wav_header44_markers]. }
  destruct Hm as (H44 & Hr & Hw).
  split; [done|]. split; [done|]. split; [done|]. split.
  - by apply ensure_valid_both_markers.
  - unfold process_audio. by rewrite !bool_decide_eq_true_2 by done.
Qed.

Lemma ensure_valid_idempotent_witness :
  (44 <= length (wav_header44 (36 + 3) 3 ++ [x01; x02; x03]))%nat ∧
  slice 0 4 (wav_header44 (36 + 3) 3 ++ [x01; x02; x03]) = RIFF ∧
  slice 8 12 (wav_header44 (36 + 3) 3 ++ [x01; x02; x03]) = WAVE ∧
  ensure_valid_wav_format (wav_header44 (36 + 3) 3 ++ [x01; x02; x03])
    = Some (wav_header44 (36 + 3) 3 ++ [x01; x02; x03]) ∧
  process_audio (wav_header44 (36 + 3) 3 ++ [x01; x02; x03])
    = Some (wav_header44 (36 + 3) 3 ++ [x01; x02; x03]).
Proof.
  apply (ensure_valid_idempotent [x01; x02; x03]).
  vm_compute. reflexivity.
Defined.

(** X18. Input that passes [verify_wav_format] is never altered, by
    [ensure_valid_wav_format] or by [process_audio]. *)
Theorem well_formed_untouched wav_bytes :
  verify_wav_format wav_bytes = true →
  ensure_valid_wav_format wav_bytes = Some wav_bytes ∧
  process_audio wav_bytes = Some wav_bytes.
Proof.
  unfold verify_wav_format.
  destruct (bool_decide_reflect (length wav_bytes < 44)%nat) as [|H44]; [done|].
  destruct (bool_decide_reflect (slice 0 4 wav_bytes ≠ RIFF)) as [|Hr]; [done|].
  destruct (bool_decide_reflect (slice 8 12 wav_bytes ≠ WAVE)) as [|Hw]; [done|].
  intros _.
  assert (slice 0 4 wav_bytes = RIFF)
    by (destruct (decide (slice 0 4 wav_bytes = RIFF)); done).
  assert (slice 8 12 wav_bytes = WAVE)
    by (destruct (decide (slice 8 12 wav_bytes = WAVE)); done).
  split.
  - apply ensure_valid_both_markers; [lia | done | done].
  - unfold process_audio.
    by rewrite !bool_decide_eq_true_2 by (done || lia).
Qed.

Lemma well_formed_untouched_witness :
  ensure_valid_wav_format (wav_header44 36 0 ++ [])
    = Some (wav_header44 36 0 ++ []) ∧
  process_audio (wav_header44 36 0 ++ []) = Some (wav_header44 36 0 ++ []).
Proof.
  apply (well_formed_untouched (wav_header44 36 0 ++ [])).
  vm_compute. reflexivity.
Defined.

(** X19. An input shorter than 44 bytes is always taken for raw samples,
    whatever it starts with: the whole input, a truncated RIFF header
    included, follows a fresh 44-byte header whose data length is the
    length of the input.  The empty input gives a header alone. *)
Theorem short_input_wrapped_whole audio_data :
  (length audio_data < 44)%nat →
  ensure_valid_wav_format audio_data
    = Some (wav_header44 (36 + Z.of_nat (length audio_data))
              (Z.of_nat (length audio_data)) ++ audio_data).
Proof.
  intros Hshort.
  assert (Hc : create_wav_from_pcm audio_data 16000 1 2
               = Some (wav_header44 (36 + Z.of_nat (length audio_data))
                         (Z.of_nat (length audio_data)) ++ audio_data)).
  { apply create_wav_default. lia. }
  unfold ensure_valid_wav_format, repair_wav_file.
  rewrite (bool_decide_eq_false_2 (44 <= _)%nat) by lia. cbn [andb].
  rewrite (bool_decide_eq_true_2 (_ < 44)%nat) by lia.
  repeat case_bool_decide; cbn [orb]; exact Hc.
Qed.

Lemma short_input_wrapped_whole_witness :
  ensure_valid_wav_format (RIFF ++ [x24; x00; x00; x00] ++ WAVE ++ FMT_)
  = Some (wav_header44
            (36 + Z.of_nat (length (RIFF ++ [x24; x00; x00; x00] ++ WAVE ++ FMT_)))
            (Z.of_nat (length (RIFF ++ [x24; x00; x00; x00] ++ WAVE ++ FMT_)))
          ++ (RIFF ++ [x24; x00; x00; x00] ++ WAVE ++ FMT_)).
Proof.
  apply (short_input_wrapped_whole (RIFF ++ [x24; x00; x00; x00] ++ WAVE ++ FMT_)).
  simpl. lia.
Defined.

Lemma silence_length n :
  length (concat (replicate n [x00; x00])) = (2 * n)%nat.
Proof. induction n as [|n IH]; [done|]. cbn [replicate concat app length]. lia. Qed.

(** X20. [make_silent_wav] builds a well-formed container around silence:
    for a rate below 2^31 and a duration such that [sr * ms] stays below
    2^32 (where the float quotient of the source is the integer quotient),
    the result passes [verify_wav_format], is 44 bytes of header and two
    zero bytes per sample, and its header declares that data length, the
    matching RIFF size, the given rate, twice that as byte rate, one
    channel and 16 bits. *)
Theorem make_silent_wav_well_formed sr ms :
  0 <= sr < 2 ^ 31 → 0 <= ms → sr * ms < 2 ^ 32 →
  ∃ w,
    make_silent_wav sr ms = Some w ∧
    verify_wav_format w = true ∧
    drop 44 w = concat (replicate (Z.to_nat (sr * ms / 1000)) [x00; x00]) ∧
    wav_data_size w = 2 * (sr * ms / 1000) ∧
    wav_riff_size w = 36 + 2 * (sr * ms / 1000) ∧
    wav_sample_rate w = sr ∧
    wav_byte_rate w = sr * 2 ∧
    wav_channels w = 1 ∧
    wav_bits_per_sample w = 16.
Proof.
  intros Hsr Hms Hprod. unfold make_silent_wav.
  assert (Hn : 0 <= sr * ms / 1000 <= sr * ms).
  { split; [apply Z.div_pos; lia|].
    apply Z.div_le_upper_bound; [lia|]. nia. }
  rewrite silence_length.
  replace (Z.of_nat (2 * Z.to_nat (sr * ms / 1000))) with (2 * (sr * ms / 1000))
    by lia.
  set (n := sr * ms / 1000) in *.
  assert (H36 : 36 + 2 * n < 2 ^ 32).
  { assert (1000 * n <= sr * ms) by (unfold n; apply Z.mul_div_le; lia). lia. }
  rewrite !pack_le_Some by field_width.
  cbn [mbind option_bind].
  eexists. split; [reflexivity|].
  unfold wav_data_size, wav_riff_size, wav_sample_rate, wav_byte_rate,
    wav_channels, wav_bits_per_sample, verify_wav_format.
  cells.
  split.
  { rewrite bool_decide_eq_false_2 by lia.
    rewrite !bool_decide_eq_false_2; [done | by intros H; apply H ..]. }
  split; [reflexivity|].
  split; [apply (le_value_le_bytes 4); field_width|].
  split; [apply (le_value_le_bytes 4); field_width|].
  split; [apply (le_value_le_bytes 4); field_width|].
  split; [apply (le_value_le_bytes 4); field_width|].
  split; vm_compute; reflexivity.
Qed.

(** The fallback of the handlers: a quarter of a second at 16 kHz. *)
Lemma make_silent_wav_well_formed_witness :
  ∃ w,
    make_silent_wav 16000 250 = Some w ∧
    verify_wav_format w = true ∧
    drop 44 w = concat (replicate (Z.to_nat (16000 * 250 / 1000)) [x00; x00]) ∧
    wav_data_size w = 2 * (16000 * 250 / 1000) ∧
    wav_riff_size w = 36 + 2 * (16000 * 250 / 1000) ∧
    wav_sample_rate w = 16000 ∧
    wav_byte_rate w = 16000 * 2 ∧
    wav_channels w = 1 ∧
    wav_bits_per_sample w = 16.
Proof.
  apply (make_silent_wav_well_formed 16000 250); lia.
Defined.

(** ** Handshake *)

(** The run of the handshake on a well-formed opening, with the
    connection it leaves. *)
Lemma handshake_wellformed_conn c a cs header rest h :
  inbox c = rx_bytes header ++ rx_bytes expected_magic ++ rest →
  parse_packet_header header = Some h →
  h_type h = PACKET_TYPE_HANDSHAKE →
  h_length h = 4 →
  h_checksum h = calculate_checksum expected_magic →
  handle_handshake c a cs =
    (bool_decide (writable c),
     (if bool_decide (writable c)
      then Conn rest (tail (tx_script c)) (outbox c ++ [ack_header])
                (slept c ++ [50; 50]) (closed c)
      else Conn rest (tail (tx_script c)) (outbox c) (slept c ++ [50]) (closed c)),
     <[client_ip a := Session 0 0]> cs).
Proof.
  intros Hi Hp Ht Hn Hc.
  unfold handle_handshake, PACKET_HEADER_SIZE.
  apply parse_version in Hp as Hl. destruct Hl as [Hl _].
  rewrite <- Hl, (read_exact_app c header _ Hi).
  destruct header as [|b0 header]; [done|].
  cbn [falsy default from_option id]. rewrite Hp. cbv beta iota zeta.
  rewrite bool_decide_eq_false_2 by auto.
  rewrite Hn. change (Z.to_nat 4) with (length expected_magic).
  rewrite (read_exact_app _ expected_magic rest) by done.
  cbn [falsy default from_option id expected_magic].
  fold expected_magic.
  rewrite bool_decide_eq_false_2 by (rewrite Hc; auto).
  rewrite bool_decide_eq_false_2 by auto.
  unfold send_ack. rewrite sendall_spec.
  cbn [sleep set_inbox inbox tx_script outbox slept closed]. unfold writable.
  case_bool_decide; unfold sleep;
    cbn [negb inbox tx_script outbox slept closed];
    by rewrite <- ?app_assoc.
Qed.



(** X22. The session is created before the Ack is written: when the
    opening is well formed but the Ack cannot be written, the handshake
    returns [False] and yet leaves a session with both counters at 0 in the
    table, for the caller to remove. *)
Theorem handshake_ack_failure_leaves_session c a cs :
  handshake_wellformed c → ¬ writable c →
  (handle_handshake c a cs).1.1 = false ∧
  (handle_handshake c a cs).2 !! client_ip a = Some (Session 0 0) ∧
  outbox (handle_handshake c a cs).1.2 = outbox c.
Proof.
  intros Hw Hnw.
  destruct (handshake_wellformed_run c a cs Hw) as (c' & -> & Ho).
  rewrite bool_decide_eq_false_2 in * by done. cbn [fst snd].
  split; [done|]. split; [apply lookup_insert_eq | done].
Qed.

Lemma handshake_ack_failure_leaves_session_witness :
  (handle_handshake
     (Conn (rx_bytes [x00; x00; x00; x04; x01; x01; x36; xdd]
              ++ rx_bytes expected_magic ++ [])
           [false] [] [] false)
     server_end ∅).1.1 = false ∧
  (handle_handshake
     (Conn (rx_bytes [x00; x00; x00; x04; x01; x01; x36; xdd]
              ++ rx_bytes expected_magic ++ [])
           [false] [] [] false)
     server_end ∅).2 !! client_ip server_end = Some (Session 0 0) ∧
  outbox (handle_handshake
            (Conn (rx_bytes [x00; x00; x00; x04; x01; x01; x36; xdd]
                     ++ rx_bytes expected_magic ++ [])
                  [false] [] [] false)
            server_end ∅).1.2
  = outbox (Conn (rx_bytes [x00; x00; x00; x04; x01; x01; x36; xdd]
                    ++ rx_bytes expected_magic ++ [])
                 [false] [] [] false).
Proof.
  apply (handshake_ack_failure_leaves_session
           (Conn (rx_bytes [x00; x00; x00; x04; x01; x01; x36; xdd]
                    ++ rx_bytes expected_magic ++ [])
                 [false] [] [] false)
           server_end ∅).
  - exists [x00; x00; x00; x04; x01; x01; x36; xdd], expected_magic, [],
      (HeaderInfo 4 1 PACKET_TYPE_HANDSHAKE 0x36dd).
    repeat split; reflexivity.
  - unfold writable. cbn. intros H. by apply H.
Defined.

(** ** Connection handler *)

(** The body of the handler, stage by stage. *)
Lemma connection_body_stages e c a cs :
  connection_body e c a cs =
    if negb (setsockopt_ok e) then (ExitException, c, cs) else
    let '(ok, c1, cs1) := handle_handshake c a cs in
    if negb ok then (ExitHandshakeFailed, c1, cs1) else
    let '(received_data, c2, cs2) :=
      receive_data_with_verification c1 a default_max_size cs1 in
    match received_data with
    | None => (ExitReceiveFailed, c2, cs2)
    | Some received_data =>
        if negb (save_ok e) then (ExitException, c2, cs2) else
        match prepare_reply e received_data with
        | None => (ExitException, c2, cs2)
        | Some reply_bytes =>
            let '(r, c3, cs3) :=
              send_data_with_retries c2 a reply_bytes default_max_retries cs2 in
            (match r with
             | SendTrue => ExitFinished
             | SendFalse => ExitSendFailed
             | SendRaised => ExitException
             end, c3, cs3)
        end
    end.
Proof.
  unfold connection_body, prepare_reply.
  destruct (setsockopt_ok e); [|done]. cbn [negb].
  destruct (handle_handshake c a cs) as [[[] c1] cs1]; [|done]. cbn [negb].
  destruct (receive_data_with_verification c1 a default_max_size cs1)
    as [[[d|] c2] cs2]; [|done].
  destruct (save_ok e); [|done]. cbn [negb].
  destruct (if negb (verify_wav_format d) then ensure_valid_wav_format d
            else Some d) as [d'|]; [|done].
  cbn [mbind option_bind].
  destruct (if ECHO_MODE e then process_audio d' else _) as [r|]; [|done].
  cbn [mbind option_bind].
  destruct (if negb (verify_wav_format r) then ensure_valid_wav_format r
            else Some r) as [r'|]; [|done].
  destruct (send_data_with_retries c2 a r' default_max_retries cs2)
    as [[[] c3] cs3]; done.
Qed.

Lemma verify_wav_format_markers wav_bytes :
  verify_wav_format wav_bytes = true →
  (44 <= length wav_bytes)%nat ∧
  slice 0 4 wav_bytes = RIFF ∧ slice 8 12 wav_bytes = WAVE.
Proof.
  unfold verify_wav_format.
  destruct (bool_decide_reflect (length wav_bytes < 44)%nat) as [|H44]; [done|].
  destruct (bool_decide_reflect (slice 0 4 wav_bytes ≠ RIFF)) as [|Hr]; [done|].
  destruct (bool_decide_reflect (slice 8 12 wav_bytes ≠ WAVE)) as [|Hw]; [done|].
  intros _. split; [lia|]. split.
  - by destruct (decide (slice 0 4 wav_bytes = RIFF)).
  - by destruct (decide (slice 8 12 wav_bytes = WAVE)).
Qed.

Lemma ensure_valid_markers audio_data out :
  ensure_valid_wav_format audio_data = Some out →
  (44 <= length out)%nat ∧ slice 0 4 out = RIFF ∧ slice 8 12 out = WAVE.
Proof.
  intros H.
  apply ensure_valid_shape in H as [(-> & ? & ? & ?)|(r & d & tail & ->)];
    [done | apply wav_header44_markers].
Qed.

Lemma process_audio_both_markers wav_bytes :
  (44 <= length wav_bytes)%nat →
  slice 0 4 wav_bytes = RIFF → slice 8 12 wav_bytes = WAVE →
  process_audio wav_bytes = Some wav_bytes.
Proof.
  intros H44 Hr Hw. unfold process_audio.
  by rewrite !bool_decide_eq_true_2 by done.
Qed.

Lemma repaired_markers x out :
  (if negb (verify_wav_format x) then ensure_valid_wav_format x else Some x)
    = Some out →
  (44 <= length out)%nat ∧ slice 0 4 out = RIFF ∧ slice 8 12 out = WAVE.
Proof.
  destruct (verify_wav_format x) eqn:Hv; cbn [negb].
  - intros [= <-]. by apply verify_wav_format_markers.
  - apply ensure_valid_markers.
Qed.

(** X23. The payload that the handler hands to the sender is never empty:
    in every mode and for every received buffer it is at least 44 bytes
    long and starts with RIFF, with WAVE at offset 8; and in echo mode a
    received buffer that passes [verify_wav_format] is the reply itself. *)
Theorem reply_never_empty e received_data reply_bytes :
  prepare_reply e received_data = Some reply_bytes →
  (44 <= length reply_bytes)%nat ∧
  slice 0 4 reply_bytes = RIFF ∧ slice 8 12 reply_bytes = WAVE ∧
  (ECHO_MODE e = true → verify_wav_format received_data = true →
   reply_bytes = received_data).
Proof.
  unfold prepare_reply. intros H.
  destruct (if negb (verify_wav_format received_data)
            then ensure_valid_wav_format received_data
            else Some received_data) as [d'|] eqn:Ed; [|done].
  cbn [mbind option_bind] in H.
  destruct (if ECHO_MODE e then process_audio d' else _) as [r|] eqn:Er; [|done].
  cbn [mbind option_bind] in H.
  destruct (repaired_markers _ _ H) as (H44 & Hr & Hw).
  split; [done|]. split; [done|]. split; [done|].
  intros Hecho Hv. rewrite Hecho in Er. rewrite Hv in Ed. cbn [negb] in Ed.
  injection Ed as <-.
  destruct (verify_wav_format_markers _ Hv) as (H44' & Hr' & Hw').
  rewrite process_audio_both_markers in Er by done. injection Er as <-.
  rewrite Hv in H. cbn [negb] in H. by injection H.
Qed.

Lemma reply_never_empty_witness :
  (44 <= length (wav_header44 36 0 ++ []))%nat ∧
  slice 0 4 (wav_header44 36 0 ++ []) = RIFF ∧
  slice 8 12 (wav_header44 36 0 ++ []) = WAVE ∧
  (ECHO_MODE (Env true true true (λ _, ""%string) ReplyMissing) = true →
   verify_wav_format [] = true →
   wav_header44 36 0 ++ [] = []).
Proof.
  apply (reply_never_empty (Env true true true (λ _, ""%string) ReplyMissing)
           [] (wav_header44 36 0 ++ [])).
  vm_compute. reflexivity.
Defined.

Lemma handshake_other_sessions c a (cs : gmap string session) ip' :
  ip' ≠ client_ip a →
  (handle_handshake c a cs).2 !! ip' = cs !! ip'.
Proof.
  intros Hne.
  destruct (handshake_cases c a cs) as [(c' & -> & _)|Hw]; [done|].
  destruct (handshake_wellformed_run c a cs Hw) as (c' & -> & _).
  cbn [snd]. by apply lookup_insert_ne.
Qed.

Lemma ensure_session_other ip ip' (cs : gmap string session) :
  ip' ≠ ip → ensure_session ip cs !! ip' = cs !! ip'.
Proof.
  intros Hne. unfold ensure_session.
  destruct (cs !! ip); [done|]. by apply lookup_insert_ne.
Qed.

Lemma receive_loop_other_sessions fuel ip max_size st r st' ip' :
  ip' ≠ ip →
  receive_loop fuel ip max_size st = Some (r, st') →
  r_sessions st' !! ip' = r_sessions st !! ip'.
Proof.
  intros Hne. revert st; induction fuel as [|fuel IH]; intros st; [done|].
  cbn [receive_loop].
  destruct (receive_body ip max_size st) as [f st1] eqn:E.
  assert (Hstep : r_sessions st1 !! ip' = r_sessions st !! ip').
  { apply receive_body_moves in E as [(-> & _)|(chunk & _ & _ & _ & ->)];
      [done|]. unfold set_receive. by apply lookup_alter_ne. }
  destruct f as [|r1].
  - intros H. rewrite (IH _ H). done.
  - intros [= <- <-]. done.
Qed.

Lemma receive_other_sessions c a max_size (cs : gmap string session) ip' :
  ip' ≠ client_ip a →
  (receive_data_with_verification c a max_size cs).2 !! ip' = cs !! ip'.
Proof.
  intros Hne.
  destruct (receive_data_with_verification_loop c a max_size cs)
    as (st' & Hloop & _ & ->).
  rewrite (receive_loop_other_sessions _ _ _ _ _ _ ip' Hne Hloop).
  cbn [r_sessions]. by apply ensure_session_other.
Qed.

Lemma send_loop_other_sessions fuel ip data max_retries c
    (cs : gmap string session) total_sent send_sequence r c' cs' ip' :
  ip' ≠ ip →
  send_loop fuel ip data max_retries c cs total_sent send_sequence
    = Some (r, c', cs') →
  cs' !! ip' = cs !! ip'.
Proof.
  intros Hne. revert c cs total_sent send_sequence.
  induction fuel as [|fuel IH]; intros c cs total_sent send_sequence;
    cbn [send_loop]; case_bool_decide; try done;
    try (by intros [= _ _ <-]).
  cbv zeta.
  destruct (build_packet_header _ _ _); [|by intros [= _ _ <-]].
  destruct (pack_be 2 send_sequence); [|by intros [= _ _ <-]].
  destruct (retry_loop _ _ _ _ _ _) as [[] c1];
    try (by intros [= _ _ <-]).
  intros Hrun. rewrite (IH _ _ _ _ Hrun).
  unfold set_send. by apply lookup_alter_ne.
Qed.

Lemma send_other_sessions c a data max_retries (cs : gmap string session) ip' :
  ip' ≠ client_ip a →
  (send_data_with_retries c a data max_retries cs).2 !! ip' = cs !! ip'.
Proof.
  intros Hne.
  pose proof (send_data_with_retries_loop c a data max_retries cs) as Hloop.
  destruct (send_data_with_retries c a data max_retries cs) as [[r c'] cs'].
  cbn [snd].
  rewrite (send_loop_other_sessions _ _ _ _ _ _ _ _ _ _ _ ip' Hne Hloop).
  by apply ensure_session_other.
Qed.

Lemma connection_body_other_sessions e c a (cs : gmap string session) ip' :
  ip' ≠ client_ip a →
  (connection_body e c a cs).2 !! ip' = cs !! ip'.
Proof.
  intros Hne. rewrite connection_body_stages.
  destruct (setsockopt_ok e); [|done]. cbn [negb].
  pose proof (handshake_other_sessions c a cs ip' Hne) as Hh.
  destruct (handle_handshake c a cs) as [[ok c1] cs1]. cbn [snd] in Hh.
  destruct ok; [|done]. cbn [negb].
  pose proof (receive_other_sessions c1 a default_max_size cs1 ip' Hne) as Hr.
  destruct (receive_data_with_verification c1 a default_max_size cs1)
    as [[rd c2] cs2]. cbn [snd] in Hr.
  destruct rd as [d|]; [|cbn; congruence].
  destruct (save_ok e); [|cbn; congruence]. cbn [negb].
  destruct (prepare_reply e d) as [reply|]; [|cbn; congruence].
  pose proof (send_other_sessions c2 a reply default_max_retries cs2 ip' Hne)
    as Hs.
  destruct (send_data_with_retries c2 a reply default_max_retries cs2)
    as [[r c3] cs3]. cbn [snd] in *. congruence.
Qed.

(** X24. A connection only ever touches its own entry of the session
    table: whatever happens on the connection, the entries of all other
    clients are, when the handler returns, what they were when it
    started. *)
Theorem handler_keeps_other_sessions e c a (cs : gmap string session) ip' :
  ip' ≠ client_ip a →
  (handle_connection_improved e c a cs).2 !! ip' = cs !! ip'.
Proof.
  intros Hne. unfold handle_connection_improved.
  pose proof (connection_body_other_sessions e c a cs ip' Hne) as Hb.
  destruct (connection_body e c a cs) as [[path c1] cs1]. cbn [snd] in *.
  case_bool_decide; [|done].
  by rewrite lookup_delete_ne.
Qed.

Lemma handler_keeps_other_sessions_witness :
  (handle_connection_improved
     (Env true true true (λ _, ""%string) ReplyMissing)
     (Conn (rx_bytes ([x00; x00; x00; x04; x01; x01; x36; xdd]
                      ++ expected_magic)) [] [] [] false)
     server_end
     {[ client_ip satellite_end := Session 7 9 ]}).2
    !! client_ip satellite_end
  = ({[ client_ip satellite_end := Session 7 9 ]} : gmap string session)
      !! client_ip satellite_end.
Proof.
  apply (handler_keeps_other_sessions
           (Env true true true (λ _, ""%string) ReplyMissing)
           (Conn (rx_bytes ([x00; x00; x00; x04; x01; x01; x36; xdd]
                            ++ expected_magic)) [] [] [] false)
           server_end
           {[ client_ip satellite_end := Session 7 9 ]}
           (client_ip satellite_end)).
  vm_compute. discriminate.
Defined.

(** ** The original connection handler *)

Lemma close_set_inbox c rest :
  close (set_inbox c rest)
  = Conn rest (tx_script c) (outbox c) (slept c) true.
Proof. done. Qed.

(** The request of the original protocol read off the stream: with a
    4-byte length followed by that many bytes (at least one, at most the
    maximum) in the inbox, what is left of the [try] block is the making
    and the sending of the reply. *)
Lemma legacy_body_request e c a data rest :
  data ≠ [] →
  Z.of_nat (length data) <= legacy_max_length →
  inbox c = rx_bytes (be_bytes 4 (Z.of_nat (length data)) ++ data) ++ rest →
  save_ok e = true →
  legacy_body e c a =
    match (if ECHO_MODE e then process_audio data
           else match REPLY_WAV e with
                | ReplyContent content => Some content
                | ReplyUnreadable => None
                | ReplyMissing => make_silent_wav 16000 250
                end) with
    | None => (LegacyException, set_inbox c rest)
    | Some reply_bytes =>
        match pack_be 4 (Z.of_nat (length reply_bytes)) with
        | None => (LegacyException, set_inbox c rest)
        | Some length_header =>
            let '(ok, c) := send_exact (set_inbox c rest) length_header in
            if negb ok then (LegacyHeaderNotSent, c) else
            let '(ok, c) := send_exact c reply_bytes in
            if negb ok then (LegacyDataNotSent, c) else
            (LegacySent, c)
        end
    end.
Proof.
  intros Hne Hmax Hi Hsave.
  assert (Hpos : 0 < Z.of_nat (length data))
    by (destruct data; [done | simpl; lia]).
  assert (Hw : 0 <= Z.of_nat (length data) < 256 ^ Z.of_nat 4)
    by (unfold legacy_max_length in Hmax; field_width; lia).
  unfold legacy_body.
  rewrite rx_bytes_app, <- app_assoc in Hi.
  replace (read_exact c 4)
    with (read_exact c (length (be_bytes 4 (Z.of_nat (length data)))))
    by (by rewrite be_bytes_length).
  rewrite (read_exact_app c _ _ Hi).
  assert (Hf : falsy (Some (be_bytes 4 (Z.of_nat (length data)))) = false).
  { pose proof (be_bytes_length 4 (Z.of_nat (length data))) as Hl.
    destruct (be_bytes 4 (Z.of_nat (length data))); [done|done]. }
  rewrite Hf. cbn [default from_option id]. cbv beta iota zeta.
  rewrite be_value_be_bytes by done.
  rewrite (bool_decide_eq_false_2 (Z.of_nat (length data) <= 0)) by lia.
  rewrite (bool_decide_eq_false_2 (Z.of_nat (length data) > legacy_max_length))
    by lia.
  cbn [orb]. rewrite Nat2Z.id.
  rewrite (read_exact_app (set_inbox c _) data rest) by done.
  rewrite set_inbox_twice, Hsave. cbn [negb]. reflexivity.
Qed.

(** X25. The original handler turns a declared length of 0, or of more
    than 10 MiB, down on the spot: after the four bytes of the length it
    reads nothing more and writes nothing, and the socket is closed. *)
Theorem legacy_invalid_length_refused e c a raw rest :
  inbox c = rx_bytes raw ++ rest →
  length raw = 4%nat →
  be_value raw = 0 ∨ 10 * 1024 * 1024 < be_value raw →
  handle_connection e c a
  = (LegacyInvalidLength,
     Conn rest (tx_script c) (outbox c) (slept c) true).
Proof.
  intros Hi Hl Hv. unfold handle_connection, legacy_body.
  rewrite <- Hl, (read_exact_app c raw rest Hi).
  destruct raw as [|b0 raw]; [done|].
  cbn [falsy default from_option id]. cbv beta iota zeta.
  assert (Hb : bool_decide (be_value (b0 :: raw) <= 0)
               || bool_decide (be_value (b0 :: raw) > legacy_max_length)
               = true).
  { destruct Hv as [Hv|Hv].
    - rewrite bool_decide_eq_true_2 by lia. done.
    - rewrite (bool_decide_eq_true_2 (_ > _))
        by (unfold legacy_max_length; lia).
      apply orb_true_r. }
  rewrite Hb. done.
Qed.

Lemma legacy_invalid_length_refused_witness :
  handle_connection (Env true true true (λ _, ""%string) ReplyMissing)
    (Conn (rx_bytes ([x00; xa0; x00; x01] ++ [x52; x49])) [] [] [] false)
    satellite_end
  = (LegacyInvalidLength, Conn (rx_bytes [x52; x49]) [] [] [] true).
Proof.
  apply (legacy_invalid_length_refused
           (Env true true true (λ _, ""%string) ReplyMissing)
           (Conn (rx_bytes ([x00; xa0; x00; x01] ++ [x52; x49])) [] [] [] false)
           satellite_end [x00; xa0; x00; x01] (rx_bytes [x52; x49])).
  - reflexivity.
  - reflexivity.
  - right. vm_compute. reflexivity.
Defined.


(** X27. The original handler in echo mode, on a connection that accepts
    every write: a request whose body passes [verify_wav_format] (and is
    no longer than 10 MiB) comes back as it went, the same 4-byte length
    followed by the same bytes; nothing of what follows the request on the
    stream is read. *)
Theorem legacy_echo_round_trip e c a data rest :
  ECHO_MODE e = true →
  save_ok e = true →
  verify_wav_format data = true →
  Z.of_nat (length data) <= 10 * 1024 * 1024 →
  inbox c = rx_bytes (be_bytes 4 (Z.of_nat (length data)) ++ data) ++ rest →
  tx_script c = [] →
  handle_connection e c a
  = (LegacySent,
     Conn rest []
       (outbox c ++ [be_bytes 4 (Z.of_nat (length data)); data])
       (slept c) true).
Proof.
  intros He Hsave Hv Hmax Hi Ht.
  apply verify_wav_format_markers in Hv as (H44 & Hr & Hw).
  assert (Hne : data ≠ []) by (destruct data; [simpl in H44; lia | done]).
  unfold handle_connection.
  rewrite (legacy_body_request e c a data rest Hne Hmax Hi Hsave), He.
  rewrite process_audio_both_markers by done.
  rewrite pack_be_Some by (field_width; lia).
  unfold send_exact. rewrite sendall_open by done.
  cbn [negb]. rewrite sendall_open by done. cbn [negb].
  cbn. by rewrite <- app_assoc.
Qed.

Lemma legacy_echo_round_trip_witness :
  handle_connection (Env true true true (λ _, ""%string) ReplyMissing)
    (Conn (rx_bytes (be_bytes 4 (Z.of_nat (length (wav_header44 36 0)))
                     ++ wav_header44 36 0) ++ [RxFail]) [] [] [] false)
    satellite_end
  = (LegacySent,
     Conn [RxFail] []
       ([] ++ [be_bytes 4 (Z.of_nat (length (wav_header44 36 0)));
               wav_header44 36 0])
       [] true).
Proof.
  apply (legacy_echo_round_trip
           (Env true true true (λ _, ""%string) ReplyMissing)
           (Conn (rx_bytes (be_bytes 4 (Z.of_nat (length (wav_header44 36 0)))
                            ++ wav_header44 36 0) ++ [RxFail]) [] [] [] false)
           satellite_end (wav_header44 36 0) [RxFail]).
  - reflexivity.
  - reflexivity.
  - vm_compute. reflexivity.
  - vm_compute. discriminate.
  - reflexivity.
  - reflexivity.
Defined.

(** X28. The original handler in reply mode sends the reply file as it
    is: after any request it accepts, on a connection that accepts every
    write, the content of the file goes out behind its length, whatever
    the request was and whatever the file holds; unlike in
    [handle_connection_improved] the content is not checked, so that an
    empty file goes out as a declared length of 0, which this same
    handler turns down when it receives it. *)
Theorem legacy_reply_file_verbatim e c a data content rest :
  ECHO_MODE e = false →
  save_ok e = true →
  REPLY_WAV e = ReplyContent content →
  data ≠ [] →
  Z.of_nat (length data) <= 10 * 1024 * 1024 →
  Z.of_nat (length content) < 2 ^ 32 →
  inbox c = rx_bytes (be_bytes 4 (Z.of_nat (length data)) ++ data) ++ rest →
  tx_script c = [] →
  handle_connection e c a
  = (LegacySent,
     Conn rest []
       (outbox c ++ [be_bytes 4 (Z.of_nat (length content)); content])
       (slept c) true).
Proof.
  intros He Hsave Hfile Hne Hmax Hlen Hi Ht.
  unfold handle_connection.
  rewrite (legacy_body_request e c a data rest Hne Hmax Hi Hsave), He, Hfile.
  rewrite pack_be_Some by (field_width; lia).
  unfold send_exact. rewrite sendall_open by done.
  cbn [negb]. rewrite sendall_open by done. cbn [negb].
  cbn. by rewrite <- app_assoc.
Qed.

Lemma legacy_reply_file_verbatim_witness :
  handle_connection (Env false true true (λ _, ""%string) (ReplyContent []))
    (Conn (rx_bytes (be_bytes 4 (Z.of_nat (length [x07; x07]))
                     ++ [x07; x07]) ++ []) [] [] [] false)
    satellite_end
  = (LegacySent,
     Conn [] []
       ([] ++ [be_bytes 4 (Z.of_nat (length (@nil byte))); []])
       [] true).
Proof.
  apply (legacy_reply_file_verbatim
           (Env false true true (λ _, ""%string) (ReplyContent []))
           (Conn (rx_bytes (be_bytes 4 (Z.of_nat (length [x07; x07]))
                            ++ [x07; x07]) ++ []) [] [] [] false)
           satellite_end [x07; x07] [] []).
  - reflexivity.
  - reflexivity.
  - reflexivity.
  - discriminate.
  - vm_compute. discriminate.
  - vm_compute. reflexivity.
  - reflexivity.
  - reflexivity.
Defined.

(** ** A whole exchange in echo mode *)

(** [receive_loop_lossless] with more on the stream behind the transfer:
    the loop stops at the DataEnd frame and leaves what follows unread. *)
Lemma receive_loop_lossless_then ip max_size pieces behind :
  ∀ seq st fuel,
    pieces ≠ [] →
    Forall (λ piece, (0 < length piece <= max_piece)%nat) pieces →
    inbox (r_conn st) = rx_bytes (concat (frames seq pieces)) ++ behind →
    tx_script (r_conn st) = [] →
    receive_sequence st = seq →
    0 <= seq → seq + Z.of_nat (length pieces) <= 65536 →
    Z.of_nat (length (received_data st)) + Z.of_nat (length (concat pieces))
      <= max_size →
    (length pieces <= fuel)%nat →
    ∃ st',
      receive_loop fuel ip max_size st
        = Some (Some (received_data st ++ concat pieces), st') ∧
      r_conn st'
        = Conn behind []
            (outbox (r_conn st) ++ replicate (length pieces) ack_header)
            (slept (r_conn st)) (closed (r_conn st)) ∧
      r_sessions st'
        = set_receive ip (seq + Z.of_nat (length pieces)) (r_sessions st).
Proof.
  induction pieces as [|piece rest IH];
    intros seq st fuel Hne Hall Hi Ht Hseq Hs0 Hs1 Hsize Hfuel; [done|].
  apply Forall_cons in Hall as [[Hp0 Hp1] Hall].
  destruct fuel as [|fuel]; [simpl in Hfuel; lia|].
  destruct (frames_header piece rest Hp1) as [hdr Hh].
  cbn [frames] in Hi. rewrite Hh in Hi.
  change (default [] (Some hdr)) with hdr in Hi.
  cbn [app concat] in Hi. rewrite !rx_bytes_app, <- !app_assoc in Hi.
  cbn [length concat] in Hs1, Hsize. rewrite length_app in Hsize.
  apply parse_build in Hh as [Hl Hparse].
  assert (Hmp : Z.of_nat (length piece) <= PACKET_MAX_SIZE)
    by (unfold max_piece in Hp1; lia).
  pose proof (receive_body_accepts ip max_size st hdr (be_bytes 2 seq) piece
                _ _ Hi Ht Hparse (be_bytes_length 2 seq)) as Hb.
  cbn [h_length h_type h_checksum] in Hb.
  rewrite be_value_be_bytes in Hb by field_width.
  specialize (Hb Hmp ltac:(lia) ltac:(done) ltac:(lia)).
  specialize (Hb ltac:(by destruct piece; [simpl in Hp0; lia|]) eq_refl).
  cbn [receive_loop]. rewrite Hb.
  destruct rest as [|piece' rest].
  - rewrite bool_decide_eq_true_2 by done.
    cbn [concat frames]. rewrite app_nil_r.
    eexists. split; [done|].
    cbn. rewrite Hseq. done.
  - rewrite bool_decide_eq_false_2 by done.
    match goal with
    | |- context [receive_loop fuel ip max_size ?st1] =>
        destruct (IH (seq + 1) st1 fuel)
          as (st' & Hrun & Hc & Hse);
          [| | | | | | | | |exists st'; rewrite Hrun]
    end.
    + done.
    + done.
    + cbn [r_conn inbox]. done.
    + done.
    + cbn. lia.
    + lia.
    + cbn [length] in *. lia.
    + cbn [received_data]. rewrite length_app. cbn [concat] in *.
      rewrite length_app in *. lia.
    + cbn [length] in Hfuel. cbn [length]. lia.
    + cbn [received_data r_conn outbox slept closed r_sessions] in *.
      split; [by rewrite <- app_assoc|].
      split; [rewrite Hc; by rewrite <- app_assoc|].
      rewrite Hse, Hseq, set_receive_twice. f_equal. cbn [length]. lia.
Qed.

Lemma get_send_set_receive ip v (cs : gmap string session) :
  get_send ip (set_receive ip v cs) = get_send ip cs.
Proof.
  unfold get_send, set_receive. rewrite lookup_alter_eq.
  by destruct (cs !! ip) as [[s r]|].
Qed.

(** The client's entry, however it was written on the way, is gone after
    [delete]. *)
Lemma delete_written ip s v w (cs : gmap string session) :
  delete ip (set_send ip v (set_receive ip w (<[ip := s]> cs))) = delete ip cs.
Proof.
  apply map_eq. intros k. destruct (decide (k = ip)) as [->|Hk].
  - by rewrite !lookup_delete_eq.
  - rewrite !lookup_delete_ne by done. unfold set_send, set_receive.
    rewrite !lookup_alter_ne by done. by apply lookup_insert_ne.
Qed.

Lemma chunks_of_transfer data :
  Z.of_nat (length data) <= 10 * 1024 * 1024 →
  Z.of_nat (length (chunks max_piece data)) <= 1280.
Proof.
  intros Hmax. rewrite chunks_count by (vm_compute; lia).
  change (Z.of_nat max_piece) with 8192.
  assert ((Z.of_nat (length data) + 8192 - 1) / 8192 < 1281)
    by (apply Z.div_lt_upper_bound; lia).
  lia.
Qed.

(** X29. One whole exchange with [handle_connection_improved] in echo
    mode, over a link that loses nothing: the satellite sends the
    handshake, then a recording that passes [verify_wav_format] (at most
    10 MiB) in frames from sequence number 0, and acknowledges every frame
    of the reply.  The handler finishes normally; what it has written is
    the Ack of the handshake, one Ack per frame received, and then the same
    recording in the same frames from sequence number 0; the stream is
    read to its end, the socket is closed, and the session table is the
    one it started with, less the client's entry. *)
Theorem handler_echo_round_trip e c a (cs : gmap string session) data hello :
  setsockopt_ok e = true →
  save_ok e = true →
  ECHO_MODE e = true →
  verify_wav_format data = true →
  Z.of_nat (length data) <= 10 * 1024 * 1024 →
  build_packet_header 4 PACKET_TYPE_HANDSHAKE
    (calculate_checksum expected_magic) = Some hello →
  tx_script c = [] →
  inbox c
  = rx_bytes (hello ++ expected_magic)
    ++ rx_bytes (concat (frames 0 (chunks max_piece data)))
    ++ rx_bytes (concat (replicate (length (chunks max_piece data))
                           ack_header)) →
  ∃ c',
    handle_connection_improved e c a cs
    = (ExitFinished, c', delete (client_ip a) cs) ∧
    outbox c'
    = outbox c ++ [ack_header]
      ++ replicate (length (chunks max_piece data)) ack_header
      ++ frames 0 (chunks max_piece data) ∧
    inbox c' = [] ∧
    closed c' = true.
Proof.
  intros Hopt Hsave Hecho Hv Hmax Hhello Ht Hi.
  assert (Hmp : (0 < max_piece)%nat) by (vm_compute; lia).
  pose proof Hv as Hv'.
  apply verify_wav_format_markers in Hv' as (H44 & Hr & Hw).
  assert (Hne : data ≠ []) by (destruct data; [simpl in H44; lia | done]).
  set (pieces := chunks max_piece data) in *.
  set (ip := client_ip a).
  assert (Hpne : pieces ≠ []) by (by apply chunks_nonempty).
  pose proof (chunks_concat max_piece data Hmp) as Hcat. fold pieces in Hcat.
  pose proof (chunks_sizes max_piece data Hmp) as Hall. fold pieces in Hall.
  pose proof (chunks_of_transfer data Hmax) as Hcount. fold pieces in Hcount.
  (* the handshake *)
  apply parse_build in Hhello as [Hl Hparse].
  rewrite rx_bytes_app, <- app_assoc in Hi.
  pose proof (handshake_wellformed_conn c a cs hello _ _ Hi Hparse
                eq_refl eq_refl eq_refl) as Hh.
  assert (Hwr : writable c) by (unfold writable; by rewrite Ht).
  rewrite (bool_decide_eq_true_2 _ Hwr) in Hh.
  rewrite Ht in Hh. cbn [tail] in Hh.
  (* the transfer in *)
  set (c1 := Conn _ [] (outbox c ++ [ack_header]) (slept c ++ [50; 50])
               (closed c)) in Hh.
  set (cs1 := <[ip := Session 0 0]> cs) in *.
  change (<[client_ip a := Session 0 0]> cs) with cs1 in Hh.
  assert (Hs1 : is_Some (cs1 !! ip))
    by (unfold cs1; rewrite lookup_insert_eq; eauto).
  assert (Hg1 : get_receive ip cs1 = 0)
    by (unfold get_receive, cs1; by rewrite lookup_insert_eq).
  destruct (receive_loop_lossless_then ip default_max_size pieces
              (rx_bytes (concat (replicate (length pieces) ack_header)))
              0 (RecvState c1 cs1 0 []) (S (length (inbox c1))))
    as (st' & Hrecv & Hc2 & Hcs2);
    [done | done | done | done | done | done | lia | | |].
  { cbn [received_data length]. rewrite Hcat.
    unfold default_max_size. lia. }
  { cbn [inbox c1]. rewrite length_app, rx_bytes_length.
    pose proof (frames_length 0 pieces). lia. }
  cbn [received_data app r_conn r_sessions outbox slept closed c1] in
    Hrecv, Hc2, Hcs2.
  rewrite Hcat in Hrecv.
  assert (Hin : receive_data_with_verification c1 a default_max_size cs1
                = (Some data, r_conn st', r_sessions st')).
  { unfold receive_data_with_verification. fold ip.
    rewrite (ensure_session_present ip cs1 Hs1), Hg1, Hrecv. done. }
  (* the reply *)
  assert (Hreply : prepare_reply e data = Some data).
  { unfold prepare_reply. rewrite Hv, Hecho. cbn [negb mbind option_bind].
    rewrite process_audio_both_markers by done. cbn [mbind option_bind].
    by rewrite Hv. }
  (* the transfer out *)
  set (cs2 := set_receive ip (0 + Z.of_nat (length pieces)) cs1) in *.
  assert (Hs2 : is_Some (cs2 !! ip)).
  { unfold cs2, set_receive. rewrite lookup_alter_eq.
    destruct Hs1 as [s ->]. eauto. }
  assert (Hg2 : get_send ip cs2 = 0).
  { unfold cs2. rewrite get_send_set_receive.
    unfold get_send, cs1. by rewrite lookup_insert_eq. }
  destruct (send_loop_lossless ip data default_max_retries ltac:(done)
              (length data) 0%nat 0 (sleep (r_conn st') 200) cs2)
    as (c3 & Hsend & Hout & Hin3 & _);
    [change (drop 0 data) with data; lia | lia | by rewrite Hc2
    | rewrite Hc2; done | done
    | change (drop 0 data) with data; fold pieces; lia |].
  change (drop 0 data) with data in Hsend, Hout. fold pieces in Hsend, Hout.
  assert (Hout' : send_data_with_retries (r_conn st') a data
                    default_max_retries cs2
                  = (SendTrue, c3,
                     set_send ip (0 + Z.of_nat (length pieces)) cs2)).
  { unfold send_data_with_retries. fold ip.
    rewrite (ensure_session_present ip cs2 Hs2), Hg2, Hsend.
    by destruct pieces. }
  (* the handler *)
  exists (close c3).
  unfold handle_connection_improved. rewrite connection_body_stages.
  rewrite Hopt, Hh. cbn [negb]. rewrite Hin, Hcs2, Hsave. cbn [negb].
  rewrite Hreply, Hout'. fold ip.
  rewrite bool_decide_eq_true_2.
  2:{ unfold set_send. rewrite lookup_alter_eq.
      destruct Hs2 as [s ->]. eauto. }
  split.
  { f_equal. unfold cs2, cs1. apply delete_written. }
  cbn [close outbox inbox closed].
  split; [|done].
  rewrite Hout, Hc2. cbn [sleep outbox]. by rewrite <- !app_assoc.
Qed.

Lemma handler_echo_round_trip_witness :
  ∃ c',
    handle_connection_improved
      (Env true true true (λ _, ""%string) ReplyMissing)
      (Conn (rx_bytes ([x00; x00; x00; x04; x01; x01; x36; xdd]
                       ++ expected_magic)
             ++ rx_bytes (concat (frames 0 (chunks max_piece
                                              (wav_header44 36 0))))
             ++ rx_bytes (concat (replicate
                                    (length (chunks max_piece
                                               (wav_header44 36 0)))
                                    ack_header)))
            [] [] [] false)
      satellite_end {[ client_ip server_end := Session 7 9 ]}
    = (ExitFinished, c',
       delete (client_ip satellite_end)
         ({[ client_ip server_end := Session 7 9 ]} : gmap string session)) ∧
    outbox c'
    = [] ++ [ack_header]
      ++ replicate (length (chunks max_piece (wav_header44 36 0))) ack_header
      ++ frames 0 (chunks max_piece (wav_header44 36 0)) ∧
    inbox c' = [] ∧
    closed c' = true.
Proof.
  apply (handler_echo_round_trip
           (Env true true true (λ _, ""%string) ReplyMissing)
           (Conn (rx_bytes ([x00; x00; x00; x04; x01; x01; x36; xdd]
                            ++ expected_magic)
                  ++ rx_bytes (concat (frames 0 (chunks max_piece
                                                   (wav_header44 36 0))))
                  ++ rx_bytes (concat (replicate
                                         (length (chunks max_piece
                                                    (wav_header44 36 0)))
                                         ack_header)))
                 [] [] [] false)
           satellite_end {[ client_ip server_end := Session 7 9 ]}
           (wav_header44 36 0) [x00; x00; x00; x04; x01; x01; x36; xdd]).
  - reflexivity.
  - reflexivity.
  - reflexivity.
  - vm_compute. reflexivity.
  - vm_compute. discriminate.
  - vm_compute. reflexivity.
  - reflexivity.
  - reflexivity.
Defined.
